(** * Memco: a shallow embedding of the record codec, the record table,
      the history log, the vector index and the MemQL evaluator.

    Sources embedded here:
      - [src/memco/mem.py]            (record codec)
      - [src/memco/vector_search.py]  (vector index)
      - [src/memcore/memcore.py]      (builder, table, history, facade, MemQL)

    Python failures are values of [result]; library calls the repository
    relies on (struct, zlib, UTF-8, pickle, Fernet, numpy, time, uuid) are
    modelled by their documented behaviour and named after the library. *)

From Stdlib Require Import ZArith String Ascii Bool Lia List.
From Stdlib Require Import Permutation Sorted.
From Stdlib Require Import SpecFloat DecimalString.
Import ListNotations.

Open Scope string_scope.
Open Scope list_scope.
Open Scope Z_scope.

(* ================================================================= *)
(** ** Python results *)

Module Py.

(** The exceptions the embedded code can raise. *)
Inductive pyerr : Type :=
| StructError          (* struct.error *)
| UnicodeDecodeError
| UnicodeEncodeError
| ZlibError            (* zlib.error *)
| OverflowError
| ValueError
| TypeError
| KeyError
| IndexError
| AttributeError.

Inductive result (A : Type) : Type :=
| Ok (a : A)
| Raise (e : pyerr).

Arguments Ok {A} a.
Arguments Raise {A} e.

Definition bind {A B} (r : result A) (k : A -> result B) : result B :=
  match r with
  | Ok a => k a
  | Raise e => Raise e
  end.


(** [for x in xs: ys.append(f x)], stopping at the first exception. *)
Fixpoint mapM {A B} (f : A -> result B) (xs : list A) : result (list B) :=
  match xs with
  | [] => Ok []
  | x :: xs' =>
      bind (f x) (fun y => bind (mapM f xs') (fun ys => Ok (y :: ys)))
  end.

(** [xs[:k]] for a Python integer [k] (a negative [k] counts from the end). *)
Definition slice_to {A} (k : Z) (xs : list A) : list A :=
  if k <? 0 then firstn (Z.to_nat (Z.of_nat (length xs) + k)) xs
  else firstn (Z.to_nat k) xs.

(** [list.sort] is stable: of two elements neither of which has to come
    before the other, the one that was first stays first.  [before y x]
    says that [y] has to come before [x]; insertion from the right passes
    exactly the elements that have to come before the new one. *)
Fixpoint insert_by {A} (before : A -> A -> bool) (x : A) (l : list A)
  : list A :=
  match l with
  | [] => [x]
  | y :: l' => if before y x then y :: insert_by before x l' else x :: l
  end.

Definition stable_sort {A} (before : A -> A -> bool) (l : list A) : list A :=
  fold_right (insert_by before) [] l.

Lemma insert_by_perm {A} (before : A -> A -> bool) (x : A) (l : list A) :
  Permutation (insert_by before x l) (x :: l).
Proof.
  induction l as [|y l IH]; simpl.
  - apply Permutation_refl.
  - destruct (before y x).
    + apply Permutation_trans with (y :: x :: l).
      * apply perm_skip, IH.
      * apply perm_swap.
    + apply Permutation_refl.
Qed.

Lemma stable_sort_perm {A} (before : A -> A -> bool) (l : list A) :
  Permutation (stable_sort before l) l.
Proof.
  induction l as [|x l IH]; simpl.
  - apply perm_nil.
  - apply Permutation_trans with (x :: stable_sort before l).
    + apply insert_by_perm.
    + apply perm_skip, IH.
Qed.

Lemma stable_sort_length {A} (before : A -> A -> bool) (l : list A) :
  length (stable_sort before l) = length l.
Proof. apply Permutation_length, stable_sort_perm. Qed.

End Py.

Export Py.

Declare Scope py_scope.
Notation "x <- c ;; k" := (bind c (fun x => k))
  (at level 61, c at next level, right associativity) : py_scope.
Notation "' pat <- c ;; k" := (bind c (fun x => match x with pat => k end))
  (at level 61, pat pattern, c at next level, right associativity) : py_scope.
Open Scope py_scope.

(* ================================================================= *)
(** ** Python floats (IEEE 754 binary64) *)

Module F64.

Definition float : Type := spec_float.

Definition prec : Z := 53.
Definition emax : Z := 1024.

Definition add : float -> float -> float := SFadd prec emax.
Definition mul : float -> float -> float := SFmul prec emax.
Definition div : float -> float -> float := SFdiv prec emax.
Definition sqrt : float -> float := SFsqrt prec emax.

Definition eqb : float -> float -> bool := SFeqb.
Definition ltb : float -> float -> bool := SFltb.
Definition leb : float -> float -> bool := SFleb.

(** The float nearest to an integer ([float(z)]). *)
Definition of_Z (z : Z) : float := binary_normalize prec emax z 0 false.

Definition zero : float := S754_zero false.
Definition one : float := Eval vm_compute in of_Z 1.

(** The double nearest to the decimal [n / 10^k] (exact operands, one
    correctly rounded division): how a short literal such as [0.6] reads. *)
Definition dec (n : Z) (k : nat) : float :=
  div (of_Z n) (of_Z (10 ^ Z.of_nat k)).

Definition is_nan (x : float) : bool :=
  match x with S754_nan => true | _ => false end.

(** Python truthiness of a float: [bool(x)] is [x != 0]. *)
Definition truthy (x : float) : bool := negb (eqb x zero).

(** [x < y] implies [x <= y], and [<] is irreflexive: read off [SFcompare]. *)
Lemma ltb_leb (x y : float) : ltb x y = true -> leb x y = true.
Proof.
  unfold ltb, leb, SFltb, SFleb.
  destruct (SFcompare x y) as [[ | | ]|]; congruence.
Qed.

Ltac fold_pos_compare :=
  repeat match goal with
  | |- context [PosDef.Pos.compare_cont Eq ?p ?q] =>
      change (PosDef.Pos.compare_cont Eq p q) with (Pos.compare p q)
  end.

Ltac split_compare :=
  repeat match goal with
  | |- context [Z.compare ?x ?y] => destruct (Z.compare_spec x y)
  | |- context [Pos.compare ?x ?y] => destruct (Pos.compare_spec x y)
  end.

Lemma compare_swap (x y : float) :
  SFcompare y x = option_map CompOpp (SFcompare x y).
Proof.
  destruct x as [sx|sx| |sx mx ex], y as [sy|sy| |sy my ey]; simpl;
    try reflexivity;
    try (destruct sx; reflexivity);
    try (destruct sy; reflexivity);
    try (destruct sx, sy; reflexivity).
  destruct sx, sy; simpl; try reflexivity;
    rewrite (Z.compare_antisym ex ey);
    destruct (ex ?= ey); simpl; try reflexivity;
    fold_pos_compare; rewrite (Pos.compare_antisym mx my); reflexivity.
Qed.


Lemma ltb_asym (x y : float) : ltb x y = true -> ltb y x = false.
Proof.
  unfold ltb, SFltb. rewrite (compare_swap x y).
  destruct (SFcompare x y) as [[ | | ]|]; simpl; congruence.
Qed.


(** "Not less than" chains through a middle value that is not a NaN. *)
Lemma nlt_trans (a b c : float) :
  is_nan b = false ->
  ltb a b = false -> ltb b c = false -> ltb a c = false.
Proof.
  intros Hb. unfold ltb, SFltb.
  destruct a as [sa|sa| |sa ma ea], b as [sb|sb| |sb mb eb],
           c as [sc|sc| |sc mc ec]; simpl in *; try congruence;
    try (destruct sa; simpl; congruence);
    try (destruct sb; simpl; congruence);
    try (destruct sc; simpl; congruence);
    try (destruct sa, sb; simpl; congruence);
    try (destruct sa, sc; simpl; congruence);
    try (destruct sb, sc; simpl; congruence);
    try (destruct sa, sb, sc; simpl; congruence).
  all: destruct sa, sb, sc; simpl; try congruence.
  all: fold_pos_compare; split_compare; simpl; try congruence; lia.
Qed.

End F64.

(* ================================================================= *)
(** ** Vector index ([src/memco/vector_search.py]) *)

Module VectorSearch.

Import F64.

Section Index.

(** The JSON metadata stored beside a vector is carried, never inspected. *)
Variable Meta : Type.

(** A row of the [vectors] table: [(id, vector, metadata)]. *)
Record row : Type := mkRow {
  row_id : string;
  row_vector : list float;
  row_metadata : Meta
}.

Record VectorSearchResult : Type := mkResult {
  id : string;
  score : float;
  metadata : Meta
}.

(** [np.all(a == 0)] *)
Definition np_all_zero (a : list float) : bool :=
  forallb (fun x => eqb x zero) a.

(** [np.dot(a, b)] on 1-D arrays: a left-to-right sum of products; arrays
    of different lengths raise [ValueError]. *)
Fixpoint dot_from (acc : float) (a b : list float) : result float :=
  match a, b with
  | [], [] => Ok acc
  | x :: a', y :: b' => dot_from (add acc (mul x y)) a' b'
  | _, _ => Raise ValueError
  end.

Definition np_dot (a b : list float) : result float := dot_from zero a b.

(** [x.dot(x)], which cannot fail. *)
Definition sqnorm (a : list float) : float :=
  fold_left (fun acc x => add acc (mul x x)) a zero.

(** [np.linalg.norm(a)] is [sqrt(a.dot(a))]. *)
Definition np_linalg_norm (a : list float) : float := sqrt (sqnorm a).

Definition _cosine_similarity (a b : list float) : result float :=
  if np_all_zero a || np_all_zero b then Ok zero
  else
    d <- np_dot a b ;;
    Ok (div d (mul (np_linalg_norm a) (np_linalg_norm b))).

(** [similarities.sort(key=lambda x: x[1], reverse=True)]: a stable sort,
    greatest key first.  Insertion from the right keeps the earlier of
    two equal keys in front, as Python does. *)
Definition scored : Type := (string * float * Meta)%type.

Definition key (x : scored) : float := snd (fst x).

(** [x] has to come after [y] when its score is strictly smaller. *)
Definition before_desc (y x : scored) : bool := ltb (key x) (key y).

Definition insert_desc : scored -> list scored -> list scored :=
  insert_by before_desc.

Definition sort_desc : list scored -> list scored := stable_sort before_desc.

Definition score_row (query_np : list float) (r : row) : result scored :=
  similarity <- _cosine_similarity query_np (row_vector r) ;;
  Ok (row_id r, similarity, row_metadata r).

Definition to_result (x : scored) : VectorSearchResult :=
  mkResult (fst (fst x)) (snd (fst x)) (snd x).

Definition search (rows : list row) (query_vector : list float) (top_k : Z)
  : result (list VectorSearchResult) :=
  match rows with
  | [] => Ok []
  | _ =>
      similarities <- mapM (score_row query_vector) rows ;;
      Ok (map to_result (slice_to top_k (sort_desc similarities)))
  end.

(** [INSERT INTO vectors]: the primary key refuses a second row with the
    same id, and the exception becomes [False]. *)
Definition add_vector (rows : list row) (i : string) (v : list float) (m : Meta)
  : list row * bool :=
  if existsb (fun r => String.eqb (row_id r) i) rows then (rows, false)
  else (rows ++ [mkRow i v m], true).

(** *** The sort *)



Lemma sort_desc_perm (l : list scored) : Permutation (sort_desc l) l.
Proof. apply stable_sort_perm. Qed.

Lemma insert_desc_cons (x y : scored) (l : list scored) :
  insert_desc x (y :: l) =
    if ltb (key x) (key y) then y :: insert_desc x l else x :: y :: l.
Proof. reflexivity. Qed.

Lemma sort_desc_cons (x : scored) (l : list scored) :
  sort_desc (x :: l) = insert_desc x (sort_desc l).
Proof. reflexivity. Qed.








Lemma search_unfold (rows : list row) (q : list float) (k : Z) :
  search rows q k =
    (similarities <- mapM (score_row q) rows ;;
     Ok (map to_result (slice_to k (sort_desc similarities)))).
Proof.
  destruct rows as [|r rows]; [|reflexivity].
  simpl. unfold slice_to. destruct (k <? 0); simpl; rewrite firstn_nil;
    reflexivity.
Qed.

End Index.

Arguments mkRow {Meta}.
Arguments mkResult {Meta}.

(** The vectors of the example, stored under ids A, B and C (each
    [add_vector] succeeds, the ids being new), and its query. *)
Definition v10 : list float := [of_Z 1; of_Z 0].
Definition v01 : list float := [of_Z 0; of_Z 1].
Definition v11 : list float := [of_Z 1; of_Z 1].

Definition example_rows : list (row string) :=
  let t0 := [] in
  let t1 := fst (add_vector string t0 "A" v10 "{}") in
  let t2 := fst (add_vector string t1 "B" v01 "{}") in
  fst (add_vector string t2 "C" v11 "{}").



End VectorSearch.

(* ================================================================= *)
(** ** Python [str] methods used by the store and by MemQL

    Strings are byte strings here; [upper] and [lower] map the ASCII
    letters and leave every other character alone. *)

Module Str.

Definition code (c : ascii) : nat := nat_of_ascii c.

Definition upper_char (c : ascii) : ascii :=
  if (Nat.leb 97 (code c) && Nat.leb (code c) 122)%bool
  then ascii_of_nat (code c - 32) else c.

Definition lower_char (c : ascii) : ascii :=
  if (Nat.leb 65 (code c) && Nat.leb (code c) 90)%bool
  then ascii_of_nat (code c + 32) else c.

Fixpoint map_chars (f : ascii -> ascii) (s : string) : string :=
  match s with
  | EmptyString => EmptyString
  | String c s' => String (f c) (map_chars f s')
  end.

Definition upper : string -> string := map_chars upper_char.
Definition lower : string -> string := map_chars lower_char.

(** [sub in s] *)
Definition contains (sub s : string) : bool :=
  match index 0 sub s with Some _ => true | None => false end.

(** [s.find(sub)], the caller having checked [sub in s]; [None] is -1. *)
Definition find (sub s : string) : option nat := index 0 sub s.


Fixpoint rev_onto (s acc : string) : string :=
  match s with
  | EmptyString => acc
  | String c s' => rev_onto s' (String c acc)
  end.

Definition rev (s : string) : string := rev_onto s EmptyString.

Definition endswith (p s : string) : bool := prefix (rev p) (rev s).

(** Whitespace as [str.strip()] sees it in the ASCII range. *)
Definition is_space (c : ascii) : bool :=
  let n := code c in
  (Nat.eqb n 32 || (Nat.leb 9 n && Nat.leb n 13)
   || (Nat.leb 28 n && Nat.leb n 31))%bool.

Fixpoint lstrip (s : string) : string :=
  match s with
  | EmptyString => EmptyString
  | String c s' => if is_space c then lstrip s' else s
  end.

Definition rstrip (s : string) : string := rev (lstrip (rev s)).

Definition strip (s : string) : string := rstrip (lstrip s).

(** [s[i:]], [s[:j]], [s[i:j]] for indices within the string, [s[1:-1]]. *)
Definition from (i : nat) (s : string) : string :=
  substring i (String.length s - i) s.

Definition upto (j : nat) (s : string) : string := substring 0 j s.



(** [s.split(sep)] for a non-empty [sep]: [cur] is the piece being read
    (reversed) and [skip] the characters of a separator still to pass. *)
Fixpoint split_go (sep s : string) (skip : nat) (cur : string) : list string :=
  match s with
  | EmptyString => [rev cur]
  | String c s' =>
      match skip with
      | S k => split_go sep s' k cur
      | O =>
          if prefix sep s
          then rev cur :: split_go sep s' (String.length sep - 1) EmptyString
          else split_go sep s' O (String c cur)
      end
  end.

Definition split (sep s : string) : list string := split_go sep s 0 EmptyString.

(** [s.split(sep, 1)] when [sep in s]: the text before and after the
    first separator. *)
Definition split1 (sep s : string) : option (string * string) :=
  match index 0 sep s with
  | Some i => Some (upto i s, from (i + String.length sep) s)
  | None => None
  end.



(** [s.replace(old, new)] for a non-empty [old]. *)
Definition replace (old new s : string) : string :=
  String.concat new (split old s).



End Str.

(* ================================================================= *)
(** ** Insertion-ordered dictionaries (Python [dict]) *)

Module Dict.

Section Ops.

Context {V : Type}.

Definition t : Type := list (string * V).

Fixpoint get (k : string) (d : t) : option V :=
  match d with
  | [] => None
  | (k', v) :: d' => if String.eqb k' k then Some v else get k d'
  end.

(** [k in d] *)
Definition has (k : string) (d : t) : bool :=
  match get k d with Some _ => true | None => false end.

(** [d.get(k, default)] *)
Definition get_or (k : string) (default : V) (d : t) : V :=
  match get k d with Some v => v | None => default end.

(** [d[k] = v]: an existing key keeps its place, a new one goes last. *)
Fixpoint set (k : string) (v : V) (d : t) : t :=
  match d with
  | [] => [(k, v)]
  | (k', v') :: d' =>
      if String.eqb k' k then (k, v) :: d' else (k', v') :: set k v d'
  end.

(** [del d[k]] *)
Fixpoint del (k : string) (d : t) : t :=
  match d with
  | [] => []
  | (k', v') :: d' =>
      if String.eqb k' k then d' else (k', v') :: del k d'
  end.

Definition keys (d : t) : list string := map fst d.

Lemma get_set_same (k : string) (v : V) (d : t) : get k (set k v d) = Some v.
Proof.
  induction d as [|[k' v'] d IH]; simpl.
  - rewrite String.eqb_refl. reflexivity.
  - destruct (String.eqb k' k) eqn:E; simpl.
    + rewrite String.eqb_refl. reflexivity.
    + rewrite E. exact IH.
Qed.

Lemma get_set_other (k k0 : string) (v : V) (d : t) :
  k0 <> k -> get k0 (set k v d) = get k0 d.
Proof.
  intros Hne. induction d as [|[k' v'] d IH]; simpl.
  - destruct (String.eqb k k0) eqn:E; [|reflexivity].
    apply String.eqb_eq in E. congruence.
  - destruct (String.eqb k' k) eqn:E; simpl.
    + apply String.eqb_eq in E. subst k'.
      destruct (String.eqb k k0) eqn:E0; [|reflexivity].
      apply String.eqb_eq in E0. congruence.
    + destruct (String.eqb k' k0); [reflexivity | exact IH].
Qed.

Lemma get_del_other (k k0 : string) (d : t) :
  k0 <> k -> get k0 (del k d) = get k0 d.
Proof.
  intros Hne. induction d as [|[k' v'] d IH]; simpl; [reflexivity|].
  destruct (String.eqb k' k) eqn:E; simpl.
  - apply String.eqb_eq in E. subst k'.
    destruct (String.eqb k k0) eqn:E0; [|reflexivity].
    apply String.eqb_eq in E0. congruence.
  - destruct (String.eqb k' k0); [reflexivity | exact IH].
Qed.

Lemma length_set (k : string) (v : V) (d : t) :
  length (set k v d) = if has k d then length d else S (length d).
Proof.
  unfold has. induction d as [|[k' v'] d IH]; simpl; [reflexivity|].
  destruct (String.eqb k' k) eqn:E; simpl; [reflexivity|].
  rewrite IH. destruct (get k d); reflexivity.
Qed.

End Ops.

Arguments t V : clear implicits.

End Dict.

(* ================================================================= *)
(** ** The store ([src/memcore/memcore.py]) *)

Module Memcore.

Import F64.

(** *** Python values held in records *)

#[local] Set Warnings "-register-all".

Inductive pyval : Type :=
| VNone
| VBool (b : bool)
| VFloat (x : float)
| VStr (s : string)
| VList (l : list pyval)
| VDict (d : list (string * pyval)).

Definition pydict : Type := Dict.t pyval.

(** [bool(v)] *)
Definition truthy (v : pyval) : bool :=
  match v with
  | VNone => false
  | VBool b => b
  | VFloat x => F64.truthy x
  | VStr s => negb (String.eqb s "")
  | VList l => match l with [] => false | _ => true end
  | VDict d => match d with [] => false | _ => true end
  end.

(** [a or b] *)
Definition py_or (a b : pyval) : pyval := if truthy a then a else b.

(** What one operation reads from outside the store: the clock
    ([time.time()]), a fresh [uuid.uuid4()] and the local time as
    [datetime.now().strftime("%Y%m%d%H%M%S")].  One operation takes one
    reading of each. *)
Record env : Type := mkEnv {
  now : float;
  uuid4 : string;
  strftime : string
}.

(** A [Fernet] object: its [encrypt] and [decrypt] on text ([decrypt] is
    [None] when the library raises, or the plaintext is no UTF-8). *)
Record Fernet : Type := mkFernet {
  encrypt : string -> string;
  decrypt : string -> option string
}.

(** The attributes a [MemCore] is constructed with. *)
Record config : Type := mkConfig {
  encryption_key : option Fernet;
  embedding_provider : option (string -> list float)
}.

(** *** MemoryRecord *)

Record MemoryRecord : Type := mkRecord {
  id : pyval;
  content : pyval;
  tags : pyval;
  metadata : pyval;
  importance : pyval;
  created_at : pyval;
  updated_at : pyval;
  source : pyval;
  embedding : pyval
}.

(** [MemoryRecord.__init__] *)
Definition MemoryRecord_init (e : env)
  (id0 content0 tags0 metadata0 importance0 created0 updated0 source0
     embedding0 : pyval) : MemoryRecord :=
  let created := py_or created0 (VFloat (now e)) in
  {| id := py_or id0 (VStr (uuid4 e));
     content := content0;
     tags := py_or tags0 (VList []);
     metadata := py_or metadata0 (VDict []);
     importance := importance0;
     created_at := created;
     updated_at := py_or updated0 created;
     source := source0;
     embedding := py_or embedding0 (VList []) |}.

(** 0.5, the default importance. *)
Definition half : float := Eval vm_compute in dec 5 1.

(** [MemoryRecord()] with every default. *)
Definition MemoryRecord_default (e : env) : MemoryRecord :=
  MemoryRecord_init e VNone (VStr "") VNone VNone (VFloat half) VNone VNone
    (VStr "") VNone.

Definition to_dict (r : MemoryRecord) : pydict :=
  [("id", id r); ("content", content r); ("tags", tags r);
   ("metadata", metadata r); ("importance", importance r);
   ("created_at", created_at r); ("updated_at", updated_at r);
   ("source", source r); ("embedding", embedding r)].

Definition from_dict (e : env) (data : pydict) : MemoryRecord :=
  MemoryRecord_init e
    (Dict.get_or "id" VNone data)
    (Dict.get_or "content" (VStr "") data)
    (Dict.get_or "tags" (VList []) data)
    (Dict.get_or "metadata" (VDict []) data)
    (Dict.get_or "importance" (VFloat half) data)
    (Dict.get_or "created_at" VNone data)
    (Dict.get_or "updated_at" VNone data)
    (Dict.get_or "source" (VStr "") data)
    (Dict.get_or "embedding" (VList []) data).

(** [hasattr(memory, key)] for the data attributes of a record. *)
Definition hasattr (key : string) : bool :=
  existsb (String.eqb key)
    ["id"; "content"; "tags"; "metadata"; "importance"; "created_at";
     "updated_at"; "source"; "embedding"].

(** [setattr(memory, key, value)] on a data attribute. *)
Definition setattr (r : MemoryRecord) (key : string) (v : pyval)
  : MemoryRecord :=
  if String.eqb key "id" then
    mkRecord v (content r) (tags r) (metadata r) (importance r)
      (created_at r) (updated_at r) (source r) (embedding r)
  else if String.eqb key "content" then
    mkRecord (id r) v (tags r) (metadata r) (importance r)
      (created_at r) (updated_at r) (source r) (embedding r)
  else if String.eqb key "tags" then
    mkRecord (id r) (content r) v (metadata r) (importance r)
      (created_at r) (updated_at r) (source r) (embedding r)
  else if String.eqb key "metadata" then
    mkRecord (id r) (content r) (tags r) v (importance r)
      (created_at r) (updated_at r) (source r) (embedding r)
  else if String.eqb key "importance" then
    mkRecord (id r) (content r) (tags r) (metadata r) v
      (created_at r) (updated_at r) (source r) (embedding r)
  else if String.eqb key "created_at" then
    mkRecord (id r) (content r) (tags r) (metadata r) (importance r)
      v (updated_at r) (source r) (embedding r)
  else if String.eqb key "updated_at" then
    mkRecord (id r) (content r) (tags r) (metadata r) (importance r)
      (created_at r) v (source r) (embedding r)
  else if String.eqb key "source" then
    mkRecord (id r) (content r) (tags r) (metadata r) (importance r)
      (created_at r) (updated_at r) v (embedding r)
  else if String.eqb key "embedding" then
    mkRecord (id r) (content r) (tags r) (metadata r) (importance r)
      (created_at r) (updated_at r) (source r) v
  else r.

(** An id names a dictionary key, a file and a directory: a string. *)
Definition id_key (v : pyval) : result string :=
  match v with
  | VStr s => Ok s
  | _ => Raise TypeError
  end.

Definition floats (l : list float) : pyval := VList (map VFloat l).

(** [provider.get_embedding(text)] on a record's content. *)
Definition get_embedding (p : string -> list float) (text : pyval)
  : result pyval :=
  match text with
  | VStr s => Ok (floats (p s))
  | _ => Raise TypeError
  end.

(** *** MemoryBuilder *)

Record MemoryBuilder : Type := mkBuilder {
  record : MemoryRecord;
  ai_provider : option (string -> list float)
}.

Definition MemoryBuilder_init (e : env) (p : option (string -> list float))
  : MemoryBuilder :=
  mkBuilder (MemoryRecord_default e) p.

Definition set_content (b : MemoryBuilder) (c : string) : MemoryBuilder :=
  let r := setattr (record b) "content" (VStr c) in
  match ai_provider b with
  | Some p =>
      if negb (String.eqb c "")
      then mkBuilder (setattr r "embedding" (floats (p c))) (ai_provider b)
      else mkBuilder r (ai_provider b)
  | None => mkBuilder r (ai_provider b)
  end.

(** [set_tags]: a string is split on commas, each piece stripped. *)
Definition set_tags (b : MemoryBuilder) (t : pyval) : MemoryBuilder :=
  let t' := match t with
            | VStr s => VList (map (fun x => VStr (Str.strip x)) (Str.split "," s))
            | _ => t
            end in
  mkBuilder (setattr (record b) "tags" t') (ai_provider b).

(** Python's [min(a, b)] and [max(a, b)] on floats: the first argument
    unless the second is strictly smaller (greater). *)
Definition py_min (a b : float) : float := if ltb b a then b else a.
Definition py_max (a b : float) : float := if ltb a b then b else a.

(** [max(0.0, min(1.0, importance))] *)
Definition clamp01 (x : float) : float := py_max zero (py_min one x).

Definition set_importance (b : MemoryBuilder) (x : float) : MemoryBuilder :=
  mkBuilder (setattr (record b) "importance" (VFloat (clamp01 x)))
    (ai_provider b).

Definition set_source (b : MemoryBuilder) (s : string) : MemoryBuilder :=
  mkBuilder (setattr (record b) "source" (VStr s)) (ai_provider b).

Definition build (e : env) (b : MemoryBuilder) : result MemoryRecord :=
  if (negb (truthy (content (record b)))
      && negb (truthy (embedding (record b))))%bool
  then Raise ValueError
  else
    let r := setattr (record b) "id" (VStr (uuid4 e)) in
    Ok (setattr r "created_at" (VFloat (now e))).

(** *** The persisted state

    A [.mem] or [.memh] file holds a pickled dictionary, or bytes that
    [pickle.load] refuses. *)

Inductive file : Type :=
| Pickled (d : pydict)
| Unreadable.

(** A history entry as [get_history] returns it. *)
Record entry : Type := mkEntry {
  timestamp : string;
  action : string;
  data : pydict
}.

Record store : Type := mkStore {
  memories : Dict.t pydict;             (* MemTable.memories, the index *)
  mem_files : Dict.t file;              (* .memtable/<id>.mem *)
  history_files : Dict.t (Dict.t file); (* .memhistory/<id>/<name> *)
  vectors : Dict.t (pyval * pydict)     (* the vectors table, by id *)
}.

Definition empty_store : store := mkStore [] [] [] [].

Definition with_memories (st : store) (m : Dict.t pydict) : store :=
  mkStore m (mem_files st) (history_files st) (vectors st).

Definition with_mem_files (st : store) (f : Dict.t file) : store :=
  mkStore (memories st) f (history_files st) (vectors st).

Definition with_history (st : store) (h : Dict.t (Dict.t file)) : store :=
  mkStore (memories st) (mem_files st) h (vectors st).

Definition with_vectors (st : store) (v : Dict.t (pyval * pydict)) : store :=
  mkStore (memories st) (mem_files st) (history_files st) v.

(** [bool(d)] for a dictionary. *)
Definition nonempty (d : pydict) : bool :=
  match d with [] => false | _ => true end.

(** *** MemTable *)

Module MemTable.

Definition add_memory (st : store) (memory : MemoryRecord) (encrypted : bool)
  : result (string * store) :=
  k <- id_key (id memory) ;;
  let memory_dict := Dict.set "encrypted" (VBool encrypted) (to_dict memory) in
  let st1 := with_memories st (Dict.set k memory_dict (memories st)) in
  Ok (k, with_mem_files st1 (Dict.set k (Pickled memory_dict) (mem_files st1))).

(** [get_memory]: the record read from its file, or the index's own
    dictionary (flagged [true]: the caller holds the index's object, not
    a copy) when the file is missing or does not load. *)
Definition get_memory (st : store) (memory_id : string)
  : option (pydict * bool) :=
  match Dict.get memory_id (memories st) with
  | None => None
  | Some indexed =>
      match Dict.get memory_id (mem_files st) with
      | Some (Pickled d) => Some (d, false)
      | Some Unreadable => Some (indexed, true)
      | None => Some (indexed, true)
      end
  end.

(** [for key, value in fields.items(): if key in memory and key != "id":
    memory[key] = value] *)
Definition apply_fields (fields memory : pydict) : pydict :=
  fold_left
    (fun m kv =>
       if (Dict.has (fst kv) m && negb (String.eqb (fst kv) "id"))%bool
       then Dict.set (fst kv) (snd kv) m else m)
    fields memory.

Definition update_memory (e : env) (st : store) (memory_id : string)
  (fields : pydict) : bool * store :=
  match get_memory st memory_id with
  | None => (false, st)
  | Some (memory, _) =>
      if negb (nonempty memory) then (false, st)
      else
        let memory1 := apply_fields fields memory in
        let memory2 := Dict.set "updated_at" (VFloat (now e)) memory1 in
        let st1 := with_memories st (Dict.set memory_id memory2 (memories st)) in
        (true,
         with_mem_files st1
           (Dict.set memory_id (Pickled memory2) (mem_files st1)))
  end.

Definition delete_memory (st : store) (memory_id : string) : bool * store :=
  if negb (Dict.has memory_id (memories st)) then (false, st)
  else
    let st1 := with_memories st (Dict.del memory_id (memories st)) in
    (true, with_mem_files st1 (Dict.del memory_id (mem_files st1))).

(** What [query] hands to the predicate for an index entry: the record
    read from the file when it exists and loads, else the index's own
    dictionary ([pass  # Use the in-memory version if file can't be
    loaded]). *)
Definition scanned (st : store) (memory_id : string) (indexed : pydict)
  : pydict * bool :=
  match Dict.get memory_id (mem_files st) with
  | Some (Pickled d) => (d, false)
  | _ => (indexed, true)
  end.

(** [query]: a pass over the index in its order.  The predicate may
    change the dictionary it is given and may raise; a change made to the
    index's own dictionary stays in the index.  Each result carries the
    key it aliases in the index, if it does. *)
Fixpoint query_from (todo : Dict.t pydict) (st : store)
  (query_func : pydict -> result (bool * pydict))
  : result (list (option string * pydict) * store) :=
  match todo with
  | [] => Ok ([], st)
  | (memory_id, indexed) :: todo' =>
      let '(memory, aliased) := scanned st memory_id indexed in
      '(keep, memory') <- query_func memory ;;
      let st1 := if aliased
                 then with_memories st (Dict.set memory_id memory' (memories st))
                 else st in
      '(rest, st2) <- query_from todo' st1 query_func ;;
      let origin := if aliased then Some memory_id else None in
      Ok (if keep then (origin, memory') :: rest else rest, st2)
  end.

Definition query (st : store)
  (query_func : pydict -> result (bool * pydict))
  : result (list (option string * pydict) * store) :=
  query_from (memories st) st query_func.

End MemTable.

(** *** MemHistory *)

Module MemHistory.

Definition history_file (e : env) (action : string) : string :=
  strftime e ++ "_" ++ action ++ ".memh".

Definition add_history (e : env) (st : store) (memory : MemoryRecord)
  (action : string) : result store :=
  k <- id_key (id memory) ;;
  let dir := Dict.get_or k [] (history_files st) in
  let dir' := Dict.set (history_file e action) (Pickled (to_dict memory)) dir in
  Ok (with_history st (Dict.set k dir' (history_files st))).

(** [sorted(os.listdir(history_path))]: ascending by file name (the
    names in a directory are distinct). *)
Definition name_before (y x : string * file) : bool :=
  String.ltb (fst y) (fst x).

Definition sorted_listdir (dir : Dict.t file) : list (string * file) :=
  stable_sort name_before dir.

(** One file of the directory: skipped unless it ends in [.memh]; a name
    without [_] breaks the unpacking of [filename.split('_', 1)]; a file
    that does not load is reported and skipped. *)
Definition read_entry (x : string * file) : result (list entry) :=
  if Str.endswith ".memh" (fst x) then
    match Str.split1 "_" (fst x) with
    | None => Raise ValueError
    | Some (ts, act) =>
        match snd x with
        | Pickled d => Ok [mkEntry ts (Str.replace ".memh" "" act) d]
        | Unreadable => Ok []
        end
    end
  else Ok [].

Definition get_history (st : store) (memory_id : string)
  : result (list entry) :=
  match Dict.get memory_id (history_files st) with
  | None => Ok []
  | Some dir =>
      parts <- mapM read_entry (sorted_listdir dir) ;;
      Ok (concat parts)
  end.

End MemHistory.

(** *** Field encryption *)

(** [_decrypt_data] under a key: a string that does not decrypt is
    returned as it is ([except: return data]). *)
Fixpoint decrypt_with (f : Fernet) (v : pyval) : pyval :=
  match v with
  | VStr s =>
      match decrypt f s with
      | Some plain => VStr plain
      | None => VStr s
      end
  | VList l => VList (map (decrypt_with f) l)
  | VDict d => VDict (map (fun kv => (fst kv, decrypt_with f (snd kv))) d)
  | _ => v
  end.

Definition _decrypt_data (key : option Fernet) (v : pyval) : pyval :=
  match key with
  | None => v
  | Some f => decrypt_with f v
  end.

Section Facade.

(** [str(x)] for a float, [float(s)] and [int(s)] ([None]: ValueError). *)
Variable repr_float : float -> string.
Variable py_float : string -> option float.
Variable py_int : string -> option Z.

Fixpoint encrypt_with (f : Fernet) (v : pyval) : pyval :=
  match v with
  | VStr s => VStr (encrypt f s)
  | VList l => VList (map (encrypt_with f) l)
  | VDict d => VDict (map (fun kv => (fst kv, encrypt_with f (snd kv))) d)
  | VNone => VStr (encrypt f "None")
  | VBool b => VStr (encrypt f (if b then "True" else "False"))
  | VFloat x => VStr (encrypt f (repr_float x))
  end.

Definition _encrypt_data (key : option Fernet) (v : pyval) : pyval :=
  match key with
  | None => v
  | Some f => encrypt_with f v
  end.

(** *** MemCore *)

Variable cfg : config.

(** [d[k]] *)
Definition item (k : string) (d : pydict) : result pyval :=
  match Dict.get k d with
  | Some v => Ok v
  | None => Raise KeyError
  end.

(** [memory.tags.copy() if memory.tags else []] *)
Definition tags_copy (t : pyval) : result pyval :=
  if truthy t then
    match t with
    | VList _ | VDict _ => Ok t
    | _ => Raise AttributeError
    end
  else Ok (VList []).

Definition encrypt_fields (key : option Fernet) (m : MemoryRecord)
  : MemoryRecord :=
  let m1 := setattr m "content" (_encrypt_data key (content m)) in
  let m2 := setattr m1 "tags" (_encrypt_data key (tags m1)) in
  let m3 := setattr m2 "source" (_encrypt_data key (source m2)) in
  setattr m3 "metadata" (_encrypt_data key (metadata m3)).

Definition vector_metadata (original_content original_tags imp : pyval)
  : pydict :=
  [("content", original_content); ("tags", original_tags);
   ("importance", imp)].

(** [add_vector]: the primary key refuses an id already stored. *)
Definition add_vector (st : store) (k : string) (v : pyval) (m : pydict)
  : store :=
  if Dict.has k (vectors st) then st
  else with_vectors st (Dict.set k (v, m) (vectors st)).

(** [update_vector]: only a stored id is rewritten. *)
Definition update_vector (st : store) (k : string) (v : pyval) (m : pydict)
  : store :=
  if Dict.has k (vectors st)
  then with_vectors st (Dict.set k (v, m) (vectors st)) else st.

Definition delete_vector (st : store) (k : string) : store :=
  with_vectors st (Dict.del k (vectors st)).

Definition add_memory (e : env) (st : store) (memory : MemoryRecord)
  (encrypted : bool) : result (string * store) :=
  memory1 <-
    match embedding_provider cfg with
    | Some p =>
        if negb (truthy (embedding memory))
        then emb <- get_embedding p (content memory) ;;
             Ok (setattr memory "embedding" emb)
        else Ok memory
    | None => Ok memory
    end ;;
  let original_content := content memory1 in
  original_tags <- tags_copy (tags memory1) ;;
  let memory2 :=
    match encryption_key cfg with
    | Some f => if encrypted then encrypt_fields (Some f) memory1 else memory1
    | None => memory1
    end in
  '(memory_id, st1) <- MemTable.add_memory st memory2 encrypted ;;
  st2 <- MemHistory.add_history e st1 memory2 "create" ;;
  Ok (memory_id,
      if truthy (embedding memory2)
      then add_vector st2 memory_id (embedding memory2)
             (vector_metadata original_content original_tags
                (importance memory2))
      else st2).

(** [add_memory] given a dictionary. *)
Definition add_memory_dict (e : env) (st : store) (memory : pydict)
  (encrypted : bool) : result (string * store) :=
  add_memory e st (from_dict e memory) encrypted.

(** The four fields [get_memory] decrypts in place. *)
Definition decrypt_fields (key : option Fernet) (d : pydict) : result pydict :=
  c <- item "content" d ;;
  let d1 := Dict.set "content" (_decrypt_data key c) d in
  t <- item "tags" d1 ;;
  let d2 := Dict.set "tags" (_decrypt_data key t) d1 in
  s <- item "source" d2 ;;
  let d3 := Dict.set "source" (_decrypt_data key s) d2 in
  m <- item "metadata" d3 ;;
  Ok (Dict.set "metadata" (_decrypt_data key m) d3).

Definition get_memory (e : env) (st : store) (memory_id : string)
  : result (option MemoryRecord * store) :=
  match MemTable.get_memory st memory_id with
  | None => Ok (None, st)
  | Some (d, aliased) =>
      if negb (nonempty d) then Ok (None, st)
      else
        match encryption_key cfg with
        | Some f =>
            if truthy (Dict.get_or "encrypted" (VBool false) d) then
              d' <- decrypt_fields (Some f) d ;;
              Ok (Some (from_dict e d'),
                  if aliased
                  then with_memories st (Dict.set memory_id d' (memories st))
                  else st)
            else Ok (Some (from_dict e d), st)
        | None => Ok (Some (from_dict e d), st)
        end
  end.

(** [for key, value in fields.items(): if hasattr(memory, key) and
    key != "id": setattr(memory, key, value)] *)
Definition set_fields (fields : pydict) (memory : MemoryRecord)
  : MemoryRecord :=
  fold_left
    (fun m kv =>
       if (hasattr (fst kv) && negb (String.eqb (fst kv) "id"))%bool
       then setattr m (fst kv) (snd kv) else m)
    fields memory.

Definition update_memory (e : env) (st : store) (memory_id : string)
  (fields : pydict) : result (bool * store) :=
  '(found, st1) <- get_memory e st memory_id ;;
  match found with
  | None => Ok (false, st1)
  | Some memory =>
      original_data <-
        match MemTable.get_memory st1 memory_id with
        | Some (d, _) => Ok d
        | None => Raise AttributeError
        end ;;
      let was_encrypted :=
        truthy (Dict.get_or "encrypted" (VBool false) original_data) in
      let memory1 := set_fields fields memory in
      let content_changed := Dict.has "content" fields in
      memory2 <-
        match embedding_provider cfg with
        | Some p =>
            if content_changed
            then emb <- get_embedding p (content memory1) ;;
                 Ok (setattr memory1 "embedding" emb)
            else Ok memory1
        | None => Ok memory1
        end ;;
      let original_content := content memory2 in
      original_tags <- tags_copy (tags memory2) ;;
      let memory3 :=
        match encryption_key cfg with
        | Some f =>
            if was_encrypted then encrypt_fields (Some f) memory2 else memory2
        | None => memory2
        end in
      let update_dict := Dict.del "id" (to_dict memory3) in
      let '(success, st2) :=
        MemTable.update_memory e st1 memory_id update_dict in
      if success then
        st3 <- MemHistory.add_history e st2 memory3 "update" ;;
        Ok (true,
            if (truthy (embedding memory3)
                && (content_changed || Dict.has "embedding" fields))%bool
            then update_vector st3 memory_id (embedding memory3)
                   (vector_metadata original_content original_tags
                      (importance memory3))
            else st3)
      else Ok (false, st2)
  end.

Definition delete_memory (e : env) (st : store) (memory_id : string)
  : result (bool * store) :=
  '(found, st1) <- get_memory e st memory_id ;;
  match found with
  | None => Ok (false, st1)
  | Some memory =>
      let '(success, st2) := MemTable.delete_memory st1 memory_id in
      if success then
        st3 <- MemHistory.add_history e st2 memory "delete" ;;
        Ok (true, delete_vector st3 memory_id)
      else Ok (false, st2)
  end.

Definition get_history (st : store) (memory_id : string)
  : result (list entry) :=
  MemHistory.get_history st memory_id.

(** *** MemQL *)

(** [s.find(sub)] where the caller has checked [sub in s]. *)
Definition find_in (sub s : string) : nat :=
  match Str.find sub s with Some i => i | None => 0 end.



Definition order_of (query : string) : string * bool :=
  if Str.contains "ORDER BY" (Str.upper query) then
    let order_by :=
      Str.strip (Str.from (find_in "ORDER BY" (Str.upper query) + 8) query) in
    if Str.contains "DESC" (Str.upper order_by)
    then (Str.strip (Str.replace "DESC" "" (Str.upper order_by)), true)
    else (order_by, false)
  else ("", false).






(** A record field as a number in a comparison ([True] is 1). *)
Definition as_number (v : pyval) : result float :=
  match v with
  | VFloat x => Ok x
  | VBool b => Ok (if b then one else zero)
  | _ => Raise TypeError
  end.





Fixpoint chars (s : string) : list pyval :=
  match s with
  | EmptyString => []
  | String c s' => VStr (String c EmptyString) :: chars s'
  end.

(** The items a [for tag in ...] visits. *)
Definition iterate (v : pyval) : result (list pyval) :=
  match v with
  | VList l => Ok l
  | VStr s => Ok (chars s)
  | VDict d => Ok (map (fun kv => VStr (fst kv)) d)
  | _ => Raise TypeError
  end.



Definition numbers (v : pyval) : result (list float) :=
  l <- iterate v ;; mapM as_number l.

(** The similarity branch of [filter_func]: the record and the query
    reach [_cosine_similarity] as lists, for which [a == 0] is [False],
    so the quotient is always taken. *)
Definition similarity (vector_mem : pyval) (query_vec : list float)
  : result float :=
  a <- numbers vector_mem ;;
  d <- VectorSearch.np_dot a query_vec ;;
  Ok (div d (mul (VectorSearch.np_linalg_norm a)
                 (VectorSearch.np_linalg_norm query_vec))).



(** A result of the scan with the index key it aliases, if any. *)
Definition hit : Type := (option string * pydict)%type.

Definition order_field (order_by : string) : option string :=
  let o := Str.lower order_by in
  if String.eqb order_by "" then None
  else if String.eqb o "importance" then Some "importance"
  else if String.eqb o "created_at" then Some "created_at"
  else if String.eqb o "updated_at" then Some "updated_at"
  else if String.eqb o "similarity_score" then Some "similarity_score"
  else None.

(** [results.sort(key=lambda x: x.get(field, 0), reverse=order_desc)].
    Keys are compared as numbers; a list of fewer than two results is
    left alone without looking at its key. *)
Definition sort_results (field : string) (order_desc : bool)
  (results : list hit) : result (list hit) :=
  match results with
  | [] | [_] => Ok results
  | _ =>
      keyed <- mapM (fun r : hit =>
                       k <- as_number (Dict.get_or field (VFloat zero) (snd r)) ;;
                       Ok (k, r)) results ;;
      let before :=
        if order_desc
        then (fun y x : float * hit => ltb (fst x) (fst y))
        else (fun y x : float * hit => ltb (fst y) (fst x)) in
      Ok (map snd (stable_sort before keyed))
  end.

















End Facade.

(** *** A Python runtime for the examples

    [float(s)] and [int(s)] on plain decimal literals: an optional sign,
    digits, and for a float an optional fraction.  On these (up to 15
    significant digits) the value is the one Python computes; any other
    text is refused here. *)

Module Runtime.







(** [str(x)] is needed only to encrypt a float; no example does. *)
Definition repr_float (x : float) : string := "".

End Runtime.

(** *** Induction over nested values *)

Section PyvalInduction.

Variable P : pyval -> Prop.
Hypothesis HNone : P VNone.
Hypothesis HBool : forall b, P (VBool b).
Hypothesis HFloat : forall x, P (VFloat x).
Hypothesis HStr : forall s, P (VStr s).
Hypothesis HList : forall l, Forall P l -> P (VList l).
Hypothesis HDict : forall d, Forall (fun kv => P (snd kv)) d -> P (VDict d).

Fixpoint pyval_nested_ind (v : pyval) : P v :=
  match v with
  | VNone => HNone
  | VBool b => HBool b
  | VFloat x => HFloat x
  | VStr s => HStr s
  | VList l =>
      HList l
        ((fix items (l : list pyval) : Forall P l :=
            match l with
            | [] => Forall_nil P
            | x :: l' => Forall_cons x (pyval_nested_ind x) (items l')
            end) l)
  | VDict d =>
      HDict d
        ((fix items (d : list (string * pyval))
            : Forall (fun kv => P (snd kv)) d :=
            match d with
            | [] => Forall_nil _
            | kv :: d' =>
                Forall_cons kv (pyval_nested_ind (snd kv)) (items d')
            end) d)
  end.

End PyvalInduction.

(** The strings inside a value, which are what [_decrypt_data] hands to
    [Fernet.decrypt]. *)
Fixpoint leaves (v : pyval) : list string :=
  match v with
  | VStr s => [s]
  | VList l => flat_map leaves l
  | VDict d => flat_map (fun kv => leaves (snd kv)) d
  | _ => []
  end.

(** *** Importance *)

Lemma clamp01_bounds (x : float) :
  leb zero (clamp01 x) = true /\ leb (clamp01 x) one = true.
Proof.
  unfold clamp01, py_min, py_max.
  destruct (ltb x one) eqn:H1.
  - destruct (ltb zero x) eqn:H0.
    + split; apply ltb_leb; assumption.
    + split; reflexivity.
  - change (ltb zero one) with true. cbv iota. split; reflexivity.
Qed.

(** A record built with importance 2.0 and stored, then updated with
    importance 2.0 through the facade. *)
Definition plain : config := mkConfig None None.

Definition env_at (t : Z) (u s : string) : env := mkEnv (of_Z t) u s.

Definition stored_field (field : string) (st : store) (k : string)
  : option pyval :=
  match MemTable.get_memory st k with
  | Some (d, _) => Dict.get field d
  | None => None
  end.

Definition built_with (e : env) (x : float) : result MemoryRecord :=
  build e (set_importance (set_content (MemoryBuilder_init e None) "hello") x).

Definition store_built (e : env) (x : float) : result (string * store) :=
  m <- built_with e x ;;
  add_memory Runtime.repr_float plain e empty_store m false.

Definition e0 : env := env_at 1000 "id-1" "20250101120000".
Definition e1 : env := env_at 1060 "id-2" "20250101120100".

(** The store a run ends in (the empty one when it raised). *)
Definition store_of {A} (r : result (A * store)) : store :=
  match r with
  | Ok (_, st) => st
  | Raise _ => empty_store
  end.

Definition built_low : store :=
  Eval vm_compute in store_of (store_built e0 (of_Z (-1))).

Definition built_high : store :=
  Eval vm_compute in store_of (store_built e0 (of_Z 2)).

Definition importance_2 : pydict := [("importance", VFloat (of_Z 2))].

Definition updated_high : store :=
  Eval vm_compute in
    store_of (update_memory Runtime.repr_float plain e1 built_high "id-1"
                importance_2).

(** C4 (the code departs from it).  The builder clamps: whatever float
    [set_importance] is given, the record's importance lies in [0, 1], and
    -1.0 and 2.0 become 0.0 and 1.0, which is what is then stored.  But
    [update_memory] stores the importance it is given: after updating the
    stored record with importance 2.0 the stored importance is 2.0, above
    1. *)
Theorem importance_clamped_by_builder_not_by_update :
  (forall x : float,
      leb zero (clamp01 x) = true /\ leb (clamp01 x) one = true)
  /\ (forall (b : MemoryBuilder) (x : float),
        importance (record (set_importance b x)) = VFloat (clamp01 x))
  /\ clamp01 (of_Z (-1)) = zero
  /\ clamp01 (of_Z 2) = one
  /\ store_built e0 (of_Z (-1)) = Ok ("id-1", built_low)
  /\ stored_field "importance" built_low "id-1" = Some (VFloat zero)
  /\ store_built e0 (of_Z 2) = Ok ("id-1", built_high)
  /\ stored_field "importance" built_high "id-1" = Some (VFloat one)
  /\ update_memory Runtime.repr_float plain e1 built_high "id-1" importance_2
       = Ok (true, updated_high)
  /\ stored_field "importance" updated_high "id-1" = Some (VFloat (of_Z 2))
  /\ leb (of_Z 2) one = false.
Proof.
  split; [exact clamp01_bounds|].
  split; [reflexivity|].
  repeat split; vm_compute; reflexivity.
Qed.

(** *** Decryption *)

Lemma map_id_on {A} (f : A -> A) (l : list A) :
  Forall (fun x => f x = x) l -> map f l = l.
Proof.
  induction 1 as [|x l Hx _ IH]; simpl; [reflexivity|].
  rewrite Hx, IH. reflexivity.
Qed.

Lemma decrypt_with_unchanged (f : Fernet) (v : pyval) :
  Forall (fun s => decrypt f s = None) (leaves v) -> decrypt_with f v = v.
Proof.
  induction v as [ | b | x | s | l IH | d IH] using pyval_nested_ind;
    simpl; intros H; try reflexivity.
  - inversion H as [|? ? Hs _]; subst. rewrite Hs. reflexivity.
  - f_equal. apply map_id_on.
    induction IH as [|x l Hx _ IHl]; [constructor|].
    simpl in H. apply Forall_app in H. destruct H as [H1 H2].
    constructor; [apply Hx, H1 | apply IHl, H2].
  - f_equal.
    induction IH as [|[k x] d Hx _ IHd]; [reflexivity|].
    simpl in *. apply Forall_app in H. destruct H as [H1 H2].
    rewrite (Hx H1). f_equal. apply IHd, H2.
Qed.

(** C9. [_decrypt_data] returns a value, never an exception; under a key
    with which none of the strings in the value decrypts (a wrong key, a
    corrupted token), the value comes back unchanged, which is also what
    a store with no key returns: the result alone does not tell a key
    mismatch from data that was never encrypted. *)
Theorem decrypt_failure_returns_original (f : Fernet) (v : pyval) :
  Forall (fun s => decrypt f s = None) (leaves v) ->
  _decrypt_data (Some f) v = v
  /\ _decrypt_data (Some f) v = _decrypt_data None v.
Proof.
  intros H. simpl. rewrite (decrypt_with_unchanged f v H). split; reflexivity.
Qed.

(** A key under which nothing decrypts, and an encrypted record's
    fields. *)
Definition wrong_key : Fernet := 
  mkFernet (fun s => ("gAAAAAB" ++ s)%string) (fun _ => None).

Definition ciphertexts : pyval :=
  VDict [("content", VStr "gAAAAABm1");
         ("tags", VList [VStr "gAAAAABm2"; VStr "gAAAAABm3"]);
         ("metadata", VDict [("k", VStr "gAAAAABm4")])].

Lemma decrypt_failure_returns_original_witness :
  _decrypt_data (Some wrong_key) ciphertexts = ciphertexts
  /\ _decrypt_data (Some wrong_key) ciphertexts = _decrypt_data None ciphertexts.
Proof.
  apply (decrypt_failure_returns_original wrong_key ciphertexts).
  repeat constructor.
Defined.

(** *** The scan *)

(** What the scan yields for one index entry under a predicate [p] that
    neither raises nor changes the record. *)
Definition scan_hit (st : store) (p : pydict -> bool) (kd : string * pydict)
  : list (option string * pydict) :=
  let '(m, aliased) := MemTable.scanned st (fst kd) (snd kd) in
  if p m then [(if aliased then Some (fst kd) else None, m)] else [].

Definition pure_predicate (p : pydict -> bool) (m : pydict)
  : result (bool * pydict) :=
  Ok (p m, m).

Lemma dict_set_same {V} (k : string) (v : V) (d : Dict.t V) :
  NoDup (Dict.keys d) -> In (k, v) d -> Dict.set k v d = d.
Proof.
  induction d as [|[k' v'] d IH]; simpl; intros Hnd Hin; [contradiction|].
  inversion Hnd as [|? ? Hnotin Hnd']; subst.
  destruct (String.eqb k' k) eqn:E.
  - apply String.eqb_eq in E. subst k'.
    destruct Hin as [Heq|Hin]; [congruence|].
    exfalso. apply Hnotin. unfold Dict.keys.
    change k with (fst (k, v)). apply in_map, Hin.
  - destruct Hin as [Heq|Hin].
    + inversion Heq; subst. rewrite String.eqb_refl in E. discriminate.
    + rewrite (IH Hnd' Hin). reflexivity.
Qed.

Lemma query_from_pure (st : store) (p : pydict -> bool)
  (todo : Dict.t pydict) :
  NoDup (Dict.keys (memories st)) ->
  incl todo (memories st) ->
  MemTable.query_from todo st (pure_predicate p)
    = Ok (flat_map (scan_hit st p) todo, st).
Proof.
  intros Hnd. induction todo as [|[k d] todo IH]; intros Hincl;
    [reflexivity|].
  assert (Hin : In (k, d) (memories st)) by (apply Hincl; left; reflexivity).
  assert (Hrest : incl todo (memories st))
    by (intros x Hx; apply Hincl; right; exact Hx).
  simpl. unfold scan_hit at 1. simpl.
  destruct (MemTable.scanned st k d) as [m aliased] eqn:Hs.
  change (pure_predicate p m) with (Ok (p m, m)). simpl.
  assert (Hst : (if aliased
                 then with_memories st (Dict.set k m (memories st))
                 else st) = st).
  { destruct aliased; [|reflexivity].
    assert (m = d).
    { unfold MemTable.scanned in Hs.
      destruct (Dict.get k (mem_files st)) as [[d'|]|]; congruence. }
    subst m. rewrite (dict_set_same k d (memories st) Hnd Hin).
    destruct st; reflexivity. }
  rewrite Hst, (IH Hrest). simpl.
  destruct (p m); reflexivity.
Qed.

(** C6, as the code has it.  With a predicate that raises nothing, the
    scan visits every index entry in index order and never aborts; it
    applies the predicate to the record read from the per-record unit
    when that unit exists and loads, and to the index's own copy when the
    unit is missing or does not load.  So a record whose unit is corrupt
    is not skipped: it is returned from the index whenever its index copy
    satisfies the predicate. *)
Theorem scan_falls_back_to_index (st : store) (p : pydict -> bool) :
  NoDup (Dict.keys (memories st)) ->
  MemTable.query st (pure_predicate p)
    = Ok (flat_map (scan_hit st p) (memories st), st)
  /\ (forall k d,
        In (k, d) (memories st) ->
        Dict.get k (mem_files st) = None
          \/ Dict.get k (mem_files st) = Some Unreadable ->
        p d = true ->
        In (Some k, d) (flat_map (scan_hit st p) (memories st)))
  /\ (forall k d d',
        In (k, d) (memories st) ->
        Dict.get k (mem_files st) = Some (Pickled d') ->
        p d' = true ->
        In (None, d') (flat_map (scan_hit st p) (memories st))).
Proof.
  intros Hnd. split.
  - apply query_from_pure; [assumption | apply incl_refl].
  - split.
    + intros k d Hin Hfile Hp. apply in_flat_map. exists (k, d).
      split; [assumption|]. unfold scan_hit, MemTable.scanned. simpl.
      destruct Hfile as [Hf|Hf]; rewrite Hf, Hp; left; reflexivity.
    + intros k d d' Hin Hfile Hp. apply in_flat_map. exists (k, d).
      split; [assumption|]. unfold scan_hit, MemTable.scanned. simpl.
      rewrite Hfile, Hp. left; reflexivity.
Qed.

(** A store with two records: the unit of [m1] is corrupt, the unit of
    [m2] loads and is newer than the index's copy. *)
Definition note (k c : string) : pydict :=
  [("id", VStr k); ("content", VStr c); ("importance", VFloat half)].

Definition corrupt_store : store :=
  mkStore [("m1", note "m1" "indexed 1"); ("m2", note "m2" "indexed 2")]
          [("m1", Unreadable); ("m2", Pickled (note "m2" "on disk 2"))]
          [] [].

Definition keep_all (m : pydict) : bool := true.

Lemma scan_falls_back_to_index_witness :
  MemTable.query corrupt_store (pure_predicate keep_all)
    = Ok (flat_map (scan_hit corrupt_store keep_all) (memories corrupt_store),
          corrupt_store)
  /\ (forall k d,
        In (k, d) (memories corrupt_store) ->
        Dict.get k (mem_files corrupt_store) = None
          \/ Dict.get k (mem_files corrupt_store) = Some Unreadable ->
        keep_all d = true ->
        In (Some k, d)
           (flat_map (scan_hit corrupt_store keep_all) (memories corrupt_store)))
  /\ (forall k d d',
        In (k, d) (memories corrupt_store) ->
        Dict.get k (mem_files corrupt_store) = Some (Pickled d') ->
        keep_all d' = true ->
        In (None, d')
           (flat_map (scan_hit corrupt_store keep_all) (memories corrupt_store))).
Proof.
  apply (scan_falls_back_to_index corrupt_store keep_all).
  repeat constructor; simpl; intuition discriminate.
Defined.

(** C6 as stated fails here: the unit of [m1] is corrupt, yet the scan
    returns [m1], and what it returns for it is the index's copy. *)
Lemma scan_returns_index_copy_of_corrupt_unit :
  Dict.get "m1" (mem_files corrupt_store) = Some Unreadable
  /\ MemTable.query corrupt_store (pure_predicate keep_all)
       = Ok ([(Some "m1", note "m1" "indexed 1");
              (None, note "m2" "on disk 2")], corrupt_store).
Proof. split; reflexivity. Qed.

(** *** Updates *)

Lemma has_set_other {V} (k k0 : string) (v : V) (d : Dict.t V) :
  k0 <> k -> Dict.has k0 (Dict.set k v d) = Dict.has k0 d.
Proof.
  intros H. unfold Dict.has. rewrite (Dict.get_set_other k k0 v d H).
  reflexivity.
Qed.

Lemma has_set_same {V} (k : string) (v : V) (d : Dict.t V) :
  Dict.has k (Dict.set k v d) = true.
Proof. unfold Dict.has. rewrite Dict.get_set_same. reflexivity. Qed.


Lemma apply_fields_has (fields m : pydict) (k : string) :
  Dict.has k (MemTable.apply_fields fields m) = Dict.has k m.
Proof.
  unfold MemTable.apply_fields. revert m.
  induction fields as [|[k' v] fields IH]; intros m; simpl; [reflexivity|].
  rewrite IH.
  destruct (Dict.has k' m) eqn:Hk'; simpl; [|reflexivity].
  destruct (String.eqb k' "id"); simpl; [reflexivity|].
  destruct (String.eqb k k') eqn:E.
  - apply String.eqb_eq in E. subst k'. rewrite has_set_same. auto.
  - apply has_set_other. apply String.eqb_neq in E. exact E.
Qed.



(** What a successful [MemTable.update_memory] leaves in the store. *)
Lemma table_update_success (e : env) (st st' : store) (k : string)
  (fields : pydict) :
  MemTable.update_memory e st k fields = (true, st') ->
  exists d a,
    MemTable.get_memory st k = Some (d, a)
    /\ MemTable.get_memory st' k
         = Some (Dict.set "updated_at" (VFloat (now e))
                   (MemTable.apply_fields fields d), false)
    /\ history_files st' = history_files st
    /\ vectors st' = vectors st.
Proof.
  unfold MemTable.update_memory.
  destruct (MemTable.get_memory st k) as [[d a]|] eqn:Hg; [|discriminate].
  destruct (nonempty d); simpl; [|discriminate].
  intros H. inversion H; subst st'; clear H.
  exists d, a. split; [reflexivity|].
  split; [|split; reflexivity].
  unfold MemTable.get_memory in *. simpl.
  rewrite !Dict.get_set_same. reflexivity.
Qed.









Lemma add_history_keeps_table (e : env) (st st' : store) (m : MemoryRecord)
  (a : string) :
  MemHistory.add_history e st m a = Ok st' ->
  memories st' = memories st /\ mem_files st' = mem_files st
  /\ vectors st' = vectors st.
Proof.
  unfold MemHistory.add_history. destruct (id_key (id m)); simpl;
    [|discriminate].
  intros H. inversion H; subst. repeat split.
Qed.


Lemma encrypt_fields_created_at (repr : float -> string)
  (key : option Fernet) (m : MemoryRecord) :
  created_at (encrypt_fields repr key m) = created_at m.
Proof. reflexivity. Qed.






(** A stored record, created at clock reading 1000, and the store after
    its importance is updated at reading 1060. *)
Definition stored_once : store :=
  Eval vm_compute in store_of (store_built e0 half).







(** *** History: facts about file names *)





















(** *** History: counting and ordering entries *)






Lemma dict_set_fresh {V} (k : string) (v : V) (d : Dict.t V) :
  Dict.get k d = None -> Dict.set k v d = d ++ [(k, v)].
Proof.
  induction d as [|[k' v'] d IH]; simpl; intros H; [reflexivity|].
  destruct (String.eqb k' k); [discriminate|]. rewrite (IH H). reflexivity.
Qed.

Lemma dict_set_split {V} (k : string) (v v0 : V) (d : Dict.t V) :
  Dict.get k d = Some v0 ->
  exists l1 l2, d = l1 ++ (k, v0) :: l2 /\ Dict.set k v d = l1 ++ (k, v) :: l2.
Proof.
  induction d as [|[k' v'] d IH]; simpl; intros H; [discriminate|].
  destruct (String.eqb k' k) eqn:E.
  - apply String.eqb_eq in E. subst k'. inversion H; subst v'.
    exists [], d. auto.
  - destruct (IH H) as (l1 & l2 & -> & ->).
    exists ((k', v') :: l1), l2. auto.
Qed.










Section OneHistoryFile.

Variables (e : env) (st st' : store) (m : MemoryRecord) (a k : string).
Hypothesis Hkey : id_key (id m) = Ok k.
Hypothesis Hadd : MemHistory.add_history e st m a = Ok st'.





End OneHistoryFile.

(** *** History: what the facade files *)

Lemma id_key_str (v : pyval) (k : string) : id_key v = Ok k -> v = VStr k.
Proof. destruct v; simpl; intros H; inversion H; reflexivity. Qed.

Lemma add_vector_keeps (st : store) (k : string) (v : pyval) (m : pydict) :
  memories (add_vector st k v m) = memories st
  /\ mem_files (add_vector st k v m) = mem_files st
  /\ history_files (add_vector st k v m) = history_files st.
Proof. unfold add_vector. destruct (Dict.has k (vectors st)); repeat split. Qed.






(** The record stored at 12:00:00, as read back at 12:01:00, and the
    store after that reading files an [update] entry for it. *)
Definition read_back : MemoryRecord :=
  Eval vm_compute in
    match get_memory plain e1 stored_once "id-1" with
    | Ok (Some m, _) => m
    | _ => MemoryRecord_default e1
    end.









(** *** MemQL: what a SELECT leaves in the store *)










Lemma mapM_keyed {A K} (key : A -> result K) (l : list A) (keyed : list (K * A)) :
  mapM (fun r => k <- key r ;; Ok (k, r)) l = Ok keyed ->
  map snd keyed = l.
Proof.
  revert keyed. induction l as [|x l IH]; intros keyed H; simpl in H.
  - inversion H; reflexivity.
  - destruct (key x); simpl in H; [|discriminate].
    destruct (mapM _ l) as [ks|]; simpl in H; [|discriminate].
    inversion H; subst. simpl. rewrite (IH ks eq_refl). reflexivity.
Qed.

Lemma sort_results_perm (field : string) (desc : bool)
  (results sorted : list (option string * pydict)) :
  sort_results field desc results = Ok sorted ->
  Permutation sorted results.
Proof.
  unfold sort_results.
  destruct results as [|x [|y rest]]; intros H;
    try (inversion H; apply Permutation_refl).
  match type of H with
  | bind ?c _ = _ => destruct c as [keyed|] eqn:Hk; simpl in H; [|discriminate]
  end.
  inversion H; subst sorted.
  rewrite <- (mapM_keyed _ _ _ Hk).
  apply Permutation_map, stable_sort_perm.
Qed.

Section SelectFacts.

Variable py_float : string -> option float.
Variable py_int : string -> option Z.
Variable cfg : config.



End SelectFacts.

(** *** MemQL: what a mutation leaves alone *)

















(** *** MemQL: the default limit on a mutation *)












(** *** MemQL: a clause that names no field *)












End Memcore.

(* ================================================================= *)
(** ** Bytes ([bytes] objects and slices of them) *)

Module Bytes.

Definition bytes : Type := list Byte.byte.

Definition to_Z (b : Byte.byte) : Z := Z.of_N (Byte.to_N b).

(** The byte of value [z mod 256]. *)
Definition of_Z (z : Z) : Byte.byte :=
  match Byte.of_N (Z.to_N (z mod 256)) with
  | Some b => b
  | None => Byte.x00
  end.

Lemma to_Z_range (b : Byte.byte) : 0 <= to_Z b < 256.
Proof.
  unfold to_Z. pose proof (Byte.to_N_bounded b). lia.
Qed.

Lemma of_to_Z (b : Byte.byte) : of_Z (to_Z b) = b.
Proof.
  unfold of_Z. pose proof (to_Z_range b) as H.
  rewrite Z.mod_small by exact H. unfold to_Z.
  rewrite N2Z.id, Byte.of_to_N. reflexivity.
Qed.

Lemma to_of_Z (z : Z) : to_Z (of_Z z) = z mod 256.
Proof.
  unfold of_Z, to_Z.
  pose proof (Z.mod_pos_bound z 256 eq_refl) as H.
  destruct (Byte.of_N (Z.to_N (z mod 256))) as [b|] eqn:E.
  - apply Byte.to_of_N in E. rewrite E. lia.
  - apply Byte.of_N_None_iff in E. lia.
Qed.

Lemma to_of_Z_small (z : Z) : 0 <= z < 256 -> to_Z (of_Z z) = z.
Proof. intros H. rewrite to_of_Z. apply Z.mod_small, H. Qed.

Lemma map_of_to_Z (bs : bytes) : map of_Z (map to_Z bs) = bs.
Proof.
  induction bs as [|b bs IH]; simpl; [reflexivity|].
  rewrite of_to_Z, IH. reflexivity.
Qed.

Lemma map_to_of_Z (zs : list Z) :
  Forall (fun z => 0 <= z < 256) zs -> map to_Z (map of_Z zs) = zs.
Proof.
  induction 1 as [|z zs Hz _ IH]; simpl; [reflexivity|].
  rewrite (to_of_Z_small z Hz), IH. reflexivity.
Qed.

Definition len (data : bytes) : Z := Z.of_nat (length data).

(** [data[lo:hi]] for [0 <= lo]: both ends are cut back to the length. *)
Definition slice (data : bytes) (lo hi : Z) : bytes :=
  let lo' := Z.min lo (len data) in
  let hi' := Z.min hi (len data) in
  firstn (Z.to_nat (hi' - lo')) (skipn (Z.to_nat lo') data).

(** [n] as [k] bytes, least significant first. *)
Fixpoint le_encode (k : nat) (n : Z) : bytes :=
  match k with
  | O => []
  | S k' => of_Z n :: le_encode k' (n / 256)
  end.

Fixpoint le_decode (bs : bytes) : Z :=
  match bs with
  | [] => 0
  | b :: bs' => to_Z b + 256 * le_decode bs'
  end.

Lemma le_encode_length (k : nat) (n : Z) : length (le_encode k n) = k.
Proof.
  revert n. induction k as [|k IH]; intros n; simpl; [reflexivity|].
  rewrite IH. reflexivity.
Qed.

Lemma le_decode_encode (k : nat) (n : Z) :
  le_decode (le_encode k n) = n mod 256 ^ Z.of_nat k.
Proof.
  revert n. induction k as [|k IH]; intros n.
  - simpl. rewrite Z.mod_1_r. reflexivity.
  - cbn [le_encode le_decode]. rewrite IH, to_of_Z.
    rewrite Nat2Z.inj_succ, Z.pow_succ_r by lia.
    rewrite Z.rem_mul_r by lia. reflexivity.
Qed.

Lemma le_decode_range (bs : bytes) :
  0 <= le_decode bs < 256 ^ Z.of_nat (length bs).
Proof.
  induction bs as [|b bs IH].
  - simpl. lia.
  - cbn [le_decode length]. rewrite Nat2Z.inj_succ, Z.pow_succ_r by lia.
    pose proof (to_Z_range b). lia.
Qed.

Lemma slice_app_exact (a b c : bytes) :
  slice (a ++ b ++ c) (len a) (len a + len b) = b.
Proof.
  unfold slice, len. rewrite !length_app.
  rewrite Z.min_l by lia. rewrite Z.min_l by lia.
  rewrite Nat2Z.id, skipn_app, skipn_all, Nat.sub_diag. simpl.
  replace (Z.to_nat (Z.of_nat (length a) + Z.of_nat (length b)
                     - Z.of_nat (length a))) with (length b) by lia.
  rewrite firstn_app, firstn_all, Nat.sub_diag. simpl.
  apply app_nil_r.
Qed.

End Bytes.

(* ================================================================= *)
(** ** UTF-8 ([str.encode('utf-8')], [bytes.decode('utf-8')]) *)

Module Utf8.

#[local] Ltac Zify.zify_post_hook ::= Z.div_mod_to_equations.

(** A Python string: its code points. *)
Definition str : Type := list Z.

(** Code points that encode: all but the surrogates. *)
Definition is_scalar (c : Z) : bool :=
  ((0 <=? c) && (c <? 0xD800)) || ((0xE000 <=? c) && (c <=? 0x10FFFF)).

Definition enc_cp (c : Z) : list Z :=
  if c <? 0x80 then [c]
  else if c <? 0x800 then [0xC0 + c / 64; 0x80 + c mod 64]
  else if c <? 0x10000 then
    [0xE0 + c / 4096; 0x80 + (c / 64) mod 64; 0x80 + c mod 64]
  else
    [0xF0 + c / 262144; 0x80 + (c / 4096) mod 64; 0x80 + (c / 64) mod 64;
     0x80 + c mod 64].

(** A continuation byte. *)
Definition cont (b : Z) : bool := (0x80 <=? b) && (b <? 0xC0).

(** The strict decoder: no overlong form, no surrogate, nothing above
    U+10FFFF, no sequence cut short. *)
Fixpoint dec (bs : list Z) : option (list Z) :=
  match bs with
  | [] => Some []
  | b0 :: r0 =>
      if b0 <? 0x80 then option_map (cons b0) (dec r0)
      else if b0 <? 0xC2 then None
      else if b0 <? 0xE0 then
        match r0 with
        | b1 :: r1 =>
            if cont b1
            then option_map (cons ((b0 - 0xC0) * 64 + (b1 - 0x80))) (dec r1)
            else None
        | _ => None
        end
      else if b0 <? 0xF0 then
        match r0 with
        | b1 :: b2 :: r2 =>
            let c := (b0 - 0xE0) * 4096 + (b1 - 0x80) * 64 + (b2 - 0x80) in
            if cont b1 && cont b2 && (0x800 <=? c) && is_scalar c
            then option_map (cons c) (dec r2)
            else None
        | _ => None
        end
      else if b0 <? 0xF5 then
        match r0 with
        | b1 :: b2 :: b3 :: r3 =>
            let c := (b0 - 0xF0) * 262144 + (b1 - 0x80) * 4096
                     + (b2 - 0x80) * 64 + (b3 - 0x80) in
            if cont b1 && cont b2 && cont b3 && (0x10000 <=? c)
               && (c <=? 0x10FFFF)
            then option_map (cons c) (dec r3)
            else None
        | _ => None
        end
      else None
  end.

Definition encode (s : str) : result Bytes.bytes :=
  if forallb is_scalar s
  then Ok (map Bytes.of_Z (flat_map enc_cp s))
  else Raise UnicodeEncodeError.

Definition decode (bs : Bytes.bytes) : result str :=
  match dec (map Bytes.to_Z bs) with
  | Some s => Ok s
  | None => Raise UnicodeDecodeError
  end.

(** A string of ASCII characters as code points. *)
Fixpoint of_string (s : string) : str :=
  match s with
  | EmptyString => []
  | String c s' => Z.of_nat (nat_of_ascii c) :: of_string s'
  end.

Ltac decide_tests :=
  repeat match goal with
  | |- context [?a <? ?b] => destruct (Z.ltb_spec a b); try lia
  | |- context [?a <=? ?b] => destruct (Z.leb_spec a b); try lia
  end.

Lemma scalar_range (c : Z) :
  is_scalar c = true -> 0 <= c < 0xD800 \/ 0xE000 <= c <= 0x10FFFF.
Proof. unfold is_scalar. lia. Qed.

Lemma dec_enc_cp (c : Z) (rest : list Z) :
  is_scalar c = true ->
  dec (enc_cp c ++ rest) = option_map (cons c) (dec rest).
Proof.
  intros H. apply scalar_range in H. unfold enc_cp.
  destruct (Z.ltb_spec c 0x80).
  { cbn [app dec]. destruct (Z.ltb_spec c 128); [reflexivity | lia]. }
  destruct (Z.ltb_spec c 0x800).
  { cbn [app dec]. unfold cont.
    replace ((192 + c / 64 - 192) * 64 + (128 + c mod 64 - 128)) with c by lia.
    decide_tests; cbn [andb orb]; reflexivity. }
  destruct (Z.ltb_spec c 0x10000).
  { cbn [app dec]. unfold cont, is_scalar.
    replace ((224 + c / 4096 - 224) * 4096 + (128 + (c / 64) mod 64 - 128) * 64
             + (128 + c mod 64 - 128)) with c by lia.
    decide_tests; cbn [andb orb]; try reflexivity; lia. }
  cbn [app dec]. unfold cont.
  replace ((240 + c / 262144 - 240) * 262144
           + (128 + (c / 4096) mod 64 - 128) * 4096
           + (128 + (c / 64) mod 64 - 128) * 64 + (128 + c mod 64 - 128))
    with c by lia.
  decide_tests; cbn [andb orb]; try reflexivity; lia.
Qed.

Lemma enc_cp_bytes (c : Z) :
  is_scalar c = true -> Forall (fun z => 0 <= z < 256) (enc_cp c).
Proof.
  intros H. apply scalar_range in H. unfold enc_cp.
  decide_tests; repeat constructor; lia.
Qed.

Lemma dec_enc (s : str) :
  forallb is_scalar s = true -> dec (flat_map enc_cp s) = Some s.
Proof.
  induction s as [|c s IH]; simpl; intros H; [reflexivity|].
  apply andb_true_iff in H. destruct H as [Hc Hs].
  rewrite (dec_enc_cp c _ Hc), (IH Hs). reflexivity.
Qed.

Lemma enc_bytes (s : str) :
  forallb is_scalar s = true ->
  Forall (fun z => 0 <= z < 256) (flat_map enc_cp s).
Proof.
  induction s as [|c s IH]; simpl; intros H; [constructor|].
  apply andb_true_iff in H. destruct H as [Hc Hs].
  apply Forall_app. split; [apply enc_cp_bytes, Hc | apply IH, Hs].
Qed.

(** Decoding what was encoded gives the string back. *)
Lemma decode_encode (s : str) (bs : Bytes.bytes) :
  encode s = Ok bs -> decode bs = Ok s.
Proof.
  unfold encode, decode.
  destruct (forallb is_scalar s) eqn:H; [|discriminate].
  intros E. inversion E; subst bs.
  rewrite (Bytes.map_to_of_Z _ (enc_bytes s H)), (dec_enc s H). reflexivity.
Qed.

End Utf8.

(* ================================================================= *)
(** ** IEEE 754 bit patterns ([struct]'s [f] and [d] formats) *)

Module IEEE.

#[local] Ltac Zify.zify_post_hook ::= Z.div_mod_to_equations.

Section Format.

(** [mw] fraction bits and [ew] exponent bits. *)
Variables (mw ew : Z).

Let fmt_emin : Z := 3 - 2 ^ (ew - 1) - (mw + 1).

Definition sign_bit (s : bool) : Z := if s then 2 ^ (mw + ew) else 0.

Definition bits_of (x : spec_float) : Z :=
  match x with
  | S754_zero s => sign_bit s
  | S754_infinity s => sign_bit s + (2 ^ ew - 1) * 2 ^ mw
  | S754_nan => (2 ^ ew - 1) * 2 ^ mw + 2 ^ (mw - 1)
  | S754_finite s m e =>
      if 2 ^ mw <=? Zpos m
      then sign_bit s + (e - fmt_emin + 1) * 2 ^ mw + (Zpos m - 2 ^ mw)
      else sign_bit s + Zpos m
  end.

Definition of_bits (b : Z) : spec_float :=
  let s := negb (b / 2 ^ (mw + ew) =? 0) in
  let E := (b / 2 ^ mw) mod 2 ^ ew in
  let frac := b mod 2 ^ mw in
  if E =? 0 then
    match frac with
    | Zpos m => S754_finite s m fmt_emin
    | _ => S754_zero s
    end
  else if E =? 2 ^ ew - 1 then
    if frac =? 0 then S754_infinity s else S754_nan
  else
    match frac + 2 ^ mw with
    | Zpos m => S754_finite s m (E - 1 + fmt_emin)
    | _ => S754_nan
    end.

End Format.

Definition bits64 : spec_float -> Z := bits_of 52 11.
Definition of_bits64 : Z -> spec_float := of_bits 52 11.
Definition bits32 : spec_float -> Z := bits_of 23 8.
Definition of_bits32 : Z -> spec_float := of_bits 23 8.

(** A Python float is a binary64 value. *)
Definition valid64 (x : spec_float) : bool := valid_binary 53 1024 x.

(** [(float)x] in C: the binary32 value nearest to a double. *)
Definition round32 (x : spec_float) : spec_float :=
  match x with
  | S754_finite s m e => binary_round 24 128 s m e
  | _ => x
  end.

(** A binary32 value as the double of the same value. *)
Definition widen (y : spec_float) : spec_float :=
  match y with
  | S754_finite s m e => binary_round 53 1024 s m e
  | _ => y
  end.

(** The packing overflows when a finite double rounds to an infinity. *)
Definition overflows32 (x : spec_float) : bool :=
  match x, round32 x with
  | S754_finite _ _ _, S754_infinity _ => true
  | _, _ => false
  end.

(** What a double comes back as through four bytes. *)
Definition through32 (x : spec_float) : spec_float :=
  widen (of_bits32 (bits32 (round32 x) mod 2 ^ 32)).

Lemma digits2_pos_bounds (m : positive) :
  2 ^ (Zpos (digits2_pos m) - 1) <= Zpos m < 2 ^ Zpos (digits2_pos m).
Proof.
  induction m as [m IH|m IH|]; cbn [digits2_pos].
  - rewrite Pos2Z.inj_succ.
    replace (Z.succ (Zpos (digits2_pos m)) - 1)
      with (Z.succ (Zpos (digits2_pos m) - 1)) by lia.
    rewrite !Z.pow_succ_r by lia. lia.
  - rewrite Pos2Z.inj_succ.
    replace (Z.succ (Zpos (digits2_pos m)) - 1)
      with (Z.succ (Zpos (digits2_pos m) - 1)) by lia.
    rewrite !Z.pow_succ_r by lia. lia.
  - simpl. lia.
Qed.

(** A valid finite double is normal, with 53 digits, or subnormal, with
    fewer and the least exponent. *)
Lemma valid64_finite (s : bool) (m : positive) (e : Z) :
  valid64 (S754_finite s m e) = true ->
  (4503599627370496 <= Zpos m < 9007199254740992 /\ -1074 <= e <= 971)
  \/ (Zpos m < 4503599627370496 /\ e = -1074).
Proof.
  unfold valid64, valid_binary, bounded, canonical_mantissa, fexp, emin.
  intros Hv. apply andb_true_iff in Hv. destruct Hv as [Hc He].
  apply Z.eqb_eq in Hc. apply Z.leb_le in He.
  pose proof (digits2_pos_bounds m) as Hd.
  set (d := Zpos (digits2_pos m)) in *.
  assert (Hd53 : d = 53 \/ (d < 53 /\ e = -1074)) by lia.
  destruct Hd53 as [E|[Hlt E]].
  - rewrite E in Hd.
    change (2 ^ (53 - 1)) with 4503599627370496 in Hd.
    change (2 ^ 53) with 9007199254740992 in Hd. left. lia.
  - right. split; [|exact E].
    assert (2 ^ d <= 2 ^ 52) by (apply Z.pow_le_mono_r; lia).
    change (2 ^ 52) with 4503599627370496 in *. lia.
Qed.

Lemma bits64_range (x : spec_float) :
  valid64 x = true -> 0 <= bits64 x < 2 ^ 64.
Proof.
  destruct x as [s|s| |s m e]; intros Hv.
  - destruct s; cbv; intuition discriminate.
  - destruct s; cbv; intuition discriminate.
  - cbv; intuition discriminate.
  - apply valid64_finite in Hv.
    unfold bits64, bits_of, sign_bit.
    change (2 ^ 52) with 4503599627370496.
    change (2 ^ (52 + 11)) with 9223372036854775808.
    change (2 ^ 64) with 18446744073709551616.
    change (3 - 2 ^ (11 - 1) - (52 + 1)) with (-1074).
    destruct (Z.leb_spec 4503599627370496 (Zpos m)); destruct s; lia.
Qed.

Lemma of_bits64_bits64 (x : spec_float) :
  valid64 x = true -> of_bits64 (bits64 x) = x.
Proof.
  destruct x as [s|s| |s m e]; intros Hv.
  - destruct s; reflexivity.
  - destruct s; reflexivity.
  - reflexivity.
  - apply valid64_finite in Hv.
    unfold bits64, of_bits64, bits_of, of_bits, sign_bit.
    change (2 ^ 52) with 4503599627370496.
    change (2 ^ (52 + 11)) with 9223372036854775808.
    change (2 ^ 11) with 2048.
    change (3 - 2 ^ (11 - 1) - (52 + 1)) with (-1074).
    destruct (Z.leb_spec 4503599627370496 (Zpos m)) as [Hn|Hn].
    + assert (He : -1074 <= e <= 971) by lia.
      assert (Hm : Zpos m < 9007199254740992) by lia.
      set (b := (if s then 9223372036854775808 else 0)
                + (e - -1074 + 1) * 4503599627370496
                + (Zpos m - 4503599627370496)).
      assert (Hs : b / 9223372036854775808 = if s then 1 else 0)
        by (unfold b; destruct s; lia).
      assert (HE : (b / 4503599627370496) mod 2048 = e + 1075)
        by (unfold b; destruct s; lia).
      assert (Hf : b mod 4503599627370496 = Zpos m - 4503599627370496)
        by (unfold b; destruct s; lia).
      rewrite Hs, HE, Hf.
      destruct (Z.eqb_spec (e + 1075) 0); [lia|].
      destruct (Z.eqb_spec (e + 1075) (2048 - 1)); [lia|].
      replace (Zpos m - 4503599627370496 + 4503599627370496)
        with (Zpos m) by lia.
      replace (e + 1075 - 1 + -1074) with e by lia.
      destruct s; reflexivity.
    + assert (e = -1074) by lia. subst e.
      set (b := (if s then 9223372036854775808 else 0) + Zpos m).
      assert (Hs : b / 9223372036854775808 = if s then 1 else 0)
        by (unfold b; destruct s; lia).
      assert (HE : (b / 4503599627370496) mod 2048 = 0)
        by (unfold b; destruct s; lia).
      assert (Hf : b mod 4503599627370496 = Zpos m)
        by (unfold b; destruct s; lia).
      rewrite Hs, HE, Hf. simpl. destruct s; reflexivity.
Qed.

End IEEE.

(* ================================================================= *)
(** ** [struct] *)

Module Struct.

Import Bytes.

(** The count that stands for [None]. *)
Definition sentinel : Z := 0xFFFFFFFF.

(** [struct.pack('<I', n)] *)
Definition pack_I (n : Z) : result bytes :=
  if (0 <=? n) && (n <=? 0xFFFFFFFF) then Ok (le_encode 4 n)
  else Raise StructError.

(** The [k] bytes [struct.unpack_from] reads at [offset]: the buffer has
    to hold all of them. *)
Definition read (k : Z) (data : bytes) (offset : Z) : result bytes :=
  if offset + k <=? len data then Ok (slice data offset (offset + k))
  else Raise StructError.

Definition unpack_I (data : bytes) (offset : Z) : result Z :=
  bs <- read 4 data offset ;; Ok (le_decode bs).

(** [struct.pack('<f', x)] *)
Definition pack_f (x : spec_float) : result bytes :=
  if IEEE.overflows32 x then Raise OverflowError
  else Ok (le_encode 4 (IEEE.bits32 (IEEE.round32 x))).

Definition unpack_f (data : bytes) (offset : Z) : result spec_float :=
  bs <- read 4 data offset ;;
  Ok (IEEE.widen (IEEE.of_bits32 (le_decode bs))).

(** [struct.pack('<d', x)] *)
Definition pack_d (x : spec_float) : bytes := le_encode 8 (IEEE.bits64 x).

Definition unpack_d (data : bytes) (offset : Z) : result spec_float :=
  bs <- read 8 data offset ;; Ok (IEEE.of_bits64 (le_decode bs)).

(** [struct.pack('<?', b)] *)
Definition pack_bool (b : bool) : bytes := [of_Z (if b then 1 else 0)].

Definition unpack_bool (data : bytes) (offset : Z) : result bool :=
  bs <- read 1 data offset ;; Ok (negb (le_decode bs =? 0)).

End Struct.

(* ================================================================= *)
(** ** [zlib] at level 0

    The zlib container (RFC 1950) around stored deflate blocks
    (RFC 1951, block type 0): what [zlib.compress(data, 0)] writes, and the
    part of [zlib.decompress] that reads it.  The codec's theorems take the
    compressor as a parameter; this one serves the worked examples. *)

Module Zlib.

Import Bytes.

(** [zlib.adler32] *)
Definition adler32 (data : bytes) : Z :=
  let step (ab : Z * Z) (x : Byte.byte) :=
    let a := (fst ab + to_Z x) mod 65521 in
    (a, (snd ab + a) mod 65521) in
  let ab := fold_left step data (1, 0) in
  snd ab * 65536 + fst ab.

(** [n] as [k] bytes, most significant first. *)
Definition be_encode (k : nat) (n : Z) : bytes := rev (le_encode k n).

Definition be_decode (bs : bytes) : Z := le_decode (rev bs).

Definition block_max : Z := 65535.

(** One stored block: the final-block bit, the length, its complement,
    the bytes. *)
Definition stored_block (final : bool) (chunk : bytes) : bytes :=
  of_Z (if final then 1 else 0)
  :: le_encode 2 (len chunk)
  ++ le_encode 2 (0xFFFF - len chunk)
  ++ chunk.

Fixpoint stored_blocks (fuel : nat) (data : bytes) : bytes :=
  match fuel with
  | O => stored_block true data
  | S fuel' =>
      if len data <=? block_max then stored_block true data
      else stored_block false (firstn (Z.to_nat block_max) data)
           ++ stored_blocks fuel' (skipn (Z.to_nat block_max) data)
  end.

Definition compress (data : bytes) : bytes :=
  [of_Z 0x78; of_Z 0x01]
  ++ stored_blocks (length data) data
  ++ be_encode 4 (adler32 data).

(** The blocks of a stream, up to the final one; what follows them. *)
Fixpoint inflate_stored (fuel : nat) (data : bytes) (out : bytes)
  : result (bytes * bytes) :=
  match fuel with
  | O => Raise ZlibError
  | S fuel' =>
      match data with
      | h :: rest =>
          let final := Z.odd (to_Z h) in
          let btype := (to_Z h / 2) mod 4 in
          if negb (btype =? 0) then Raise ZlibError
          else
            let n := le_decode (firstn 2 rest) in
            let c := le_decode (firstn 2 (skipn 2 rest)) in
            let body := skipn 4 rest in
            if (length rest <? 4)%nat then Raise ZlibError
            else if negb (n + c =? 0xFFFF) then Raise ZlibError
            else if len body <? n then Raise ZlibError
            else
              let out' := out ++ firstn (Z.to_nat n) body in
              let rest' := skipn (Z.to_nat n) body in
              if final then Ok (out', rest')
              else inflate_stored fuel' rest' out'
      | [] => Raise ZlibError
      end
  end.

(** [zlib.decompress]: header check, blocks, checksum; bytes after the
    checksum are ignored. *)
Definition decompress (data : bytes) : result bytes :=
  match data with
  | cmf :: flg :: rest =>
      let cmf := to_Z cmf in
      let flg := to_Z flg in
      if negb ((cmf mod 16 =? 8) && (cmf / 16 <=? 7)
               && ((cmf * 256 + flg) mod 31 =? 0)
               && ((flg / 32) mod 2 =? 0))
      then Raise ZlibError
      else
        '(out, tail) <- inflate_stored (length rest) rest [] ;;
        if (length tail <? 4)%nat then Raise ZlibError
        else if be_decode (firstn 4 tail) =? adler32 out then Ok out
        else Raise ZlibError
  | _ => Raise ZlibError
  end.

End Zlib.

(* ================================================================= *)
(** ** Record codec ([src/memco/mem.py]) *)

Module Mem.

Import Bytes Struct.

Definition str : Type := Utf8.str.

(** A metadata value as the caller gives it: [encode_dict] stores
    [str(v)]. *)
Inductive value : Type :=
| SomeStr (s : str)
| NoneValue
| Boolean (b : bool).

(** [str(v)] *)
Definition py_str (v : value) : str :=
  match v with
  | SomeStr s => s
  | NoneValue => Utf8.of_string "None"
  | Boolean b => Utf8.of_string (if b then "True" else "False")
  end.

(** The dictionary [serialize_mem] reads and [deserialize_mem] builds. *)
Record mem : Type := mkMem {
  id : option str;
  content : option str;
  tags : option (list (option str));
  metadata : option (list (option str * value));
  importance : spec_float;
  created_at : spec_float;
  updated_at : spec_float;
  source : option str;
  embedding : option (list spec_float);
  encrypted : bool
}.

Definition encode_str (s : option str) : result bytes :=
  match s with
  | None => pack_I sentinel
  | Some s =>
      data <- Utf8.encode s ;;
      hdr <- pack_I (len data) ;;
      Ok (hdr ++ data)
  end.

Definition decode_str (data : bytes) (offset : Z) : result (option str * Z) :=
  length <- unpack_I data offset ;;
  let offset := offset + 4 in
  if length =? sentinel then Ok (None, offset)
  else
    s <- Utf8.decode (slice data offset (offset + length)) ;;
    Ok (Some s, offset + length).

Definition encode_embedding (embedding : option (list spec_float))
  : result bytes :=
  match embedding with
  | None => pack_I sentinel
  | Some l =>
      hdr <- pack_I (Z.of_nat (List.length l)) ;;
      body <- mapM pack_f l ;;
      Ok (hdr ++ concat body)
  end.

(** [for _ in range(n)]: read a float, move on four bytes. *)
Fixpoint read_floats (n : nat) (data : bytes) (offset : Z)
  : result (list spec_float * Z) :=
  match n with
  | O => Ok ([], offset)
  | S n' =>
      val <- unpack_f data offset ;;
      '(rest, offset') <- read_floats n' data (offset + 4) ;;
      Ok (val :: rest, offset')
  end.

Definition decode_embedding (data : bytes) (offset : Z)
  : result (option (list spec_float) * Z) :=
  length <- unpack_I data offset ;;
  let offset := offset + 4 in
  if length =? sentinel then Ok (None, offset)
  else
    '(l, offset') <- read_floats (Z.to_nat length) data offset ;;
    Ok (Some l, offset').

Definition encode_list_str (lst : option (list (option str))) : result bytes :=
  match lst with
  | None => pack_I sentinel
  | Some l =>
      hdr <- pack_I (Z.of_nat (List.length l)) ;;
      body <- mapM encode_str l ;;
      Ok (hdr ++ concat body)
  end.

Fixpoint read_strs (n : nat) (data : bytes) (offset : Z)
  : result (list (option str) * Z) :=
  match n with
  | O => Ok ([], offset)
  | S n' =>
      '(s, offset1) <- decode_str data offset ;;
      '(rest, offset') <- read_strs n' data offset1 ;;
      Ok (s :: rest, offset')
  end.

Definition decode_list_str (data : bytes) (offset : Z)
  : result (option (list (option str)) * Z) :=
  length <- unpack_I data offset ;;
  let offset := offset + 4 in
  if length =? sentinel then Ok (None, offset)
  else
    '(l, offset') <- read_strs (Z.to_nat length) data offset ;;
    Ok (Some l, offset').

Definition encode_item (kv : option str * value) : result bytes :=
  k <- encode_str (fst kv) ;;
  v <- encode_str (Some (py_str (snd kv))) ;;
  Ok (k ++ v).

Definition encode_dict (d : option (list (option str * value)))
  : result bytes :=
  match d with
  | None => pack_I sentinel
  | Some l =>
      hdr <- pack_I (Z.of_nat (List.length l)) ;;
      body <- mapM encode_item l ;;
      Ok (hdr ++ concat body)
  end.

Definition str_eqb (a b : str) : bool :=
  if list_eq_dec Z.eq_dec a b then true else false.

Definition key_eqb (a b : option str) : bool :=
  match a, b with
  | None, None => true
  | Some x, Some y => str_eqb x y
  | _, _ => false
  end.

(** [d[k] = v] *)
Fixpoint dict_set (k : option str) (v : value)
  (d : list (option str * value)) : list (option str * value) :=
  match d with
  | [] => [(k, v)]
  | (k', v') :: d' =>
      if key_eqb k' k then (k, v) :: d' else (k', v') :: dict_set k v d'
  end.

(** A value as [decode_str] returns it. *)
Definition read_value (s : option str) : value :=
  match s with
  | Some s => SomeStr s
  | None => NoneValue
  end.

Fixpoint read_items (n : nat) (data : bytes) (offset : Z)
  (d : list (option str * value))
  : result (list (option str * value) * Z) :=
  match n with
  | O => Ok (d, offset)
  | S n' =>
      '(k, offset1) <- decode_str data offset ;;
      '(v, offset2) <- decode_str data offset1 ;;
      read_items n' data offset2 (dict_set k (read_value v) d)
  end.

Definition decode_dict (data : bytes) (offset : Z)
  : result (option (list (option str * value)) * Z) :=
  length <- unpack_I data offset ;;
  let offset := offset + 4 in
  if length =? sentinel then Ok (None, offset)
  else
    '(d, offset') <- read_items (Z.to_nat length) data offset [] ;;
    Ok (Some d, offset').

(** [x or 0.0] *)
Definition or_zero (x : spec_float) : spec_float :=
  if F64.truthy x then x else F64.zero.

(** The fields in order, before compression. *)
Definition encode_fields (m : mem) : result bytes :=
  p1 <- encode_str (id m) ;;
  p2 <- encode_str (content m) ;;
  p3 <- encode_list_str (tags m) ;;
  p4 <- encode_dict (metadata m) ;;
  p5 <- pack_f (importance m) ;;
  let p6 := pack_d (or_zero (created_at m)) in
  let p7 := pack_d (or_zero (updated_at m)) in
  p8 <- encode_str (source m) ;;
  p9 <- encode_embedding (embedding m) ;;
  let p10 := pack_bool (encrypted m) in
  Ok (p1 ++ p2 ++ p3 ++ p4 ++ p5 ++ p6 ++ p7 ++ p8 ++ p9 ++ p10).

Definition decode_fields (raw : bytes) : result (mem * Z) :=
  let idx := 0 in
  '(id_, idx) <- decode_str raw idx ;;
  '(content, idx) <- decode_str raw idx ;;
  '(tags, idx) <- decode_list_str raw idx ;;
  '(metadata, idx) <- decode_dict raw idx ;;
  importance <- unpack_f raw idx ;;
  let idx := idx + 4 in
  created_at <- unpack_d raw idx ;;
  let idx := idx + 8 in
  updated_at <- unpack_d raw idx ;;
  let idx := idx + 8 in
  '(source, idx) <- decode_str raw idx ;;
  '(embedding, idx) <- decode_embedding raw idx ;;
  encrypted <- unpack_bool raw idx ;;
  Ok (mkMem id_ content tags metadata importance created_at updated_at
        source embedding encrypted, idx).

Section Compressor.

(** [zlib.compress] and [zlib.decompress]. *)
Variable compress : bytes -> bytes.
Variable decompress : bytes -> result bytes.

Definition serialize_mem (m : mem) : result bytes :=
  raw_data <- encode_fields m ;;
  let compressed := compress raw_data in
  hdr <- pack_I (len compressed) ;;
  Ok (hdr ++ compressed).

Definition deserialize_mem (data : bytes) (offset : Z) : result (mem * Z) :=
  compressed_len <- unpack_I data offset ;;
  let offset := offset + 4 in
  let compressed_data := slice data offset (offset + compressed_len) in
  let offset := offset + compressed_len in
  raw <- decompress compressed_data ;;
  '(m, _) <- decode_fields raw ;;
  Ok (m, offset).

End Compressor.

(** *** What a record comes back as *)

(** A metadata item after [str(v)]. *)
Definition stored_item (kv : option str * value) : option str * value :=
  (fst kv, SomeStr (py_str (snd kv))).

(** The record [deserialize_mem] builds from what [serialize_mem] wrote:
    four-byte floats keep the nearest binary32 value, metadata values are
    strings, a timestamp that is false is [0.0]. *)
Definition stored (r : mem) : mem :=
  mkMem (id r) (content r) (tags r)
    (option_map (map stored_item) (metadata r))
    (IEEE.through32 (importance r))
    (or_zero (created_at r)) (or_zero (updated_at r))
    (source r)
    (option_map (map IEEE.through32) (embedding r))
    (encrypted r).

(** A count that is not the sentinel. *)
Definition count_ok (n : Z) : bool := negb (n =? sentinel).

Definition str_ok (s : option str) : bool :=
  match s with
  | None => true
  | Some s => count_ok (Z.of_nat (length (flat_map Utf8.enc_cp s)))
  end.

Definition item_ok (kv : option str * value) : bool :=
  str_ok (fst kv) && str_ok (Some (py_str (snd kv))).

Definition has_key (k : option str) (d : list (option str * value)) : bool :=
  existsb (fun kv => key_eqb (fst kv) k) d.

(** The keys of a dict are distinct. *)
Fixpoint keys_distinct (d : list (option str * value)) : bool :=
  match d with
  | [] => true
  | kv :: d' => negb (has_key (fst kv) d') && keys_distinct d'
  end.

Definition list_ok {A} (ok : A -> bool) (l : option (list A)) : bool :=
  match l with
  | None => true
  | Some l => count_ok (Z.of_nat (length l)) && forallb ok l
  end.

(** A record the format can hold: no size equal to the sentinel, distinct
    metadata keys, timestamps that are doubles. *)
Definition valid (r : mem) : bool :=
  str_ok (id r) && str_ok (content r)
  && list_ok str_ok (tags r)
  && list_ok item_ok (metadata r)
  && match metadata r with Some d => keys_distinct d | None => true end
  && IEEE.valid64 (created_at r) && IEEE.valid64 (updated_at r)
  && str_ok (source r)
  && list_ok (fun _ : spec_float => true) (embedding r).

(** Nothing is lost on a record whose four-byte floats are binary32
    values, whose metadata values are strings and whose timestamps are not
    a zero of negative sign. *)
Definition is_str (v : value) : Prop :=
  match v with SomeStr _ => True | _ => False end.

Definition lossless (r : mem) : Prop :=
  IEEE.through32 (importance r) = importance r
  /\ match embedding r with
     | Some l => Forall (fun x => IEEE.through32 x = x) l
     | None => True
     end
  /\ match metadata r with
     | Some d => Forall (fun kv => is_str (snd kv)) d
     | None => True
     end
  /\ or_zero (created_at r) = created_at r
  /\ or_zero (updated_at r) = updated_at r.

(** *** Reading back what was written *)

Lemma len_app (a b : bytes) : len (a ++ b) = len a + len b.
Proof. unfold len. rewrite length_app. lia. Qed.

Lemma len_nonneg (a : bytes) : 0 <= len a.
Proof. unfold len. lia. Qed.

Lemma read_exact (k : Z) (pre bs post : bytes) :
  len bs = k -> read k (pre ++ bs ++ post) (len pre) = Ok bs.
Proof.
  intros <-. unfold read.
  rewrite !len_app. pose proof (len_nonneg post).
  destruct (Z.leb_spec (len pre + len bs) (len pre + (len bs + len post)));
    [|lia].
  rewrite slice_app_exact. reflexivity.
Qed.

Lemma pack_I_inv (n : Z) (bs : bytes) :
  pack_I n = Ok bs -> 0 <= n <= 0xFFFFFFFF /\ bs = le_encode 4 n.
Proof.
  unfold pack_I.
  destruct (Z.leb_spec 0 n); destruct (Z.leb_spec n 0xFFFFFFFF);
    cbn [andb]; intros E; inversion E; split; [lia | reflexivity].
Qed.

Lemma pack_I_len (n : Z) (bs : bytes) : pack_I n = Ok bs -> len bs = 4.
Proof.
  intros E. apply pack_I_inv in E. destruct E as [_ ->].
  unfold len. rewrite le_encode_length. reflexivity.
Qed.

Lemma unpack_pack_I (n : Z) (bs pre post : bytes) :
  pack_I n = Ok bs -> unpack_I (pre ++ bs ++ post) (len pre) = Ok n.
Proof.
  intros E. unfold unpack_I.
  rewrite (read_exact 4 pre bs post (pack_I_len n bs E)).
  apply pack_I_inv in E. destruct E as [Hn ->].
  cbn [bind]. rewrite le_decode_encode.
  change (256 ^ Z.of_nat 4) with 4294967296.
  rewrite Z.mod_small by lia. reflexivity.
Qed.

(** A decoder reads [x] from the bytes [bs], wherever they stand. *)
Definition reads {A} (decode : bytes -> Z -> result (A * Z))
  (bs : bytes) (x : A) : Prop :=
  forall pre post,
    decode (pre ++ bs ++ post) (len pre) = Ok (x, len pre + len bs).

Lemma app_shift (pre a b post : bytes) :
  pre ++ (a ++ b) ++ post = (pre ++ a) ++ b ++ post.
Proof. rewrite <- !app_assoc. reflexivity. Qed.

Lemma decode_str_encode (s : option str) (bs : bytes) :
  encode_str s = Ok bs -> str_ok s = true -> reads decode_str bs s.
Proof.
  intros E Hok pre post. unfold decode_str. destruct s as [s|].
  - cbn [encode_str] in E.
    destruct (Utf8.encode s) as [data|] eqn:Ee; [|discriminate E].
    cbn [bind] in E.
    destruct (pack_I (len data)) as [hdr|] eqn:Eh; [|discriminate E].
    cbn [bind] in E. inversion E; subst bs. clear E.
    rewrite <- app_assoc.
    rewrite (unpack_pack_I _ _ pre (data ++ post) Eh). cbn [bind].
    assert (Hlen : len data = Z.of_nat (length (flat_map Utf8.enc_cp s))).
    { unfold Utf8.encode in Ee.
      destruct (forallb Utf8.is_scalar s); [|discriminate Ee].
      inversion Ee. unfold len. rewrite length_map. reflexivity. }
    cbn [str_ok] in Hok. unfold count_ok in Hok. rewrite <- Hlen in Hok.
    destruct (len data =? sentinel); [discriminate Hok|].
    rewrite app_assoc.
    replace (len pre + 4) with (len (pre ++ hdr))
      by (rewrite len_app, (pack_I_len _ _ Eh); reflexivity).
    rewrite slice_app_exact, (Utf8.decode_encode s data Ee). cbn [bind].
    rewrite !len_app, (pack_I_len _ _ Eh).
    f_equal. f_equal. lia.
  - cbn [encode_str] in E.
    rewrite (unpack_pack_I _ _ pre post E). cbn [bind].
    change (sentinel =? sentinel) with true. cbn iota.
    rewrite (pack_I_len _ _ E). reflexivity.
Qed.

Lemma pack_f_inv (x : spec_float) (b : bytes) :
  pack_f x = Ok b -> b = le_encode 4 (IEEE.bits32 (IEEE.round32 x)).
Proof.
  unfold pack_f. destruct (IEEE.overflows32 x); intros E; inversion E.
  reflexivity.
Qed.

Lemma pack_f_len (x : spec_float) (b : bytes) : pack_f x = Ok b -> len b = 4.
Proof.
  intros E. apply pack_f_inv in E. subst b.
  unfold len. rewrite le_encode_length. reflexivity.
Qed.

Lemma unpack_pack_f (x : spec_float) (b pre post : bytes) :
  pack_f x = Ok b ->
  unpack_f (pre ++ b ++ post) (len pre) = Ok (IEEE.through32 x).
Proof.
  intros E. unfold unpack_f.
  rewrite (read_exact 4 pre b post (pack_f_len x b E)). cbn [bind].
  apply pack_f_inv in E. subst b. rewrite le_decode_encode. reflexivity.
Qed.

Lemma pack_d_len (x : spec_float) : len (pack_d x) = 8.
Proof. unfold len, pack_d. rewrite le_encode_length. reflexivity. Qed.

Lemma unpack_pack_d (x : spec_float) (pre post : bytes) :
  IEEE.valid64 x = true ->
  unpack_d (pre ++ pack_d x ++ post) (len pre) = Ok x.
Proof.
  intros Hv. unfold unpack_d.
  rewrite (read_exact 8 pre _ post (pack_d_len x)). cbn [bind].
  unfold pack_d. rewrite le_decode_encode.
  change (256 ^ Z.of_nat 8) with (2 ^ 64).
  rewrite Z.mod_small by (apply IEEE.bits64_range, Hv).
  rewrite (IEEE.of_bits64_bits64 x Hv). reflexivity.
Qed.

Lemma unpack_pack_bool (b : bool) (pre post : bytes) :
  unpack_bool (pre ++ pack_bool b ++ post) (len pre) = Ok b.
Proof.
  unfold unpack_bool.
  rewrite (read_exact 1 pre (pack_bool b) post eq_refl). cbn [bind].
  destruct b; reflexivity.
Qed.

(** [mapM] on a list with a head. *)
Lemma mapM_cons_inv {A B} (f : A -> result B) (x : A) (l : list A)
  (ys : list B) :
  mapM f (x :: l) = Ok ys ->
  exists y ys', f x = Ok y /\ mapM f l = Ok ys' /\ ys = y :: ys'.
Proof.
  cbn [mapM]. destruct (f x) as [y|]; [|discriminate].
  cbn [bind]. destruct (mapM f l) as [ys'|]; [|discriminate].
  cbn [bind]. intros E. inversion E. exists y, ys'. auto.
Qed.

Lemma read_floats_packed (l : list spec_float) :
  forall body pre post,
    mapM pack_f l = Ok body ->
    read_floats (length l) (pre ++ concat body ++ post) (len pre)
    = Ok (map IEEE.through32 l, len pre + len (concat body)).
Proof.
  induction l as [|x l IH]; intros body pre post E.
  - inversion E. cbn. f_equal. f_equal. unfold len. cbn. lia.
  - apply mapM_cons_inv in E. destruct E as (b & body' & Eb & El & ->).
    cbn [length read_floats concat map].
    rewrite <- app_assoc, (unpack_pack_f x b pre _ Eb). cbn [bind].
    rewrite app_assoc.
    replace (len pre + 4) with (len (pre ++ b))
      by (rewrite len_app, (pack_f_len x b Eb); reflexivity).
    rewrite (IH body' (pre ++ b) post El). cbn [bind].
    rewrite !len_app. f_equal. f_equal. lia.
Qed.

Lemma read_strs_encoded (l : list (option str)) :
  forall body pre post,
    mapM encode_str l = Ok body ->
    forallb str_ok l = true ->
    read_strs (length l) (pre ++ concat body ++ post) (len pre)
    = Ok (l, len pre + len (concat body)).
Proof.
  induction l as [|s l IH]; intros body pre post E Hok.
  - inversion E. cbn. f_equal. f_equal. unfold len. cbn. lia.
  - apply mapM_cons_inv in E. destruct E as (b & body' & Eb & El & ->).
    cbn [forallb] in Hok. apply andb_true_iff in Hok.
    destruct Hok as [Hs Hl].
    cbn [length read_strs concat].
    rewrite <- app_assoc, (decode_str_encode s b Eb Hs pre _). cbn [bind].
    rewrite app_assoc. rewrite <- len_app.
    rewrite (IH body' (pre ++ b) post El Hl). cbn [bind].
    rewrite !len_app. f_equal. f_equal. lia.
Qed.

Lemma str_eqb_eq (a b : str) : str_eqb a b = true <-> a = b.
Proof.
  unfold str_eqb. destruct (list_eq_dec Z.eq_dec a b); split; auto.
  discriminate.
Qed.

Lemma key_eqb_eq (a b : option str) : key_eqb a b = true <-> a = b.
Proof.
  destruct a as [a|], b as [b|]; cbn [key_eqb].
  - rewrite str_eqb_eq. split; [intros ->; reflexivity | congruence].
  - split; discriminate.
  - split; discriminate.
  - split; reflexivity.
Qed.

Lemma has_key_false (k : option str) (d : list (option str * value)) :
  has_key k d = false -> ~ In k (map fst d).
Proof.
  induction d as [|kv d IH]; cbn [has_key existsb map In]; [tauto|].
  intros H. apply orb_false_iff in H. destruct H as [Hk Hd].
  intros [E|Hin].
  - apply (proj2 (key_eqb_eq (fst kv) k)) in E. congruence.
  - exact (IH Hd Hin).
Qed.

Lemma keys_distinct_NoDup (d : list (option str * value)) :
  keys_distinct d = true -> NoDup (map fst d).
Proof.
  induction d as [|kv d IH]; cbn [keys_distinct map]; intros H.
  - constructor.
  - apply andb_true_iff in H. destruct H as [Hk Hd].
    constructor; [|exact (IH Hd)].
    apply has_key_false. destruct (has_key (fst kv) d); [discriminate|].
    reflexivity.
Qed.

(** Setting a key the dict does not hold appends the item. *)
Lemma dict_set_new (k : option str) (v : value)
  (d : list (option str * value)) :
  ~ In k (map fst d) -> dict_set k v d = d ++ [(k, v)].
Proof.
  induction d as [|[k' v'] d IH]; cbn [dict_set map In app fst];
    intros Hn; [reflexivity|].
  destruct (key_eqb k' k) eqn:E.
  - apply key_eqb_eq in E. tauto.
  - rewrite IH by tauto. reflexivity.
Qed.

Lemma encode_item_inv (kv : option str * value) (b : bytes) :
  encode_item kv = Ok b ->
  exists bk bv, encode_str (fst kv) = Ok bk
                /\ encode_str (Some (py_str (snd kv))) = Ok bv
                /\ b = bk ++ bv.
Proof.
  unfold encode_item.
  destruct (encode_str (fst kv)) as [bk|]; [|discriminate]. cbn [bind].
  destruct (encode_str (Some (py_str (snd kv)))) as [bv|]; [|discriminate].
  cbn [bind]. intros E. inversion E. exists bk, bv. auto.
Qed.

Lemma read_items_encoded (l : list (option str * value)) :
  forall body pre post d,
    mapM encode_item l = Ok body ->
    forallb item_ok l = true ->
    NoDup (map fst (d ++ l)) ->
    read_items (length l) (pre ++ concat body ++ post) (len pre) d
    = Ok (d ++ map stored_item l, len pre + len (concat body)).
Proof.
  induction l as [|kv l IH]; intros body pre post d E Hok Hnd.
  - inversion E. cbn. rewrite app_nil_r. f_equal. f_equal.
    unfold len. cbn. lia.
  - apply mapM_cons_inv in E. destruct E as (b & body' & Eb & El & ->).
    apply encode_item_inv in Eb. destruct Eb as (bk & bv & Ek & Ev & ->).
    cbn [forallb] in Hok. apply andb_true_iff in Hok.
    destruct Hok as [Hkv Hl]. unfold item_ok in Hkv.
    apply andb_true_iff in Hkv. destruct Hkv as [Hk Hv].
    cbn [length read_items concat].
    rewrite <- !app_assoc.
    rewrite (decode_str_encode _ bk Ek Hk pre _). cbn [bind].
    rewrite app_assoc, <- len_app.
    rewrite (decode_str_encode _ bv Ev Hv (pre ++ bk) _). cbn [bind].
    rewrite app_assoc, <- len_app. cbn [read_value].
    rewrite dict_set_new.
    + rewrite (IH body' ((pre ++ bk) ++ bv) post _ El Hl).
      * cbn [map]. rewrite <- app_assoc. cbn [app].
        rewrite !len_app. f_equal. f_equal. lia.
      * rewrite <- app_assoc. cbn [app]. rewrite map_app in *.
        cbn [map] in *. exact Hnd.
    + rewrite map_app in Hnd. cbn [map] in Hnd.
      apply NoDup_remove_2 in Hnd. intros Hin. apply Hnd.
      apply in_or_app. left. exact Hin.
Qed.

Lemma count_ok_false (n : Z) : count_ok n = true -> (n =? sentinel) = false.
Proof.
  unfold count_ok. destruct (n =? sentinel); [discriminate|reflexivity].
Qed.

Lemma decode_list_str_encode (t : option (list (option str))) (bs : bytes) :
  encode_list_str t = Ok bs -> list_ok str_ok t = true ->
  reads decode_list_str bs t.
Proof.
  intros E Hok pre post. unfold decode_list_str. destruct t as [l|].
  - cbn [encode_list_str] in E.
    destruct (pack_I (Z.of_nat (length l))) as [hdr|] eqn:Eh;
      [|discriminate E].
    cbn [bind] in E.
    destruct (mapM encode_str l) as [body|] eqn:Eb; [|discriminate E].
    cbn [bind] in E. inversion E; subst bs. clear E.
    cbn [list_ok] in Hok. apply andb_true_iff in Hok.
    destruct Hok as [Hc Hl].
    rewrite <- app_assoc.
    rewrite (unpack_pack_I _ _ pre _ Eh). cbn [bind].
    rewrite (count_ok_false _ Hc), Nat2Z.id.
    rewrite app_assoc.
    replace (len pre + 4) with (len (pre ++ hdr))
      by (rewrite len_app, (pack_I_len _ _ Eh); reflexivity).
    rewrite (read_strs_encoded l body _ post Eb Hl). cbn [bind].
    rewrite !len_app. f_equal. f_equal. lia.
  - cbn [encode_list_str] in E.
    rewrite (unpack_pack_I _ _ pre post E). cbn [bind].
    change (sentinel =? sentinel) with true. cbn iota.
    rewrite (pack_I_len _ _ E). reflexivity.
Qed.

Lemma decode_dict_encode (d : option (list (option str * value)))
  (bs : bytes) :
  encode_dict d = Ok bs -> list_ok item_ok d = true ->
  match d with Some l => keys_distinct l | None => true end = true ->
  reads decode_dict bs (option_map (map stored_item) d).
Proof.
  intros E Hok Hk pre post. unfold decode_dict. destruct d as [l|].
  - cbn [encode_dict] in E.
    destruct (pack_I (Z.of_nat (length l))) as [hdr|] eqn:Eh;
      [|discriminate E].
    cbn [bind] in E.
    destruct (mapM encode_item l) as [body|] eqn:Eb; [|discriminate E].
    cbn [bind] in E. inversion E; subst bs. clear E.
    cbn [list_ok] in Hok. apply andb_true_iff in Hok.
    destruct Hok as [Hc Hl].
    rewrite <- app_assoc.
    rewrite (unpack_pack_I _ _ pre _ Eh). cbn [bind].
    rewrite (count_ok_false _ Hc), Nat2Z.id.
    rewrite app_assoc.
    replace (len pre + 4) with (len (pre ++ hdr))
      by (rewrite len_app, (pack_I_len _ _ Eh); reflexivity).
    rewrite (read_items_encoded l body _ post [] Eb Hl
               (keys_distinct_NoDup l Hk)).
    cbn [bind app option_map].
    rewrite !len_app. f_equal. f_equal. lia.
  - cbn [encode_dict] in E.
    rewrite (unpack_pack_I _ _ pre post E). cbn [bind].
    change (sentinel =? sentinel) with true. cbn iota.
    rewrite (pack_I_len _ _ E). reflexivity.
Qed.

Lemma decode_embedding_encode (e : option (list spec_float)) (bs : bytes) :
  encode_embedding e = Ok bs ->
  list_ok (fun _ : spec_float => true) e = true ->
  reads decode_embedding bs (option_map (map IEEE.through32) e).
Proof.
  intros E Hok pre post. unfold decode_embedding. destruct e as [l|].
  - cbn [encode_embedding] in E.
    destruct (pack_I (Z.of_nat (length l))) as [hdr|] eqn:Eh;
      [|discriminate E].
    cbn [bind] in E.
    destruct (mapM pack_f l) as [body|] eqn:Eb; [|discriminate E].
    cbn [bind] in E. inversion E; subst bs. clear E.
    cbn [list_ok] in Hok. apply andb_true_iff in Hok.
    destruct Hok as [Hc _].
    rewrite <- app_assoc.
    rewrite (unpack_pack_I _ _ pre _ Eh). cbn [bind].
    rewrite (count_ok_false _ Hc), Nat2Z.id.
    rewrite app_assoc.
    replace (len pre + 4) with (len (pre ++ hdr))
      by (rewrite len_app, (pack_I_len _ _ Eh); reflexivity).
    rewrite (read_floats_packed l body _ post Eb).
    cbn [bind option_map].
    rewrite !len_app. f_equal. f_equal. lia.
  - cbn [encode_embedding] in E.
    rewrite (unpack_pack_I _ _ pre post E). cbn [bind].
    change (sentinel =? sentinel) with true. cbn iota.
    rewrite (pack_I_len _ _ E). reflexivity.
Qed.

Lemma valid64_or_zero (x : spec_float) :
  IEEE.valid64 x = true -> IEEE.valid64 (or_zero x) = true.
Proof.
  intros H. unfold or_zero. destruct (F64.truthy x); [exact H|reflexivity].
Qed.

(** The payload decodes to the stored record, ending on its last byte. *)
Lemma decode_fields_encode (r : mem) (raw : bytes) :
  valid r = true ->
  encode_fields r = Ok raw ->
  decode_fields raw = Ok (stored r, len raw - 1).
Proof.
  intros Hv E. unfold valid in Hv.
  apply andb_true_iff in Hv. destruct Hv as [Hv Hemb].
  apply andb_true_iff in Hv. destruct Hv as [Hv Hsrc].
  apply andb_true_iff in Hv. destruct Hv as [Hv Hupd].
  apply andb_true_iff in Hv. destruct Hv as [Hv Hcre].
  apply andb_true_iff in Hv. destruct Hv as [Hv Hkeys].
  apply andb_true_iff in Hv. destruct Hv as [Hv Hmeta].
  apply andb_true_iff in Hv. destruct Hv as [Hv Htags].
  apply andb_true_iff in Hv. destruct Hv as [Hid Hcont].
  unfold encode_fields in E. cbv zeta in E. unfold stored.
  pose proof (pack_d_len (or_zero (created_at r))) as L6.
  pose proof (pack_d_len (or_zero (updated_at r))) as L7.
  assert (L10 : len (pack_bool (encrypted r)) = 1) by reflexivity.
  pose proof (fun pre post =>
                unpack_pack_d _ pre post (valid64_or_zero _ Hcre)) as D6.
  pose proof (fun pre post =>
                unpack_pack_d _ pre post (valid64_or_zero _ Hupd)) as D7.
  pose proof (unpack_pack_bool (encrypted r)) as D10.
  remember (pack_d (or_zero (created_at r))) as p6 eqn:Hp6. clear Hp6.
  remember (pack_d (or_zero (updated_at r))) as p7 eqn:Hp7. clear Hp7.
  remember (pack_bool (encrypted r)) as p10 eqn:Hp10. clear Hp10.
  destruct (encode_str (id r)) as [p1|] eqn:E1; [|discriminate E].
  cbn [bind] in E.
  destruct (encode_str (content r)) as [p2|] eqn:E2; [|discriminate E].
  cbn [bind] in E.
  destruct (encode_list_str (tags r)) as [p3|] eqn:E3; [|discriminate E].
  cbn [bind] in E.
  destruct (encode_dict (metadata r)) as [p4|] eqn:E4; [|discriminate E].
  cbn [bind] in E.
  destruct (pack_f (importance r)) as [p5|] eqn:E5; [|discriminate E].
  cbn [bind] in E.
  destruct (encode_str (source r)) as [p8|] eqn:E8; [|discriminate E].
  cbn [bind] in E.
  destruct (encode_embedding (embedding r)) as [p9|] eqn:E9;
    [|discriminate E].
  cbn [bind] in E. injection E as Eraw. subst raw.
  pose proof (pack_f_len _ _ E5) as L5.
  pose proof (fun pre post => unpack_pack_f _ _ pre post E5) as D5.
  pose proof (decode_str_encode _ _ E1 Hid) as D1.
  pose proof (decode_str_encode _ _ E2 Hcont) as D2.
  pose proof (decode_list_str_encode _ _ E3 Htags) as D3.
  pose proof (decode_dict_encode _ _ E4 Hmeta Hkeys) as D4.
  pose proof (decode_str_encode _ _ E8 Hsrc) as D8.
  pose proof (decode_embedding_encode _ _ E9 Hemb) as D9.
  unfold reads in *.
  unfold decode_fields. cbv zeta.
  pose proof (D1 [] (p2 ++ p3 ++ p4 ++ p5 ++ p6 ++ p7 ++ p8 ++ p9 ++ p10))
    as S1.
  rewrite app_nil_l in S1. change (len []) with 0 in S1.
  rewrite S1. clear S1 D1.
  cbn [bind]. rewrite Z.add_0_l.
  rewrite (D2 p1 _). cbn [bind]. clear D2.
  rewrite <- len_app.
  rewrite (app_assoc p1 p2), (D3 (p1 ++ p2) _). cbn [bind]. clear D3.
  rewrite <- len_app.
  rewrite (app_assoc (p1 ++ p2) p3), (D4 _ _). cbn [bind]. clear D4.
  rewrite <- len_app.
  rewrite (app_assoc ((p1 ++ p2) ++ p3) p4), (D5 _ _). cbn [bind]. clear D5.
  replace (len (((p1 ++ p2) ++ p3) ++ p4) + 4)
    with (len ((((p1 ++ p2) ++ p3) ++ p4) ++ p5))
    by (rewrite !len_app; lia).
  rewrite (app_assoc (((p1 ++ p2) ++ p3) ++ p4) p5), (D6 _ _). cbn [bind].
  clear D6.
  replace (len ((((p1 ++ p2) ++ p3) ++ p4) ++ p5) + 8)
    with (len (((((p1 ++ p2) ++ p3) ++ p4) ++ p5) ++ p6))
    by (rewrite !len_app; lia).
  rewrite (app_assoc ((((p1 ++ p2) ++ p3) ++ p4) ++ p5) p6), (D7 _ _).
  cbn [bind]. clear D7.
  replace (len (((((p1 ++ p2) ++ p3) ++ p4) ++ p5) ++ p6) + 8)
    with (len ((((((p1 ++ p2) ++ p3) ++ p4) ++ p5) ++ p6) ++ p7))
    by (rewrite !len_app; lia).
  rewrite (app_assoc (((((p1 ++ p2) ++ p3) ++ p4) ++ p5) ++ p6) p7).
  rewrite (D8 _ _). cbn [bind]. clear D8. rewrite <- len_app.
  rewrite (app_assoc ((((((p1 ++ p2) ++ p3) ++ p4) ++ p5) ++ p6) ++ p7) p8).
  rewrite (D9 _ p10). cbn [bind]. clear D9. rewrite <- len_app.
  rewrite (app_assoc
             (((((((p1 ++ p2) ++ p3) ++ p4) ++ p5) ++ p6) ++ p7) ++ p8) p9).
  pose proof (D10 ((((((((p1 ++ p2) ++ p3) ++ p4) ++ p5) ++ p6) ++ p7)
                      ++ p8) ++ p9) []) as S10.
  rewrite app_nil_r in S10. rewrite S10. cbn [bind]. clear S10 D10.
  f_equal. f_equal. rewrite !len_app. lia.
Qed.

(** *** The file functions

    A file is its bytes.  [save_mems_to_file] opens the file, which empties
    it, and writes one record after the other: when a record does not
    serialize the exception leaves the records written before it. *)

Section Files.

Variable compress : bytes -> bytes.
Variable decompress : bytes -> result bytes.

Fixpoint write_mems (mems : list mem) (written : bytes)
  : bytes * result unit :=
  match mems with
  | [] => (written, Ok tt)
  | m :: rest =>
      match serialize_mem compress m with
      | Ok b => write_mems rest (written ++ b)
      | Raise e => (written, Raise e)
      end
  end.

Definition save_mems_to_file (mems : list mem) : bytes * result unit :=
  write_mems mems [].

(** [while offset < len(data)]: [None] when the loop is cut off after
    [fuel] rounds. *)
Fixpoint load_loop (fuel : nat) (data : bytes) (offset : Z)
  : option (result (list mem)) :=
  if offset <? len data then
    match fuel with
    | O => None
    | S fuel' =>
        match deserialize_mem decompress data offset with
        | Raise e => Some (Raise e)
        | Ok (m, offset') =>
            match load_loop fuel' data offset' with
            | Some (Ok rest) => Some (Ok (m :: rest))
            | other => other
            end
        end
    end
  else Some (Ok []).

(** A round moves on by four bytes at least, so as many rounds as the
    file has bytes are never used up ([load_loop_runs]). *)
Definition load_mems_from_file (data : bytes) : option (result (list mem)) :=
  load_loop (length data) data 0.

Definition save_mem_to_file (m : mem) : result bytes :=
  serialize_mem compress m.

Definition load_mem_from_file (data : bytes) : result mem :=
  '(m, _) <- deserialize_mem decompress data 0 ;; Ok m.

(** *** Round trips *)

Lemma serialize_mem_inv (r : mem) (data : bytes) :
  serialize_mem compress r = Ok data ->
  exists raw hdr,
    encode_fields r = Ok raw
    /\ pack_I (len (compress raw)) = Ok hdr
    /\ data = hdr ++ compress raw.
Proof.
  unfold serialize_mem.
  destruct (encode_fields r) as [raw|]; [|discriminate]. cbn [bind].
  destruct (pack_I (len (compress raw))) as [hdr|] eqn:Eh; [|discriminate].
  cbn [bind]. intros E. injection E as <-. exists raw, hdr. auto.
Qed.

(** The record is read back from its bytes wherever they stand in a
    stream. *)
Lemma reads_serialized (r : mem) (data : bytes) :
  valid r = true ->
  (forall raw, encode_fields r = Ok raw -> decompress (compress raw) = Ok raw) ->
  serialize_mem compress r = Ok data ->
  reads (deserialize_mem decompress) data (stored r).
Proof.
  intros Hv Hz E pre post.
  apply serialize_mem_inv in E. destruct E as (raw & hdr & Er & Eh & ->).
  unfold deserialize_mem.
  rewrite <- app_assoc, (unpack_pack_I _ _ pre _ Eh). cbn [bind].
  rewrite app_assoc.
  replace (len pre + 4) with (len (pre ++ hdr))
    by (rewrite len_app, (pack_I_len _ _ Eh); reflexivity).
  rewrite slice_app_exact, (Hz raw Er). cbn [bind].
  rewrite (decode_fields_encode r raw Hv Er). cbn [bind].
  rewrite !len_app, (pack_I_len _ _ Eh). f_equal. f_equal. lia.
Qed.

Lemma map_stored_item_str (d : list (option str * value)) :
  Forall (fun kv => is_str (snd kv)) d -> map stored_item d = d.
Proof.
  induction 1 as [|[k v] d Hv _ IH]; cbn [map]; [reflexivity|].
  rewrite IH. unfold stored_item. cbn [fst snd] in *.
  destruct v; cbn [is_str] in Hv; try contradiction. reflexivity.
Qed.

Lemma map_fixed {A} (f : A -> A) (l : list A) :
  Forall (fun x => f x = x) l -> map f l = l.
Proof.
  induction 1 as [|x l Hx _ IH]; cbn [map]; [reflexivity|].
  rewrite Hx, IH. reflexivity.
Qed.

Lemma stored_lossless (r : mem) : lossless r -> stored r = r.
Proof.
  intros (Hi & He & Hm & Hc & Hu). destruct r as [i c t m imp cr up s e enc].
  unfold stored. cbn [id content tags metadata importance created_at
                       updated_at source embedding encrypted] in *.
  rewrite Hi, Hc, Hu.
  destruct m as [d|]; destruct e as [l|]; cbn [option_map];
    rewrite ?(map_stored_item_str _ Hm), ?(map_fixed _ _ He); reflexivity.
Qed.

(** X1. What [serialize_mem] writes for a valid record, [deserialize_mem]
    reads back as that record with its importance and embedding components
    rounded to binary32, its metadata values as strings and a false
    timestamp as [0.0]; [tags], [metadata] and [embedding] stay absent when
    absent and empty when empty; the offset returned is the length read. *)
Theorem serialize_then_deserialize (r : mem) (data : bytes) :
  valid r = true ->
  (forall raw, encode_fields r = Ok raw -> decompress (compress raw) = Ok raw) ->
  serialize_mem compress r = Ok data ->
  deserialize_mem decompress data 0 = Ok (stored r, len data)
  /\ id (stored r) = id r /\ content (stored r) = content r
  /\ tags (stored r) = tags r /\ source (stored r) = source r
  /\ encrypted (stored r) = encrypted r
  /\ (metadata r = None -> metadata (stored r) = None)
  /\ (metadata r = Some [] -> metadata (stored r) = Some [])
  /\ (embedding r = None -> embedding (stored r) = None)
  /\ (embedding r = Some [] -> embedding (stored r) = Some []).
Proof.
  intros Hv Hz E. split.
  - pose proof (reads_serialized r data Hv Hz E [] []) as H.
    rewrite app_nil_r in H. exact H.
  - unfold stored.
    cbn [id content tags metadata source embedding encrypted].
    repeat split; intros ->; reflexivity.
Qed.

(** X2. A valid record whose importance and embedding components are
    binary32 values, whose metadata values are strings and whose timestamps
    are not a negative zero comes back exactly. *)
Theorem lossless_record_round_trips (r : mem) (data : bytes) :
  valid r = true ->
  lossless r ->
  (forall raw, encode_fields r = Ok raw -> decompress (compress raw) = Ok raw) ->
  serialize_mem compress r = Ok data ->
  deserialize_mem decompress data 0 = Ok (r, len data).
Proof.
  intros Hv Hl Hz E.
  pose proof (reads_serialized r data Hv Hz E [] []) as H.
  rewrite app_nil_r, (stored_lossless r Hl) in H. exact H.
Qed.

End Files.

(** *** Worked records *)

(** A record with an importance of 0.6, empty tags, a metadata value that
    is no string, no embedding and a created_at of -0.0. *)
Definition note_lossy : mem :=
  mkMem (Some (Utf8.of_string "m1"))
        (Some [104; 233; 108; 108; 111])
        (Some [])
        (Some [(Some (Utf8.of_string "pinned"), Boolean true)])
        (F64.dec 6 1)
        (S754_zero true)
        (F64.dec 17000000005 1)
        None
        None
        true.

Definition note_lossy_bytes : bytes :=
  Eval vm_compute in
    match serialize_mem Zlib.compress note_lossy with
    | Ok b => b
    | Raise _ => []
    end.

(** 0.6000000238418579, the double of the binary32 value nearest to 0.6. *)
Definition f32_of_0_6 : spec_float :=
  Eval vm_compute in F64.dec 6000000238418579 16.

(** A record every field of which the format holds exactly. *)
Definition note_exact : mem :=
  mkMem (Some (Utf8.of_string "m2"))
        (Some (Utf8.of_string "remember the milk"))
        (Some [Some (Utf8.of_string "todo"); None])
        (Some [(Some (Utf8.of_string "k"), SomeStr (Utf8.of_string "v"))])
        (F64.dec 5 1)
        (F64.dec 17000000005 1)
        (F64.dec 17000000015 1)
        (Some [])
        (Some [F64.dec 25 2; F64.of_Z (-3)])
        false.

Definition note_exact_bytes : bytes :=
  Eval vm_compute in
    match serialize_mem Zlib.compress note_exact with
    | Ok b => b
    | Raise _ => []
    end.

Lemma serialize_then_deserialize_witness :
  deserialize_mem Zlib.decompress note_lossy_bytes 0
  = Ok (stored note_lossy, len note_lossy_bytes)
  /\ importance (stored note_lossy) = f32_of_0_6
  /\ created_at (stored note_lossy) = F64.zero
  /\ metadata (stored note_lossy)
     = Some [(Some (Utf8.of_string "pinned"),
              SomeStr (Utf8.of_string "True"))]
  /\ tags (stored note_lossy) = Some []
  /\ embedding (stored note_lossy) = None.
Proof.
  split; [|repeat split; vm_compute; reflexivity].
  apply (serialize_then_deserialize Zlib.compress Zlib.decompress
           note_lossy note_lossy_bytes).
  - vm_compute. reflexivity.
  - intros raw E. vm_compute in E. injection E as <-. vm_compute. reflexivity.
  - vm_compute. reflexivity.
Defined.

Lemma lossless_record_round_trips_witness :
  deserialize_mem Zlib.decompress note_exact_bytes 0
  = Ok (note_exact, len note_exact_bytes).
Proof.
  apply (lossless_record_round_trips Zlib.compress Zlib.decompress
           note_exact note_exact_bytes).
  - vm_compute. reflexivity.
  - unfold lossless.
    repeat split; try (repeat constructor); vm_compute; reflexivity.
  - intros raw E. vm_compute in E. injection E as <-. vm_compute. reflexivity.
  - vm_compute. reflexivity.
Defined.

(** *** Offsets and the end of the buffer *)

Lemma read_inv (k : Z) (data : bytes) (offset : Z) (bs : bytes) :
  read k data offset = Ok bs ->
  offset + k <= len data /\ bs = slice data offset (offset + k).
Proof.
  unfold read. destruct (Z.leb_spec (offset + k) (len data)); [|discriminate].
  intros E. injection E as <-. auto.
Qed.

Lemma read_short (k : Z) (data : bytes) (offset : Z) :
  len data < offset + k -> read k data offset = Raise StructError.
Proof.
  intros H. unfold read.
  destruct (Z.leb_spec (offset + k) (len data)); [lia|reflexivity].
Qed.

Lemma slice_append (data extra : bytes) (lo hi : Z) :
  0 <= lo -> hi <= len data ->
  slice (data ++ extra) lo hi = slice data lo hi.
Proof.
  intros Hlo Hhi. unfold slice. rewrite len_app.
  pose proof (len_nonneg extra) as He.
  rewrite (Z.min_l hi (len data)) by exact Hhi.
  rewrite (Z.min_l hi (len data + len extra)) by lia.
  destruct (Z.le_gt_cases lo (len data)) as [Hin|Hout].
  - rewrite (Z.min_l lo (len data)) by exact Hin.
    rewrite (Z.min_l lo (len data + len extra)) by lia.
    rewrite skipn_app.
    replace (Z.to_nat lo - length data)%nat with 0%nat
      by (unfold len in Hin; lia).
    cbn [skipn]. rewrite firstn_app.
    replace (Z.to_nat (hi - lo) - length (skipn (Z.to_nat lo) data))%nat
      with 0%nat by (rewrite length_skipn; unfold len in *; lia).
    cbn [firstn]. apply app_nil_r.
  - rewrite (Z.min_r lo (len data)) by lia.
    replace (Z.to_nat (hi - len data)) with 0%nat by lia.
    replace (Z.to_nat (hi - Z.min lo (len data + len extra))) with 0%nat
      by lia.
    reflexivity.
Qed.

Lemma read_append (k : Z) (data extra : bytes) (offset : Z) (bs : bytes) :
  0 <= offset ->
  read k data offset = Ok bs -> read k (data ++ extra) offset = Ok bs.
Proof.
  intros Ho E. apply read_inv in E. destruct E as [Hk ->].
  unfold read. rewrite len_app. pose proof (len_nonneg extra).
  destruct (Z.leb_spec (offset + k) (len data + len extra)); [|lia].
  rewrite slice_append by lia. reflexivity.
Qed.

Lemma unpack_I_inv (data : bytes) (offset n : Z) :
  unpack_I data offset = Ok n -> offset + 4 <= len data /\ 0 <= n.
Proof.
  unfold unpack_I. destruct (read 4 data offset) as [bs|] eqn:E; [|discriminate].
  cbn [bind]. intros H. injection H as <-.
  apply read_inv in E. split; [tauto|]. apply le_decode_range.
Qed.

Lemma unpack_I_short (data : bytes) (offset : Z) :
  len data < offset + 4 -> unpack_I data offset = Raise StructError.
Proof. intros H. unfold unpack_I. rewrite read_short by exact H. reflexivity. Qed.

Lemma unpack_I_append (data extra : bytes) (offset n : Z) :
  0 <= offset ->
  unpack_I data offset = Ok n -> unpack_I (data ++ extra) offset = Ok n.
Proof.
  intros Ho. unfold unpack_I.
  destruct (read 4 data offset) as [bs|] eqn:E; [|discriminate].
  rewrite (read_append 4 data extra offset bs Ho E). auto.
Qed.

(** What a successful [decode_str] read: the count, and the string from
    the bytes up to the end it declares. *)
Lemma decode_str_inv (data : bytes) (offset : Z) (s : option str)
  (offset' : Z) :
  decode_str data offset = Ok (s, offset') ->
  exists n,
    unpack_I data offset = Ok n
    /\ offset + 4 <= len data /\ offset + 4 <= offset'
    /\ (n = sentinel /\ s = None /\ offset' = offset + 4
        \/ n <> sentinel /\ offset' = offset + 4 + n
           /\ exists t, s = Some t
                /\ Utf8.decode (slice data (offset + 4) offset') = Ok t).
Proof.
  unfold decode_str.
  destruct (unpack_I data offset) as [n|] eqn:En; [|discriminate].
  cbn [bind]. pose proof (unpack_I_inv _ _ _ En) as [Hb Hn].
  intros E. exists n. split; [reflexivity|]. split; [exact Hb|].
  destruct (Z.eqb_spec n sentinel) as [->|Hne].
  - injection E as <- <-. split; [lia|]. left. auto.
  - destruct (Utf8.decode (slice data (offset + 4) (offset + 4 + n)))
      as [t|] eqn:Et; [|discriminate E].
    cbn [bind] in E. injection E as <- <-. split; [lia|].
    right. split; [exact Hne|]. split; [reflexivity|]. exists t. auto.
Qed.

Lemma decode_str_append (data extra : bytes) (offset : Z) (s : option str)
  (offset' : Z) :
  0 <= offset -> offset' <= len data ->
  decode_str data offset = Ok (s, offset') ->
  decode_str (data ++ extra) offset = Ok (s, offset').
Proof.
  intros Ho Hin E.
  destruct (decode_str_inv _ _ _ _ E) as (n & En & _ & _ & H).
  unfold decode_str. rewrite (unpack_I_append _ extra _ _ Ho En). cbn [bind].
  destruct H as [(-> & -> & ->)|(Hne & -> & t & -> & Et)].
  - reflexivity.
  - destruct (Z.eqb_spec n sentinel); [contradiction|].
    rewrite slice_append by lia. rewrite Et. reflexivity.
Qed.

Lemma read_strs_inv (n : nat) :
  forall data offset l offset',
    read_strs n data offset = Ok (l, offset') ->
    offset + 4 * Z.of_nat n <= offset'
    /\ (n <> O -> offset + 4 * Z.of_nat n <= len data).
Proof.
  induction n as [|n IH]; intros data offset l offset' E.
  - cbn in E. injection E as <- <-. split; [lia|congruence].
  - cbn [read_strs] in E.
    destruct (decode_str data offset) as [[s o1]|] eqn:Es; [|discriminate E].
    cbn [bind] in E.
    destruct (read_strs n data o1) as [[rest o2]|] eqn:Er; [|discriminate E].
    cbn [bind] in E. injection E as <- <-.
    destruct (decode_str_inv _ _ _ _ Es) as (k & _ & Hb & Hm & _).
    destruct (IH _ _ _ _ Er) as [Hm' Hb'].
    split; [lia|]. intros _. destruct n as [|n]; [lia|].
    assert (S n <> O) as Hn by congruence. specialize (Hb' Hn). lia.
Qed.

Lemma read_strs_append (n : nat) :
  forall data extra offset l offset',
    0 <= offset -> offset' <= len data ->
    read_strs n data offset = Ok (l, offset') ->
    read_strs n (data ++ extra) offset = Ok (l, offset').
Proof.
  induction n as [|n IH]; intros data extra offset l offset' Ho Hin E.
  - exact E.
  - cbn [read_strs] in *.
    destruct (decode_str data offset) as [[s o1]|] eqn:Es; [|discriminate E].
    cbn [bind] in E.
    destruct (read_strs n data o1) as [[rest o2]|] eqn:Er; [|discriminate E].
    cbn [bind] in E. injection E as <- <-.
    destruct (decode_str_inv _ _ _ _ Es) as (k & _ & _ & Hm & _).
    destruct (read_strs_inv _ _ _ _ _ Er) as [Hm' _].
    rewrite (decode_str_append data extra offset s o1 Ho ltac:(lia) Es).
    cbn [bind].
    rewrite (IH data extra o1 rest o2 ltac:(lia) Hin Er). reflexivity.
Qed.

Lemma read_items_inv (n : nat) :
  forall data offset d d' offset',
    read_items n data offset d = Ok (d', offset') ->
    offset + 8 * Z.of_nat n <= offset'
    /\ (n <> O -> offset + 8 * Z.of_nat n <= len data).
Proof.
  induction n as [|n IH]; intros data offset d d' offset' E.
  - cbn in E. injection E as <- <-. split; [lia|congruence].
  - cbn [read_items] in E.
    destruct (decode_str data offset) as [[k o1]|] eqn:Ek; [|discriminate E].
    cbn [bind] in E.
    destruct (decode_str data o1) as [[v o2]|] eqn:Ev; [|discriminate E].
    cbn [bind] in E.
    destruct (decode_str_inv _ _ _ _ Ek) as (? & _ & _ & Hk & _).
    destruct (decode_str_inv _ _ _ _ Ev) as (? & _ & Hbv & Hv & _).
    destruct (IH _ _ _ _ _ E) as [Hm' Hb'].
    split; [lia|]. intros _. destruct n as [|n]; [lia|].
    assert (S n <> O) as Hn by congruence. specialize (Hb' Hn). lia.
Qed.

Lemma read_items_append (n : nat) :
  forall data extra offset d d' offset',
    0 <= offset -> offset' <= len data ->
    read_items n data offset d = Ok (d', offset') ->
    read_items n (data ++ extra) offset d = Ok (d', offset').
Proof.
  induction n as [|n IH]; intros data extra offset d d' offset' Ho Hin E.
  - exact E.
  - cbn [read_items] in *.
    destruct (decode_str data offset) as [[k o1]|] eqn:Ek; [|discriminate E].
    cbn [bind] in E.
    destruct (decode_str data o1) as [[v o2]|] eqn:Ev; [|discriminate E].
    cbn [bind] in E.
    destruct (decode_str_inv _ _ _ _ Ek) as (? & _ & _ & Hk & _).
    destruct (decode_str_inv _ _ _ _ Ev) as (? & _ & _ & Hv & _).
    destruct (read_items_inv _ _ _ _ _ _ E) as [Hm' _].
    rewrite (decode_str_append data extra offset k o1 Ho ltac:(lia) Ek).
    cbn [bind].
    rewrite (decode_str_append data extra o1 v o2 ltac:(lia) ltac:(lia) Ev).
    cbn [bind].
    exact (IH data extra o2 _ d' offset' ltac:(lia) Hin E).
Qed.

Lemma unpack_f_append (data extra : bytes) (offset : Z) (x : spec_float) :
  0 <= offset ->
  unpack_f data offset = Ok x -> unpack_f (data ++ extra) offset = Ok x.
Proof.
  intros Ho. unfold unpack_f.
  destruct (read 4 data offset) as [bs|] eqn:E; [|discriminate].
  rewrite (read_append 4 data extra offset bs Ho E). auto.
Qed.

Lemma unpack_d_append (data extra : bytes) (offset : Z) (x : spec_float) :
  0 <= offset ->
  unpack_d data offset = Ok x -> unpack_d (data ++ extra) offset = Ok x.
Proof.
  intros Ho. unfold unpack_d.
  destruct (read 8 data offset) as [bs|] eqn:E; [|discriminate].
  rewrite (read_append 8 data extra offset bs Ho E). auto.
Qed.

Lemma unpack_bool_append (data extra : bytes) (offset : Z) (b : bool) :
  0 <= offset ->
  unpack_bool data offset = Ok b -> unpack_bool (data ++ extra) offset = Ok b.
Proof.
  intros Ho. unfold unpack_bool.
  destruct (read 1 data offset) as [bs|] eqn:E; [|discriminate].
  rewrite (read_append 1 data extra offset bs Ho E). auto.
Qed.

Lemma read_floats_inv (n : nat) :
  forall data offset l offset',
    read_floats n data offset = Ok (l, offset') ->
    offset' = offset + 4 * Z.of_nat n
    /\ (n <> O -> offset' <= len data).
Proof.
  induction n as [|n IH]; intros data offset l offset' E.
  - cbn in E. injection E as <- <-. split; [lia|congruence].
  - cbn [read_floats] in E.
    destruct (unpack_f data offset) as [x|] eqn:Ex; [|discriminate E].
    cbn [bind] in E.
    destruct (read_floats n data (offset + 4)) as [[rest o2]|] eqn:Er;
      [|discriminate E].
    cbn [bind] in E. injection E as <- <-.
    destruct (IH _ _ _ _ Er) as [-> Hb'].
    split; [lia|]. intros _. destruct n as [|n].
    + unfold unpack_f in Ex.
      destruct (read 4 data offset) as [bs|] eqn:Eb; [|discriminate Ex].
      apply read_inv in Eb. lia.
    + apply Hb'. congruence.
Qed.

Lemma read_floats_append (n : nat) :
  forall data extra offset l offset',
    0 <= offset ->
    read_floats n data offset = Ok (l, offset') ->
    read_floats n (data ++ extra) offset = Ok (l, offset').
Proof.
  induction n as [|n IH]; intros data extra offset l offset' Ho E.
  - exact E.
  - cbn [read_floats] in *.
    destruct (unpack_f data offset) as [x|] eqn:Ex; [|discriminate E].
    cbn [bind] in E.
    destruct (read_floats n data (offset + 4)) as [[rest o2]|] eqn:Er;
      [|discriminate E].
    rewrite (unpack_f_append _ extra _ _ Ho Ex). cbn [bind].
    rewrite (IH data extra (offset + 4) rest o2 ltac:(lia) Er). exact E.
Qed.

(** A counted field: the offset moves past the count at least, and the
    count was inside the buffer. *)
Lemma decode_list_str_inv (data : bytes) (offset : Z)
  (t : option (list (option str))) (offset' : Z) :
  decode_list_str data offset = Ok (t, offset') ->
  offset + 4 <= len data /\ offset + 4 <= offset'.
Proof.
  unfold decode_list_str.
  destruct (unpack_I data offset) as [n|] eqn:En; [|discriminate].
  cbn [bind]. pose proof (unpack_I_inv _ _ _ En) as [Hb Hn]. intros E.
  split; [exact Hb|].
  destruct (n =? sentinel); [injection E as <- <-; lia|].
  destruct (read_strs (Z.to_nat n) data (offset + 4)) as [[l o]|] eqn:Er;
    [|discriminate E].
  cbn [bind] in E. injection E as <- <-.
  destruct (read_strs_inv _ _ _ _ _ Er). lia.
Qed.

Lemma decode_list_str_append (data extra : bytes) (offset : Z)
  (t : option (list (option str))) (offset' : Z) :
  0 <= offset -> offset' <= len data ->
  decode_list_str data offset = Ok (t, offset') ->
  decode_list_str (data ++ extra) offset = Ok (t, offset').
Proof.
  intros Ho Hin. unfold decode_list_str.
  destruct (unpack_I data offset) as [n|] eqn:En; [|discriminate].
  rewrite (unpack_I_append _ extra _ _ Ho En). cbn [bind].
  destruct (n =? sentinel); [auto|].
  destruct (read_strs (Z.to_nat n) data (offset + 4)) as [[l o]|] eqn:Er;
    [|discriminate].
  cbn [bind]. intros E. injection E as <- <-.
  rewrite (read_strs_append _ data extra (offset + 4) l o ltac:(lia) Hin Er).
  reflexivity.
Qed.

Lemma decode_dict_inv (data : bytes) (offset : Z)
  (t : option (list (option str * value))) (offset' : Z) :
  decode_dict data offset = Ok (t, offset') ->
  offset + 4 <= len data /\ offset + 4 <= offset'.
Proof.
  unfold decode_dict.
  destruct (unpack_I data offset) as [n|] eqn:En; [|discriminate].
  cbn [bind]. pose proof (unpack_I_inv _ _ _ En) as [Hb Hn]. intros E.
  split; [exact Hb|].
  destruct (n =? sentinel); [injection E as <- <-; lia|].
  destruct (read_items (Z.to_nat n) data (offset + 4) []) as [[l o]|] eqn:Er;
    [|discriminate E].
  cbn [bind] in E. injection E as <- <-.
  destruct (read_items_inv _ _ _ _ _ _ Er). lia.
Qed.

Lemma decode_dict_append (data extra : bytes) (offset : Z)
  (t : option (list (option str * value))) (offset' : Z) :
  0 <= offset -> offset' <= len data ->
  decode_dict data offset = Ok (t, offset') ->
  decode_dict (data ++ extra) offset = Ok (t, offset').
Proof.
  intros Ho Hin. unfold decode_dict.
  destruct (unpack_I data offset) as [n|] eqn:En; [|discriminate].
  rewrite (unpack_I_append _ extra _ _ Ho En). cbn [bind].
  destruct (n =? sentinel); [auto|].
  destruct (read_items (Z.to_nat n) data (offset + 4) []) as [[l o]|] eqn:Er;
    [|discriminate].
  cbn [bind]. intros E. injection E as <- <-.
  rewrite (read_items_append _ data extra (offset + 4) [] l o
             ltac:(lia) Hin Er).
  reflexivity.
Qed.

Lemma decode_embedding_inv (data : bytes) (offset : Z)
  (t : option (list spec_float)) (offset' : Z) :
  decode_embedding data offset = Ok (t, offset') ->
  offset + 4 <= len data /\ offset + 4 <= offset'.
Proof.
  unfold decode_embedding.
  destruct (unpack_I data offset) as [n|] eqn:En; [|discriminate].
  cbn [bind]. pose proof (unpack_I_inv _ _ _ En) as [Hb Hn]. intros E.
  split; [exact Hb|].
  destruct (n =? sentinel); [injection E as <- <-; lia|].
  destruct (read_floats (Z.to_nat n) data (offset + 4)) as [[l o]|] eqn:Er;
    [|discriminate E].
  cbn [bind] in E. injection E as <- <-.
  destruct (read_floats_inv _ _ _ _ _ Er). lia.
Qed.

Lemma decode_embedding_append (data extra : bytes) (offset : Z)
  (t : option (list spec_float)) (offset' : Z) :
  0 <= offset ->
  decode_embedding data offset = Ok (t, offset') ->
  decode_embedding (data ++ extra) offset = Ok (t, offset').
Proof.
  intros Ho. unfold decode_embedding.
  destruct (unpack_I data offset) as [n|] eqn:En; [|discriminate].
  rewrite (unpack_I_append _ extra _ _ Ho En). cbn [bind].
  destruct (n =? sentinel); [auto|].
  destruct (read_floats (Z.to_nat n) data (offset + 4)) as [[l o]|] eqn:Er;
    [|discriminate].
  cbn [bind]. intros E. injection E as <- <-.
  rewrite (read_floats_append _ data extra (offset + 4) l o ltac:(lia) Er).
  reflexivity.
Qed.

Lemma unpack_bool_inv (data : bytes) (offset : Z) (b : bool) :
  unpack_bool data offset = Ok b -> offset + 1 <= len data.
Proof.
  unfold unpack_bool.
  destruct (read 1 data offset) as [bs|] eqn:E; [|discriminate].
  intros _. apply read_inv in E. tauto.
Qed.

(** X3. A payload from which [deserialize_mem] builds a record was read
    entirely inside itself: the last offset reached lies before its end,
    and the same record is built when any bytes follow the payload.  So a
    declared length that runs past the end of the payload never yields a
    record there: the read that follows it raises. *)
Theorem payload_fields_end_inside (raw : bytes) (m : mem) (idx : Z) :
  decode_fields raw = Ok (m, idx) ->
  0 <= idx < len raw
  /\ forall extra, decode_fields (raw ++ extra) = Ok (m, idx).
Proof.
  unfold decode_fields. cbv zeta. intros E.
  destruct (decode_str raw 0) as [[f1 o1]|] eqn:E1; [|discriminate E].
  cbn [bind] in E.
  destruct (decode_str raw o1) as [[f2 o2]|] eqn:E2; [|discriminate E].
  cbn [bind] in E.
  destruct (decode_list_str raw o2) as [[f3 o3]|] eqn:E3; [|discriminate E].
  cbn [bind] in E.
  destruct (decode_dict raw o3) as [[f4 o4]|] eqn:E4; [|discriminate E].
  cbn [bind] in E.
  destruct (unpack_f raw o4) as [f5|] eqn:E5; [|discriminate E].
  cbn [bind] in E.
  destruct (unpack_d raw (o4 + 4)) as [f6|] eqn:E6; [|discriminate E].
  cbn [bind] in E.
  destruct (unpack_d raw (o4 + 4 + 8)) as [f7|] eqn:E7; [|discriminate E].
  cbn [bind] in E.
  destruct (decode_str raw (o4 + 4 + 8 + 8)) as [[f8 o8]|] eqn:E8;
    [|discriminate E].
  cbn [bind] in E.
  destruct (decode_embedding raw o8) as [[f9 o9]|] eqn:E9; [|discriminate E].
  cbn [bind] in E.
  destruct (unpack_bool raw o9) as [f10|] eqn:E10; [|discriminate E].
  cbn [bind] in E. injection E as <- <-.
  destruct (decode_str_inv _ _ _ _ E1) as (? & _ & _ & H1 & _).
  destruct (decode_str_inv _ _ _ _ E2) as (? & _ & _ & H2 & _).
  destruct (decode_list_str_inv _ _ _ _ E3) as [_ H3].
  destruct (decode_dict_inv _ _ _ _ E4) as [_ H4].
  destruct (decode_str_inv _ _ _ _ E8) as (? & _ & _ & H8 & _).
  destruct (decode_embedding_inv _ _ _ _ E9) as [_ H9].
  pose proof (unpack_bool_inv _ _ _ E10) as H10.
  split; [lia|]. intros extra.
  rewrite (decode_str_append raw extra 0 f1 o1 ltac:(lia) ltac:(lia) E1).
  cbn [bind].
  rewrite (decode_str_append raw extra o1 f2 o2 ltac:(lia) ltac:(lia) E2).
  cbn [bind].
  rewrite (decode_list_str_append raw extra o2 f3 o3
             ltac:(lia) ltac:(lia) E3).
  cbn [bind].
  rewrite (decode_dict_append raw extra o3 f4 o4 ltac:(lia) ltac:(lia) E4).
  cbn [bind].
  rewrite (unpack_f_append raw extra o4 f5 ltac:(lia) E5). cbn [bind].
  rewrite (unpack_d_append raw extra (o4 + 4) f6 ltac:(lia) E6). cbn [bind].
  rewrite (unpack_d_append raw extra (o4 + 4 + 8) f7 ltac:(lia) E7).
  cbn [bind].
  rewrite (decode_str_append raw extra (o4 + 4 + 8 + 8) f8 o8
             ltac:(lia) ltac:(lia) E8).
  cbn [bind].
  rewrite (decode_embedding_append raw extra o8 f9 o9 ltac:(lia) E9).
  cbn [bind].
  rewrite (unpack_bool_append raw extra o9 f10 ltac:(lia) E10).
  reflexivity.
Qed.

(** X4. [decode_str] does not compare the length it reads with what is
    left: when the declared end lies past the buffer it returns the bytes
    that are left as the string, and an offset past the end. *)
Theorem decode_str_overrun_returns_tail (data : bytes) (offset n : Z)
  (s : str) :
  0 <= offset ->
  unpack_I data offset = Ok n ->
  n <> sentinel ->
  len data < offset + 4 + n ->
  Utf8.decode (skipn (Z.to_nat (offset + 4)) data) = Ok s ->
  decode_str data offset = Ok (Some s, offset + 4 + n)
  /\ len data < offset + 4 + n.
Proof.
  intros Ho En Hne Hover Es. split; [|exact Hover].
  unfold decode_str. rewrite En. cbn [bind].
  destruct (Z.eqb_spec n sentinel); [contradiction|].
  pose proof (unpack_I_inv _ _ _ En) as [Hb _].
  assert (Hs : slice data (offset + 4) (offset + 4 + n)
               = skipn (Z.to_nat (offset + 4)) data).
  { unfold slice. cbv zeta.
    rewrite (Z.min_l (offset + 4) (len data)) by lia.
    rewrite (Z.min_r (offset + 4 + n) (len data)) by lia.
    apply firstn_all2. rewrite length_skipn. unfold len. lia. }
  rewrite Hs, Es. reflexivity.
Qed.

Lemma decode_str_overrun_returns_tail_witness :
  decode_str (map of_Z [5; 0; 0; 0; 97; 98]) 0
  = Ok (Some (Utf8.of_string "ab"), 9)
  /\ len (map of_Z [5; 0; 0; 0; 97; 98]) < 9.
Proof.
  apply (decode_str_overrun_returns_tail
           (map of_Z [5; 0; 0; 0; 97; 98]) 0 5 (Utf8.of_string "ab"));
    try (vm_compute; reflexivity); try lia.
  vm_compute. discriminate.
Defined.

Definition note_exact_raw : bytes :=
  Eval vm_compute in
    match encode_fields note_exact with
    | Ok b => b
    | Raise _ => []
    end.

Lemma payload_fields_end_inside_witness :
  0 <= 93 < len note_exact_raw
  /\ forall extra, decode_fields (note_exact_raw ++ extra) = Ok (note_exact, 93).
Proof.
  apply (payload_fields_end_inside note_exact_raw note_exact 93).
  vm_compute. reflexivity.
Defined.

(** *** Records in a stream *)

Section Streams.

Variable compress : bytes -> bytes.
Variable decompress : bytes -> result bytes.

Lemma deserialize_mem_inv (data : bytes) (offset : Z) (m : mem)
  (offset' : Z) :
  deserialize_mem decompress data offset = Ok (m, offset') ->
  exists n raw idx,
    unpack_I data offset = Ok n /\ 0 <= n
    /\ offset + 4 <= len data /\ offset' = offset + 4 + n
    /\ decompress (slice data (offset + 4) offset') = Ok raw
    /\ decode_fields raw = Ok (m, idx).
Proof.
  unfold deserialize_mem.
  destruct (unpack_I data offset) as [n|] eqn:En; [|discriminate].
  cbn [bind]. pose proof (unpack_I_inv _ _ _ En) as [Hb Hn].
  destruct (decompress (slice data (offset + 4) (offset + 4 + n)))
    as [raw|] eqn:Ez; [|discriminate].
  cbn [bind].
  destruct (decode_fields raw) as [[m' idx]|] eqn:Ef; [|discriminate].
  cbn [bind]. intros E. injection E as <- <-.
  exists n, raw, idx. auto 10.
Qed.

(** X5. With fewer than four bytes left at the offset (an empty or cut
    buffer) every decoder, and [deserialize_mem], raises [struct.error]. *)
Theorem decoders_need_four_bytes (data : bytes) (offset : Z) :
  len data < offset + 4 ->
  decode_str data offset = Raise StructError
  /\ decode_list_str data offset = Raise StructError
  /\ decode_dict data offset = Raise StructError
  /\ decode_embedding data offset = Raise StructError
  /\ deserialize_mem decompress data offset = Raise StructError.
Proof.
  intros H.
  unfold decode_str, decode_list_str, decode_dict, decode_embedding,
    deserialize_mem.
  rewrite (unpack_I_short data offset H). cbn [bind]. auto.
Qed.

(** X6. A record that [deserialize_mem] reads and that ends inside the
    buffer is read the same, with the same end, whatever bytes follow the
    buffer: a record in a stream does not depend on the records after it. *)
Theorem record_ends_where_its_header_says (data : bytes) (offset : Z)
  (m : mem) (offset' : Z) :
  0 <= offset ->
  offset' <= len data ->
  deserialize_mem decompress data offset = Ok (m, offset') ->
  forall extra,
    deserialize_mem decompress (data ++ extra) offset = Ok (m, offset').
Proof.
  intros Ho Hin E extra.
  destruct (deserialize_mem_inv _ _ _ _ E)
    as (n & raw & idx & En & Hn & Hb & -> & Ez & Ef).
  unfold deserialize_mem.
  rewrite (unpack_I_append _ extra _ _ Ho En). cbn [bind].
  rewrite slice_append by lia. rewrite Ez. cbn [bind].
  rewrite Ef. reflexivity.
Qed.

(** X7. The four-byte header is not compared with what follows it: when
    it declares more bytes than the buffer holds, and the bytes that are
    there decompress to a payload that decodes, [deserialize_mem] returns
    the record, and an offset past the end of the buffer. *)
Theorem header_overrun_is_accepted (hdr c raw : bytes) (n : Z) (m : mem)
  (idx : Z) :
  pack_I n = Ok hdr ->
  len c <= n ->
  decompress c = Ok raw ->
  decode_fields raw = Ok (m, idx) ->
  deserialize_mem decompress (hdr ++ c) 0 = Ok (m, 4 + n)
  /\ len (hdr ++ c) <= 4 + n.
Proof.
  intros Eh Hn Ez Ef.
  pose proof (pack_I_len _ _ Eh) as Lh.
  split; [|rewrite len_app; lia].
  unfold deserialize_mem.
  pose proof (unpack_pack_I n hdr [] c Eh) as Hu.
  cbn [app] in Hu. change (len []) with 0 in Hu. rewrite Hu. cbn [bind].
  assert (Hs : slice (hdr ++ c) (0 + 4) (0 + 4 + n) = c).
  { unfold slice. cbv zeta. rewrite len_app, Lh.
    pose proof (len_nonneg c).
    rewrite (Z.min_l (0 + 4) (4 + len c)) by lia.
    rewrite (Z.min_r (0 + 4 + n) (4 + len c)) by lia.
    rewrite skipn_app.
    replace (Z.to_nat (0 + 4)) with (length hdr) by (unfold len in Lh; lia).
    rewrite skipn_all, Nat.sub_diag. cbn [skipn app].
    apply firstn_all2. unfold len. lia. }
  rewrite Hs, Ez. cbn [bind]. rewrite Ef. reflexivity.
Qed.

(** The loop of [load_mems_from_file] ends: a round moves on by four
    bytes at least, so the rounds the model allows are never used up. *)
Lemma load_loop_runs (fuel : nat) :
  forall data offset,
    len data - offset <= Z.of_nat fuel ->
    load_loop decompress fuel data offset <> None.
Proof.
  induction fuel as [|fuel IH]; intros data offset Hf.
  - cbn [load_loop]. destruct (Z.ltb_spec offset (len data)); [lia|].
    discriminate.
  - cbn [load_loop]. destruct (Z.ltb_spec offset (len data)); [|discriminate].
    destruct (deserialize_mem decompress data offset) as [[m o']|] eqn:E;
      [|discriminate].
    destruct (deserialize_mem_inv _ _ _ _ E) as (n & _ & _ & _ & Hn & _ & -> & _).
    assert (Hf' : len data - (offset + 4 + n) <= Z.of_nat fuel) by lia.
    specialize (IH data (offset + 4 + n) Hf').
    destruct (load_loop decompress fuel data (offset + 4 + n)) as [[?|?]|];
      congruence.
Qed.

Lemma serialize_mem_len (r : mem) (b : bytes) :
  serialize_mem compress r = Ok b -> 4 <= len b.
Proof.
  intros E. apply serialize_mem_inv in E.
  destruct E as (raw & hdr & _ & Eh & ->).
  rewrite len_app, (pack_I_len _ _ Eh).
  pose proof (len_nonneg (compress raw)). lia.
Qed.

(** A record the store can write and read back. *)
Definition storable (r : mem) : Prop :=
  valid r = true
  /\ forall raw, encode_fields r = Ok raw -> decompress (compress raw) = Ok raw.

(** Records written one after the other are read one after the other;
    the loop then goes on with what follows them. *)
Lemma load_loop_serialized (mems : list mem) :
  forall bs pre tail k,
    Forall storable mems ->
    mapM (serialize_mem compress) mems = Ok bs ->
    load_loop decompress (length mems + k) (pre ++ concat bs ++ tail) (len pre)
    = match load_loop decompress k (pre ++ concat bs ++ tail)
              (len pre + len (concat bs)) with
      | Some (Ok rest) => Some (Ok (map stored mems ++ rest))
      | other => other
      end.
Proof.
  induction mems as [|r mems IH]; intros bs pre tail k Hs E.
  - injection E as <-. cbn [length concat app map Nat.add].
    change (len []) with 0. rewrite Z.add_0_r.
    destruct (load_loop decompress k (pre ++ tail) (len pre)) as [[?|?]|];
      reflexivity.
  - apply mapM_cons_inv in E. destruct E as (b & bs' & Eb & El & ->).
    inversion Hs as [|? ? [Hv Hz] Hs']; subst.
    cbn [length Nat.add load_loop concat map].
    pose proof (serialize_mem_len r b Eb) as Lb.
    rewrite !len_app. pose proof (len_nonneg (concat bs')).
    pose proof (len_nonneg tail).
    destruct (Z.ltb_spec (len pre) (len pre + (len b + len (concat bs')
                                               + len tail))); [|lia].
    rewrite <- (app_assoc b).
    rewrite (reads_serialized compress decompress r b Hv Hz Eb pre _).
    rewrite (app_assoc pre b), <- len_app.
    rewrite (IH bs' (pre ++ b) tail k Hs' El).
    rewrite !len_app. rewrite Z.add_assoc.
    destruct (load_loop decompress k ((pre ++ b) ++ concat bs' ++ tail)
                (len pre + len b + len (concat bs'))) as [[?|?]|];
      reflexivity.
Qed.

Lemma write_mems_ok (mems : list mem) :
  forall written data,
    write_mems compress mems written = (data, Ok tt) ->
    exists bs, mapM (serialize_mem compress) mems = Ok bs
               /\ data = written ++ concat bs.
Proof.
  induction mems as [|r mems IH]; intros written data E.
  - cbn in E. injection E as <-. exists []. cbn. rewrite app_nil_r. auto.
  - cbn [write_mems] in E.
    destruct (serialize_mem compress r) as [b|] eqn:Eb; [|discriminate E].
    destruct (IH _ _ E) as (bs & El & ->).
    exists (b :: bs). cbn [mapM]. rewrite Eb, El. cbn [bind concat].
    rewrite app_assoc. auto.
Qed.

Lemma mapM_length {A B} (f : A -> result B) (l : list A) (ys : list B) :
  mapM f l = Ok ys -> length ys = length l.
Proof.
  revert ys. induction l as [|x l IH]; intros ys E.
  - injection E as <-. reflexivity.
  - apply mapM_cons_inv in E. destruct E as (y & ys' & _ & El & ->).
    cbn [length]. rewrite (IH ys' El). reflexivity.
Qed.

Lemma serialized_count (mems : list mem) (bs : list bytes) :
  mapM (serialize_mem compress) mems = Ok bs ->
  (length mems <= length (concat bs))%nat.
Proof.
  revert bs. induction mems as [|r mems IH]; intros bs E.
  - cbn. lia.
  - apply mapM_cons_inv in E. destruct E as (b & bs' & Eb & El & ->).
    cbn [concat length]. rewrite length_app.
    pose proof (serialize_mem_len r b Eb) as Lb. unfold len in Lb.
    specialize (IH bs' El). lia.
Qed.

(** X8. The records [save_mems_to_file] wrote are the records
    [load_mems_from_file] reads, in order and each as [deserialize_mem]
    gives it back; an empty list gives an empty file and back. *)
Theorem save_then_load (mems : list mem) (data : bytes) :
  Forall storable mems ->
  save_mems_to_file compress mems = (data, Ok tt) ->
  load_mems_from_file decompress data = Some (Ok (map stored mems)).
Proof.
  intros Hs E. unfold save_mems_to_file in E.
  destruct (write_mems_ok _ _ _ E) as (bs & El & ->). cbn [app].
  unfold load_mems_from_file.
  pose proof (serialized_count mems bs El) as Hc.
  replace (length (concat bs))
    with (length mems + (length (concat bs) - length mems))%nat by lia.
  pose proof (load_loop_serialized mems bs [] []
                (length (concat bs) - length mems) Hs El) as H.
  cbn [app] in H. rewrite app_nil_r in H. change (len []) with 0 in H.
  rewrite H. clear H. rewrite Z.add_0_l.
  assert (Hend : forall k, load_loop decompress k (concat bs)
                             (len (concat bs)) = Some (Ok [])).
  { intros [|k]; cbn [load_loop];
      destruct (Z.ltb_spec (len (concat bs)) (len (concat bs)));
      try lia; reflexivity. }
  rewrite Hend, app_nil_r. reflexivity.
Qed.

(** X9. One to three stray bytes after the last record make
    [load_mems_from_file] raise [struct.error]: the records read before
    them are not returned. *)
Theorem stray_bytes_fail_the_load (mems : list mem) (data junk : bytes) :
  Forall storable mems ->
  save_mems_to_file compress mems = (data, Ok tt) ->
  0 < len junk < 4 ->
  load_mems_from_file decompress (data ++ junk) = Some (Raise StructError).
Proof.
  intros Hs E Hj. unfold save_mems_to_file in E.
  destruct (write_mems_ok _ _ _ E) as (bs & El & ->). cbn [app].
  unfold load_mems_from_file.
  pose proof (serialized_count mems bs El) as Hc.
  assert (Hjl : (1 <= length junk)%nat) by (unfold len in Hj; lia).
  rewrite length_app.
  replace (length (concat bs) + length junk)%nat
    with (length mems
          + S (length (concat bs) + length junk - length mems - 1))%nat
    by lia.
  pose proof (load_loop_serialized mems bs [] junk
                (S (length (concat bs) + length junk - length mems - 1))
                Hs El) as H.
  cbn [app] in H. change (len []) with 0 in H.
  rewrite H. clear H. rewrite Z.add_0_l.
  cbn [load_loop]. rewrite len_app.
  destruct (Z.ltb_spec (len (concat bs)) (len (concat bs) + len junk));
    [|lia].
  unfold deserialize_mem.
  rewrite unpack_I_short by (rewrite len_app; lia).
  reflexivity.
Qed.

(** X10. [load_mem_from_file] reads the first record of the file and
    nothing of what follows it. *)
Theorem load_mem_reads_first_record (r : mem) (data rest : bytes) :
  storable r ->
  save_mem_to_file compress r = Ok data ->
  load_mem_from_file decompress (data ++ rest) = Ok (stored r).
Proof.
  intros [Hv Hz] E. unfold load_mem_from_file, save_mem_to_file in *.
  pose proof (reads_serialized compress decompress r data Hv Hz E [] rest)
    as H.
  cbn [app] in H. change (len []) with 0 in H. rewrite H. reflexivity.
Qed.

(** X11. An importance that is finite as a double but beyond the binary32
    range makes [serialize_mem] raise [OverflowError], once the four fields
    before it are encoded. *)
Theorem importance_overflow_raises (r : mem) (p1 p2 p3 p4 : bytes) :
  encode_str (id r) = Ok p1 ->
  encode_str (content r) = Ok p2 ->
  encode_list_str (tags r) = Ok p3 ->
  encode_dict (metadata r) = Ok p4 ->
  IEEE.overflows32 (importance r) = true ->
  serialize_mem compress r = Raise OverflowError.
Proof.
  intros E1 E2 E3 E4 Ho. unfold serialize_mem, encode_fields.
  rewrite E1, E2, E3, E4. cbn [bind]. unfold pack_f. rewrite Ho.
  reflexivity.
Qed.

(** X12. [save_mems_to_file] stops at the first record that does not
    serialize: the exception goes to the caller and the file keeps the
    records written before it, none of those after. *)
Theorem save_stops_at_first_failure (good : list mem) (bad : mem)
  (rest : list mem) (bs : list bytes) (e : pyerr) :
  mapM (serialize_mem compress) good = Ok bs ->
  serialize_mem compress bad = Raise e ->
  save_mems_to_file compress (good ++ bad :: rest) = (concat bs, Raise e).
Proof.
  intros Eg Eb. unfold save_mems_to_file.
  assert (H : forall written,
             write_mems compress (good ++ bad :: rest) written
             = (written ++ concat bs, Raise e)).
  { revert bs Eg. induction good as [|g good IH]; intros bs Eg written.
    - injection Eg as <-. cbn [app write_mems concat]. rewrite Eb, app_nil_r.
      reflexivity.
    - apply mapM_cons_inv in Eg. destruct Eg as (b & bs' & Egb & El & ->).
      cbn [app write_mems concat]. rewrite Egb, (IH bs' El).
      rewrite app_assoc. reflexivity. }
  rewrite H. reflexivity.
Qed.

End Streams.

(** The two worked records in one file. *)
Definition notes_file : bytes :=
  Eval vm_compute in
    fst (save_mems_to_file Zlib.compress [note_lossy; note_exact]).

(** [note_exact] with an importance of 1e39. *)
Definition note_huge : mem :=
  mkMem (id note_exact) (content note_exact) (tags note_exact)
        (metadata note_exact) (F64.of_Z (10 ^ 39))
        (created_at note_exact) (updated_at note_exact)
        (source note_exact) (embedding note_exact) (encrypted note_exact).

Ltac storable_by_evaluation :=
  split;
  [ vm_compute; reflexivity
  | let raw := fresh "raw" in
    let E := fresh "E" in
    intros raw E; vm_compute in E; injection E as <-; vm_compute;
    reflexivity ].

Lemma decoders_need_four_bytes_witness :
  decode_str [] 0 = Raise StructError
  /\ decode_list_str [] 0 = Raise StructError
  /\ decode_dict [] 0 = Raise StructError
  /\ decode_embedding [] 0 = Raise StructError
  /\ deserialize_mem Zlib.decompress [] 0 = Raise StructError.
Proof.
  apply (decoders_need_four_bytes Zlib.decompress [] 0).
  vm_compute. reflexivity.
Defined.

Lemma record_ends_where_its_header_says_witness :
  109 <= len note_exact_bytes
  /\ forall extra,
       deserialize_mem Zlib.decompress (note_exact_bytes ++ extra) 0
       = Ok (note_exact, 109).
Proof.
  split; [vm_compute; discriminate|].
  apply (record_ends_where_its_header_says Zlib.decompress
           note_exact_bytes 0 note_exact 109).
  - lia.
  - vm_compute. discriminate.
  - vm_compute. reflexivity.
Defined.

Lemma header_overrun_is_accepted_witness :
  deserialize_mem Zlib.decompress
    (le_encode 4 205 ++ skipn 4 note_exact_bytes) 0
  = Ok (note_exact, 209)
  /\ len (le_encode 4 205 ++ skipn 4 note_exact_bytes) <= 209.
Proof.
  apply (header_overrun_is_accepted Zlib.decompress
           (le_encode 4 205) (skipn 4 note_exact_bytes) note_exact_raw
           205 note_exact 93).
  - vm_compute. reflexivity.
  - vm_compute. discriminate.
  - vm_compute. reflexivity.
  - vm_compute. reflexivity.
Defined.

Lemma save_then_load_witness :
  load_mems_from_file Zlib.decompress notes_file
  = Some (Ok (map stored [note_lossy; note_exact])).
Proof.
  apply (save_then_load Zlib.compress Zlib.decompress
           [note_lossy; note_exact] notes_file).
  - apply Forall_cons; [storable_by_evaluation|].
    apply Forall_cons; [storable_by_evaluation|]. apply Forall_nil.
  - vm_compute. reflexivity.
Defined.

Lemma stray_bytes_fail_the_load_witness :
  load_mems_from_file Zlib.decompress (notes_file ++ [Byte.x00])
  = Some (Raise StructError).
Proof.
  apply (stray_bytes_fail_the_load Zlib.compress Zlib.decompress
           [note_lossy; note_exact] notes_file [Byte.x00]).
  - apply Forall_cons; [storable_by_evaluation|].
    apply Forall_cons; [storable_by_evaluation|]. apply Forall_nil.
  - vm_compute. reflexivity.
  - vm_compute. split; reflexivity.
Defined.

Lemma load_mem_reads_first_record_witness :
  load_mem_from_file Zlib.decompress (note_exact_bytes ++ note_lossy_bytes)
  = Ok (stored note_exact).
Proof.
  apply (load_mem_reads_first_record Zlib.compress Zlib.decompress
           note_exact note_exact_bytes note_lossy_bytes).
  - storable_by_evaluation.
  - vm_compute. reflexivity.
Defined.

Lemma importance_overflow_raises_witness :
  serialize_mem Zlib.compress note_huge = Raise OverflowError.
Proof.
  apply (importance_overflow_raises Zlib.compress note_huge
           (le_encode 4 2 ++ map of_Z [109; 50])
           (le_encode 4 17
            ++ map of_Z (Utf8.of_string "remember the milk"))
           (le_encode 4 2 ++ (le_encode 4 4 ++ map of_Z (Utf8.of_string "todo"))
            ++ le_encode 4 sentinel)
           (le_encode 4 1 ++ (le_encode 4 1 ++ map of_Z [107])
            ++ le_encode 4 1 ++ map of_Z [118]));
    vm_compute; reflexivity.
Defined.

Lemma save_stops_at_first_failure_witness :
  save_mems_to_file Zlib.compress [note_exact; note_huge; note_lossy]
  = (note_exact_bytes, Raise OverflowError).
Proof.
  apply (save_stops_at_first_failure Zlib.compress
           [note_exact] note_huge [note_lossy] [note_exact_bytes]
           OverflowError).
  - vm_compute. reflexivity.
  - vm_compute. reflexivity.
Defined.

End Mem.

(* ================================================================= *)
(** ** The vectors table ([src/memco/vector_search.py], continued)

    The table is the list of its rows in the order [SELECT] returns them:
    the order of insertion.  [UPDATE] keeps a row in its place. *)

Module VectorStore.

Import F64 VectorSearch.

Section Table.

Variable Meta : Type.

Let row : Type := VectorSearch.row Meta.

Definition has_id (i : string) (r : row) : bool :=
  String.eqb (row_id Meta r) i.

Definition ids (rows : list row) : list string := map (row_id Meta) rows.

(** [UPDATE vectors SET vector = ?, metadata = ? WHERE id = ?], and
    [cursor.rowcount > 0]. *)
Definition update_vector (rows : list row) (i : string) (v : list float)
  (m : Meta) : list row * bool :=
  if existsb (has_id i) rows
  then (map (fun r => if has_id i r then mkRow i v m else r) rows, true)
  else (rows, false).

(** [DELETE FROM vectors WHERE id = ?], and [cursor.rowcount > 0]. *)
Definition delete_vector (rows : list row) (i : string) : list row * bool :=
  if existsb (has_id i) rows
  then (filter (fun r => negb (has_id i r)) rows, true)
  else (rows, false).

(** [SELECT * FROM vectors WHERE id = ?], and [fetchone()]. *)
Definition get_vector (rows : list row) (i : string) : option row :=
  find (has_id i) rows.

Lemma get_vector_none (rows : list row) (i : string) :
  get_vector rows i = None <-> existsb (has_id i) rows = false.
Proof.
  unfold get_vector. induction rows as [|r rows IH]; cbn [find existsb].
  - tauto.
  - destruct (has_id i r); cbn [orb]; [split; discriminate | exact IH].
Qed.

Lemma get_vector_app (rows more : list row) (i : string) :
  get_vector (rows ++ more) i =
    match get_vector rows i with
    | Some r => Some r
    | None => get_vector more i
    end.
Proof.
  unfold get_vector. induction rows as [|r rows IH]; cbn [app find].
  - reflexivity.
  - destruct (has_id i r); [reflexivity | exact IH].
Qed.

Lemma has_id_other (i j : string) (v : list float) (m : Meta) :
  j <> i -> has_id j (mkRow i v m) = false.
Proof.
  intros H. unfold has_id. cbn. apply String.eqb_neq. congruence.
Qed.

Lemma has_id_eq (i : string) (r : row) : has_id i r = true -> row_id Meta r = i.
Proof. apply String.eqb_eq. Qed.

Lemma add_vector_has_id (rows : list row) (i : string) (v : list float)
  (m : Meta) :
  add_vector Meta rows i v m =
    if existsb (has_id i) rows then (rows, false)
    else (rows ++ [mkRow i v m], true).
Proof. reflexivity. Qed.

(** X13. [add_vector] under a new id appends the row, which [get_vector]
    then returns; under an id already stored it returns [False] and leaves
    the table as it was (the stored vector is not replaced); in both cases
    every other id reads as before, and ids stay distinct. *)
Theorem add_vector_inserts_once (rows : list row) (i : string)
  (v : list float) (m : Meta) :
  (get_vector rows i = None ->
     add_vector Meta rows i v m = (rows ++ [mkRow i v m], true)
     /\ get_vector (fst (add_vector Meta rows i v m)) i = Some (mkRow i v m))
  /\ (forall r, get_vector rows i = Some r ->
        add_vector Meta rows i v m = (rows, false))
  /\ (forall j, j <> i ->
        get_vector (fst (add_vector Meta rows i v m)) j = get_vector rows j)
  /\ (NoDup (ids rows) -> NoDup (ids (fst (add_vector Meta rows i v m)))).
Proof.
  rewrite add_vector_has_id.
  destruct (existsb (has_id i) rows) eqn:E.
  - split.
    { intros H. apply get_vector_none in H. congruence. }
    split; [reflexivity|]. split; [reflexivity|]. cbn [fst]. auto.
  - split.
    { intros H. split; [reflexivity|]. cbn [fst].
      rewrite get_vector_app, H. unfold get_vector. cbn [find].
      unfold has_id. cbn. rewrite String.eqb_refl. reflexivity. }
    split.
    { intros r H. apply get_vector_none in E. congruence. }
    split.
    { intros j Hj. cbn [fst]. rewrite get_vector_app.
      destruct (get_vector rows j); [reflexivity|].
      unfold get_vector. cbn [find]. rewrite has_id_other by exact Hj.
      reflexivity. }
    intros Hn. cbn [fst]. unfold ids. rewrite map_app. cbn [map].
    apply NoDup_app.
    + exact Hn.
    + repeat constructor. intros [].
    + intros x Hin [Hx|[]]. cbn in Hx. subst x.
      assert (Hex : existsb (has_id i) rows = true).
      { apply existsb_exists. apply in_map_iff in Hin.
        destruct Hin as (r & Hr & Hin). exists r. split; [exact Hin|].
        unfold has_id. rewrite Hr. apply String.eqb_refl. }
      congruence.
Qed.

Lemma get_vector_update (rows : list row) (i j : string) (v : list float)
  (m : Meta) :
  get_vector (map (fun r => if has_id i r then mkRow i v m else r) rows) j =
    if String.eqb i j
    then match get_vector rows i with
         | Some _ => Some (mkRow i v m)
         | None => None
         end
    else get_vector rows j.
Proof.
  unfold get_vector. induction rows as [|r rows IH]; cbn [map find].
  - destruct (String.eqb i j); reflexivity.
  - destruct (String.eqb_spec i j) as [Heq|Hne]; [subst j|].
    + destruct (has_id i r) eqn:Er.
      * unfold has_id at 1. cbn. rewrite String.eqb_refl. reflexivity.
      * rewrite Er. exact IH.
    + destruct (has_id i r) eqn:Er.
      * rewrite has_id_other by congruence.
        apply has_id_eq in Er.
        assert (Hj : has_id j r = false).
        { unfold has_id. apply String.eqb_neq. congruence. }
        rewrite Hj. exact IH.
      * destruct (has_id j r); [reflexivity | exact IH].
Qed.

Lemma ids_update (rows : list row) (i : string) (v : list float) (m : Meta) :
  ids (map (fun r => if has_id i r then mkRow i v m else r) rows) = ids rows.
Proof.
  unfold ids. rewrite map_map. apply map_ext_in. intros r _.
  destruct (has_id i r) eqn:E; [|reflexivity].
  apply has_id_eq in E. cbn. congruence.
Qed.

Lemma get_vector_delete (rows : list row) (i j : string) :
  get_vector (filter (fun r => negb (has_id i r)) rows) j =
    if String.eqb i j then None else get_vector rows j.
Proof.
  unfold get_vector. induction rows as [|r rows IH]; cbn [filter find].
  - destruct (String.eqb i j); reflexivity.
  - destruct (has_id i r) eqn:Er; cbn [negb].
    + rewrite IH. destruct (String.eqb_spec i j) as [Heq|Hne];
        [reflexivity|].
      apply has_id_eq in Er.
      assert (Hj : has_id j r = false).
      { unfold has_id. apply String.eqb_neq. congruence. }
      rewrite Hj. reflexivity.
    + cbn [find]. destruct (String.eqb_spec i j) as [Heq|Hne]; [subst j|].
      * rewrite Er, IH. rewrite ?String.eqb_refl. reflexivity.
      * destruct (has_id j r); [reflexivity|].
        rewrite IH. destruct (String.eqb_spec i j); [contradiction|].
        reflexivity.
Qed.

(** X14. [update_vector] and [delete_vector] on an id that is not stored
    return [False] and change nothing.  On a stored id [update_vector]
    replaces vector and metadata where the row stands, so the ids and their
    order are as before, and [delete_vector] removes the row, after which
    [get_vector] finds nothing; every other id reads as before. *)
Theorem update_and_delete_by_id (rows : list row) (i : string)
  (v : list float) (m : Meta) :
  (get_vector rows i = None ->
     update_vector rows i v m = (rows, false)
     /\ delete_vector rows i = (rows, false))
  /\ (forall r, get_vector rows i = Some r ->
        snd (update_vector rows i v m) = true
        /\ get_vector (fst (update_vector rows i v m)) i = Some (mkRow i v m)
        /\ snd (delete_vector rows i) = true)
  /\ ids (fst (update_vector rows i v m)) = ids rows
  /\ get_vector (fst (delete_vector rows i)) i = None
  /\ (forall j, j <> i ->
        get_vector (fst (update_vector rows i v m)) j = get_vector rows j
        /\ get_vector (fst (delete_vector rows i)) j = get_vector rows j).
Proof.
  unfold update_vector, delete_vector.
  destruct (existsb (has_id i) rows) eqn:E; cbn [fst snd].
  - split.
    { intros H. apply get_vector_none in H. congruence. }
    split.
    { intros r H. split; [reflexivity|]. split; [|reflexivity].
      rewrite get_vector_update, String.eqb_refl, H. reflexivity. }
    split; [apply ids_update|].
    split.
    { rewrite get_vector_delete, String.eqb_refl. reflexivity. }
    intros j Hj. rewrite get_vector_update, get_vector_delete.
    destruct (String.eqb_spec i j); [congruence|]. auto.
  - split; [auto|].
    split.
    { intros r H. apply get_vector_none in E. congruence. }
    split; [reflexivity|].
    split; [apply get_vector_none, E|]. auto.
Qed.

(** *** What [search] returns *)

Lemma mapM_in {A B} (f : A -> result B) (l : list A) (ys : list B) :
  mapM f l = Ok ys -> forall y, In y ys -> exists x, In x l /\ f x = Ok y.
Proof.
  revert ys. induction l as [|x l IH]; intros ys E y Hy.
  - injection E as <-. destruct Hy.
  - cbn [mapM] in E. destruct (f x) as [y0|] eqn:Ex; [|discriminate E].
    cbn [bind] in E. destruct (mapM f l) as [ys'|]; [|discriminate E].
    cbn [bind] in E. injection E as <-. destruct Hy as [<-|Hy].
    + exists x. split; [left; reflexivity | exact Ex].
    + destruct (IH ys' eq_refl y Hy) as (x' & Hin & Hx').
      exists x'. split; [right; exact Hin | exact Hx'].
Qed.

Lemma mapM_same_length {A B} (f : A -> result B) (l : list A) (ys : list B) :
  mapM f l = Ok ys -> length ys = length l.
Proof.
  revert ys. induction l as [|x l IH]; intros ys E.
  - injection E as <-. reflexivity.
  - cbn [mapM] in E. destruct (f x) as [y0|]; [|discriminate E].
    cbn [bind] in E. destruct (mapM f l) as [ys'|]; [|discriminate E].
    cbn [bind] in E. injection E as <-. cbn [length].
    rewrite (IH ys' eq_refl). reflexivity.
Qed.

Lemma in_firstn {A} (n : nat) (l : list A) (x : A) :
  In x (firstn n l) -> In x l.
Proof.
  revert l. induction n as [|n IH]; intros l Hx.
  - destruct Hx.
  - destruct l as [|y l]; [destruct Hx|]. cbn [firstn] in Hx.
    destruct Hx as [<-|Hx]; [left; reflexivity | right; exact (IH l Hx)].
Qed.

(** X15. A [search] that succeeds with [top_k >= 0] returns
    [min(top_k, number of rows)] results, and every result is the id and
    metadata of a stored row with the cosine similarity of the query and
    that row's vector as its score. *)
Theorem search_returns_stored_rows (rows : list row) (q : list float)
  (k : Z) (res : list (VectorSearchResult Meta)) :
  0 <= k ->
  search Meta rows q k = Ok res ->
  length res = Nat.min (Z.to_nat k) (length rows)
  /\ forall r, In r res ->
       exists x, In x rows
                 /\ VectorSearch.id Meta r = row_id Meta x
                 /\ VectorSearch.metadata Meta r = row_metadata Meta x
                 /\ _cosine_similarity q (row_vector Meta x)
                    = Ok (score Meta r).
Proof.
  intros Hk E. rewrite search_unfold in E.
  destruct (mapM (score_row Meta q) rows) as [sims|] eqn:Es; [|discriminate E].
  cbn [bind] in E. injection E as <-.
  unfold slice_to. destruct (Z.ltb_spec k 0); [lia|].
  split.
  - rewrite length_map, length_firstn.
    unfold sort_desc. rewrite stable_sort_length.
    rewrite (mapM_same_length _ _ _ Es). reflexivity.
  - intros r Hr. apply in_map_iff in Hr. destruct Hr as (x & <- & Hx).
    apply in_firstn in Hx.
    apply (Permutation_in _ (sort_desc_perm Meta sims)) in Hx.
    destruct (mapM_in _ _ _ Es x Hx) as (rw & Hin & Hrw).
    exists rw. split; [exact Hin|].
    unfold score_row in Hrw.
    destruct (_cosine_similarity q (row_vector Meta rw)) as [s|] eqn:Ec;
      [|discriminate Hrw].
    cbn [bind] in Hrw. injection Hrw as <-. cbn. auto.
Qed.

Lemma dot_from_lengths (a : list float) :
  forall acc b,
    length a <> length b -> dot_from acc a b = Raise ValueError.
Proof.
  induction a as [|x a IH]; intros acc [|y b] H; cbn [dot_from length] in *;
    try reflexivity; try congruence.
  apply IH. congruence.
Qed.

Lemma dot_from_error (a : list float) :
  forall acc b e, dot_from acc a b = Raise e -> e = ValueError.
Proof.
  induction a as [|x a IH]; intros acc [|y b] e H; cbn [dot_from] in H;
    try congruence.
  exact (IH _ _ _ H).
Qed.

Lemma score_row_error (q : list float) (r : row) (e : pyerr) :
  score_row Meta q r = Raise e -> e = ValueError.
Proof.
  unfold score_row, _cosine_similarity, np_dot.
  destruct (np_all_zero q || np_all_zero (row_vector Meta r));
    [discriminate|].
  destruct (dot_from zero q (row_vector Meta r)) as [d|e'] eqn:Ed.
  - discriminate.
  - cbn [bind]. intros H. injection H as <-. exact (dot_from_error _ _ _ _ Ed).
Qed.

Lemma mapM_raises {A B} (f : A -> result B) (l : list A) (x : A) (e : pyerr) :
  (forall y e', f y = Raise e' -> e' = e) ->
  In x l -> f x = Raise e -> mapM f l = Raise e.
Proof.
  intros Hf. induction l as [|y l IH]; intros Hin Hx; [destruct Hin|].
  cbn [mapM]. destruct (f y) as [b|e'] eqn:Ey.
  - cbn [bind]. destruct Hin as [->|Hin]; [congruence|].
    rewrite (IH Hin Hx). reflexivity.
  - cbn [bind]. rewrite (Hf y e' Ey). reflexivity.
Qed.

(** X16. One stored vector whose dimension differs from the query's makes
    the whole [search] raise [ValueError], unless that vector or the query
    is all zeros (the zero test comes first and answers 0.0): no result is
    returned for the other rows either. *)
Theorem dimension_mismatch_fails_search (rows : list row) (q : list float)
  (k : Z) (x : row) :
  In x rows ->
  length (row_vector Meta x) <> length q ->
  np_all_zero q = false ->
  np_all_zero (row_vector Meta x) = false ->
  search Meta rows q k = Raise ValueError.
Proof.
  intros Hin Hlen Hq Hx. rewrite search_unfold.
  rewrite (mapM_raises (score_row Meta q) rows x ValueError);
    [reflexivity | | exact Hin |].
  - intros y e' H. exact (score_row_error q y e' H).
  - unfold score_row, _cosine_similarity, np_dot. rewrite Hq, Hx. cbn [orb].
    rewrite dot_from_lengths by congruence. reflexivity.
Qed.

Lemma sort_desc_ties (l : list (scored Meta)) :
  Forall (fun x => key Meta x = zero) l -> sort_desc Meta l = l.
Proof.
  induction 1 as [|x l Hx Hl IH]; [reflexivity|].
  rewrite sort_desc_cons, IH. destruct Hl as [|y l Hy Hl]; [reflexivity|].
  rewrite insert_desc_cons, Hx, Hy. reflexivity.
Qed.

(** X17. A query of zeros (or an empty one) never fails and scores every
    row 0.0, whatever the dimensions; the sort being stable, the rows come
    back in the order they were stored, cut to [top_k]. *)
Theorem zero_query_keeps_insertion_order (rows : list row) (q : list float)
  (k : Z) :
  np_all_zero q = true ->
  search Meta rows q k =
    Ok (map (fun r => mkResult (row_id Meta r) zero (row_metadata Meta r))
            (slice_to k rows)).
Proof.
  intros Hq. rewrite search_unfold.
  assert (Es : mapM (score_row Meta q) rows
               = Ok (map (fun r => (row_id Meta r, zero, row_metadata Meta r))
                         rows)).
  { induction rows as [|r rows IH]; [reflexivity|].
    cbn [mapM map]. unfold score_row at 1, _cosine_similarity. rewrite Hq.
    cbn [orb bind]. rewrite IH. reflexivity. }
  rewrite Es. cbn [bind]. rewrite sort_desc_ties.
  - f_equal. unfold slice_to.
    rewrite length_map. destruct (k <? 0);
      rewrite firstn_map, map_map; reflexivity.
  - apply Forall_forall. intros x Hx. apply in_map_iff in Hx.
    destruct Hx as (r & <- & _). reflexivity.
Qed.

End Table.

(** The table of the example, a vector of another dimension stored under
    D, and the queries worked below. *)
Definition four_rows : list (row string) :=
  fst (add_vector string example_rows "D" [of_Z 1; of_Z 2; of_Z 3] "{}").

Definition top_two : list (VectorSearchResult string) :=
  Eval vm_compute in
    match search string example_rows v10 2 with
    | Ok res => res
    | Raise _ => []
    end.

Lemma search_returns_stored_rows_witness :
  length top_two = 2%nat
  /\ forall r, In r top_two ->
       exists x, In x example_rows
                 /\ VectorSearch.id string r = row_id string x
                 /\ VectorSearch.metadata string r = row_metadata string x
                 /\ _cosine_similarity v10 (row_vector string x)
                    = Ok (score string r).
Proof.
  apply (search_returns_stored_rows string example_rows v10 2 top_two).
  - lia.
  - vm_compute. reflexivity.
Defined.

Lemma dimension_mismatch_fails_search_witness :
  search string four_rows v10 3 = Raise ValueError.
Proof.
  apply (dimension_mismatch_fails_search string four_rows v10 3
           (mkRow "D" [of_Z 1; of_Z 2; of_Z 3] "{}")).
  - vm_compute. auto.
  - vm_compute. discriminate.
  - vm_compute. reflexivity.
  - vm_compute. reflexivity.
Defined.

Lemma zero_query_keeps_insertion_order_witness :
  search string four_rows [zero; zero] 3 =
    Ok [mkResult "A" zero "{}"; mkResult "B" zero "{}";
        mkResult "C" zero "{}"].
Proof.
  apply (zero_query_keeps_insertion_order string four_rows [zero; zero] 3).
  vm_compute. reflexivity.
Defined.

End VectorStore.

(* ================================================================= *)
(** ** Records, the builder and field encryption
       ([src/memcore/memcore.py], continued) *)

Module Records.

Import F64 Memcore.

(** *** MemoryRecord *)

Lemma py_or_truthy (a b : pyval) : truthy a = true -> py_or a b = a.
Proof. unfold py_or. intros ->. reflexivity. Qed.

Lemma py_or_again (a d : pyval) : py_or (py_or a d) d = py_or a d.
Proof.
  unfold py_or. destruct (truthy a) eqn:Ea.
  - rewrite Ea. reflexivity.
  - destruct (truthy d); reflexivity.
Qed.

Lemma py_or_settled (a d d' : pyval) :
  truthy d = true -> py_or (py_or a d) d' = py_or a d.
Proof.
  intros Hd. apply py_or_truthy. unfold py_or.
  destruct (truthy a) eqn:Ea; [exact Ea | exact Hd].
Qed.

Lemma from_dict_to_dict (e : env) (r : MemoryRecord) :
  from_dict e (to_dict r) =
    MemoryRecord_init e (id r) (content r) (tags r) (metadata r)
      (importance r) (created_at r) (updated_at r) (source r) (embedding r).
Proof. reflexivity. Qed.

(** X18. [from_dict(to_dict(r))] is [r] for every record the constructor
    made (with a uuid that is not empty and a clock that is not 0.0): the
    defaults the constructor filled in are kept, and no new id or time is
    drawn when the record is rebuilt. *)
Theorem record_dict_round_trip (e e' : env)
  (i c t md imp cr up s emb : pyval) :
  uuid4 e <> "" ->
  F64.truthy (now e) = true ->
  from_dict e' (to_dict (MemoryRecord_init e i c t md imp cr up s emb))
  = MemoryRecord_init e i c t md imp cr up s emb.
Proof.
  intros Hu Hn. rewrite from_dict_to_dict.
  unfold MemoryRecord_init.
  cbn [id content tags metadata importance created_at updated_at source
       embedding].
  assert (Hid : truthy (VStr (uuid4 e)) = true).
  { cbn [truthy]. destruct (String.eqb_spec (uuid4 e) ""); [contradiction|].
    reflexivity. }
  rewrite (py_or_settled i _ _ Hid).
  rewrite (py_or_settled cr (VFloat (now e)) _ Hn).
  rewrite !py_or_again. reflexivity.
Qed.

Lemma record_dict_round_trip_witness :
  from_dict e1
    (to_dict (MemoryRecord_init e0 VNone (VStr "hello") VNone VNone
                (VFloat half) VNone VNone (VStr "") VNone))
  = MemoryRecord_init e0 VNone (VStr "hello") VNone VNone (VFloat half)
      VNone VNone (VStr "") VNone.
Proof.
  apply (record_dict_round_trip e0 e1).
  - discriminate.
  - vm_compute. reflexivity.
Defined.

(** *** MemoryBuilder *)

(** [set_metadata] *)
Definition set_metadata (b : MemoryBuilder) (m : pyval) : MemoryBuilder :=
  mkBuilder (setattr (record b) "metadata" m) (ai_provider b).

(** The fields no setter touches. *)
Definition stamps (r : MemoryRecord) : pyval * pyval * pyval :=
  (id r, created_at r, updated_at r).

Lemma setattr_stamps (r : MemoryRecord) (k : string) (v : pyval) :
  k <> "id" -> k <> "created_at" -> k <> "updated_at" ->
  stamps (setattr r k v) = stamps r.
Proof.
  intros H1 H2 H3. unfold setattr.
  destruct (String.eqb_spec k "id"); [contradiction|].
  destruct (String.eqb k "content"); [reflexivity|].
  destruct (String.eqb k "tags"); [reflexivity|].
  destruct (String.eqb k "metadata"); [reflexivity|].
  destruct (String.eqb k "importance"); [reflexivity|].
  destruct (String.eqb_spec k "created_at"); [contradiction|].
  destruct (String.eqb_spec k "updated_at"); [contradiction|].
  destruct (String.eqb k "source"); [reflexivity|].
  destruct (String.eqb k "embedding"); reflexivity.
Qed.

Ltac keeps_stamps :=
  repeat rewrite setattr_stamps by discriminate; reflexivity.

(** X19. [build] raises [ValueError] exactly when the record has neither
    content nor embedding.  Otherwise it gives the record a new id and the
    current time as [created_at], and nothing else: no setter and not
    [build] touches [updated_at], which stays the time at which the builder
    was constructed, so a built record has an [updated_at] that is not
    later than its [created_at]. *)
Theorem build_refreshes_id_and_created_at_only :
  (forall (e : env) (b : MemoryBuilder),
      truthy (content (record b)) = false ->
      truthy (embedding (record b)) = false ->
      build e b = Raise ValueError)
  /\ (forall (e : env) (b : MemoryBuilder),
        truthy (content (record b)) = true
        \/ truthy (embedding (record b)) = true ->
        build e b =
          Ok (mkRecord (VStr (uuid4 e)) (content (record b))
                (tags (record b)) (metadata (record b))
                (importance (record b)) (VFloat (now e))
                (updated_at (record b)) (source (record b))
                (embedding (record b))))
  /\ (forall (b : MemoryBuilder) (c s : string) (t m : pyval) (x : float),
        stamps (record (set_content b c)) = stamps (record b)
        /\ stamps (record (set_tags b t)) = stamps (record b)
        /\ stamps (record (set_metadata b m)) = stamps (record b)
        /\ stamps (record (set_importance b x)) = stamps (record b)
        /\ stamps (record (set_source b s)) = stamps (record b))
  /\ (forall (e : env) (p : option (string -> list float)),
        updated_at (record (MemoryBuilder_init e p)) = VFloat (now e))
  /\ (exists r,
        build e1 (set_content (MemoryBuilder_init e0 None) "hello") = Ok r
        /\ updated_at r = VFloat (of_Z 1000)
        /\ created_at r = VFloat (of_Z 1060)).
Proof.
  split.
  { intros e b Hc He. unfold build. rewrite Hc, He. reflexivity. }
  split.
  { intros e b H. unfold build.
    assert (Hn : (negb (truthy (content (record b)))
                  && negb (truthy (embedding (record b))))%bool = false).
    { destruct H as [-> | ->]; [reflexivity|].
      apply andb_false_r. }
    rewrite Hn. reflexivity. }
  split.
  { intros b c s t m x.
    unfold set_content, set_tags, set_metadata, set_importance, set_source.
    repeat match goal with |- _ /\ _ => split end.
    - destruct (ai_provider b); [destruct (negb (String.eqb c ""))|];
        cbn [record]; keeps_stamps.
    - cbn [record]. keeps_stamps.
    - cbn [record]. keeps_stamps.
    - cbn [record]. keeps_stamps.
    - cbn [record]. keeps_stamps. }
  split; [reflexivity|].
  eexists. split; [reflexivity|]. split; reflexivity.
Qed.

(** *** Field encryption *)

Section Encryption.

Variable repr_float : float -> string.

(** A value with every leaf that is no string replaced by [str(leaf)],
    which is what [_encrypt_data] encrypts. *)
Fixpoint stringified (v : pyval) : pyval :=
  match v with
  | VStr s => VStr s
  | VList l => VList (map stringified l)
  | VDict d => VDict (map (fun kv => (fst kv, stringified (snd kv))) d)
  | VNone => VStr "None"
  | VBool b => VStr (if b then "True" else "False")
  | VFloat x => VStr (repr_float x)
  end.

(** Strings, in lists and dictionaries. *)
Fixpoint only_strings (v : pyval) : bool :=
  match v with
  | VStr _ => true
  | VList l => forallb only_strings l
  | VDict d => forallb (fun kv => only_strings (snd kv)) d
  | _ => false
  end.

Lemma stringified_strings (v : pyval) :
  only_strings v = true -> stringified v = v.
Proof.
  induction v as [| | | |l IH|d IH] using pyval_nested_ind;
    cbn [only_strings stringified]; try discriminate; try reflexivity.
  - intros H. f_equal. induction IH as [|x l Hx _ IHl]; [reflexivity|].
    cbn [forallb map] in *. apply andb_true_iff in H. destruct H as [H1 H2].
    rewrite (Hx H1), (IHl H2). reflexivity.
  - intros H. f_equal. induction IH as [|[k x] d Hx _ IHd]; [reflexivity|].
    cbn [forallb map fst snd] in *. apply andb_true_iff in H.
    destruct H as [H1 H2]. rewrite (Hx H1), (IHd H2). reflexivity.
Qed.

Lemma decrypt_with_encrypt_with (f : Fernet) :
  (forall s, decrypt f (encrypt f s) = Some s) ->
  forall v, decrypt_with f (encrypt_with repr_float f v) = stringified v.
Proof.
  intros Hf v.
  induction v as [| | | |l IH|d IH] using pyval_nested_ind;
    cbn [encrypt_with decrypt_with stringified]; rewrite ?Hf;
    try reflexivity.
  - f_equal. rewrite map_map.
    induction IH as [|x l Hx _ IHl]; [reflexivity|].
    cbn [map]. rewrite Hx, IHl. reflexivity.
  - f_equal. rewrite map_map.
    induction IH as [|[k x] d Hx _ IHd]; [reflexivity|].
    cbn [map fst snd] in *. rewrite Hx, IHd. reflexivity.
Qed.

(** X20. Under a key whose [decrypt] undoes its [encrypt],
    [_decrypt_data(_encrypt_data(v))] is [v] with every leaf that is no
    string turned into its [str()]: strings, and lists and dictionaries of
    strings, come back as they were, dictionary keys are never encrypted;
    with no key both functions return their argument. *)
Theorem decrypt_undoes_encrypt (f : Fernet) :
  (forall s, decrypt f (encrypt f s) = Some s) ->
  forall v,
    _decrypt_data (Some f) (_encrypt_data repr_float (Some f) v)
    = stringified v
    /\ (only_strings v = true ->
        _decrypt_data (Some f) (_encrypt_data repr_float (Some f) v) = v)
    /\ _decrypt_data None (_encrypt_data repr_float None v) = v.
Proof.
  intros Hf v. cbn [_decrypt_data _encrypt_data].
  rewrite (decrypt_with_encrypt_with f Hf v).
  split; [reflexivity|]. split; [|reflexivity].
  intros Hs. apply stringified_strings, Hs.
Qed.

End Encryption.

(** A key that marks what it encrypts. *)
Definition marking_key : Fernet :=
  mkFernet (fun s => String "#" s)
           (fun s => match s with
                     | String "#" t => Some t
                     | _ => None
                     end).

Definition mixed_value : pyval :=
  VDict [("content", VStr "hello"); ("tags", VList [VStr "a"; VNone]);
         ("pinned", VBool true)].

Lemma decrypt_undoes_encrypt_witness :
  _decrypt_data (Some marking_key)
    (_encrypt_data Runtime.repr_float (Some marking_key) mixed_value)
  = VDict [("content", VStr "hello"); ("tags", VList [VStr "a"; VStr "None"]);
           ("pinned", VStr "True")]
  /\ (only_strings mixed_value = true ->
      _decrypt_data (Some marking_key)
        (_encrypt_data Runtime.repr_float (Some marking_key) mixed_value)
      = mixed_value)
  /\ _decrypt_data None (_encrypt_data Runtime.repr_float None mixed_value)
     = mixed_value.
Proof.
  apply (decrypt_undoes_encrypt Runtime.repr_float marking_key).
  intros s. reflexivity.
Defined.

End Records.

(* ================================================================= *)
(** ** The table, the history and the facade
       ([src/memcore/memcore.py], continued) *)

Module Tables.

Import F64 Memcore.

Lemma get_del_same {V} (k : string) (d : Dict.t V) :
  NoDup (Dict.keys d) -> Dict.get k (Dict.del k d) = None.
Proof.
  induction d as [|[k' v] d IH]; cbn [Dict.del Dict.get Dict.keys map fst];
    intros Hn; [reflexivity|].
  inversion Hn as [|? ? Hnot Hn']; subst.
  destruct (String.eqb_spec k' k) as [->|Hne].
  - destruct (Dict.get k d) eqn:E; [|reflexivity].
    exfalso. apply Hnot. clear -E.
    induction d as [|[k1 v1] d IH]; cbn [Dict.get] in E; [discriminate|].
    destruct (String.eqb_spec k1 k) as [->|]; [left; reflexivity|].
    right. exact (IH E).
  - cbn [Dict.get]. destruct (String.eqb_spec k' k); [contradiction|].
    exact (IH Hn').
Qed.

Lemma has_get {V} (k : string) (d : Dict.t V) :
  Dict.has k d = false <-> Dict.get k d = None.
Proof. unfold Dict.has. destruct (Dict.get k d); split; congruence. Qed.

Lemma table_add_filed (st st' : store) (memory : MemoryRecord)
  (encrypted : bool) (k : string) :
  MemTable.add_memory st memory encrypted = Ok (k, st') ->
  id memory = VStr k
  /\ MemTable.get_memory st' k
     = Some (Dict.set "encrypted" (VBool encrypted) (to_dict memory), false).
Proof.
  unfold MemTable.add_memory.
  destruct (id_key (id memory)) as [k0|] eqn:Ek; [|discriminate].
  cbn [bind]. intros E. injection E as <- <-.
  split; [exact (id_key_str _ _ Ek)|].
  unfold MemTable.get_memory.
  cbn [memories mem_files with_memories with_mem_files].
  rewrite !Dict.get_set_same. reflexivity.
Qed.




Lemma has_set_any {V} (k k0 : string) (v : V) (d : Dict.t V) :
  Dict.has k0 (Dict.set k v d) = (Dict.has k0 d || String.eqb k0 k)%bool.
Proof.
  destruct (String.eqb_spec k0 k) as [->|Hne].
  - rewrite has_set_same, orb_true_r. reflexivity.
  - rewrite (has_set_other k k0 v d Hne), orb_false_r. reflexivity.
Qed.

(** X23. [MemTable.update_memory] returns [False] and changes nothing for
    an id that is not stored, and for one stored as an empty dictionary.
    When it returns [True] the stored dictionary has the keys it had
    before, and [updated_at]: a field name the record does not have is
    ignored, not added. *)
Theorem table_update_adds_no_field (e : env) (st : store) (k : string)
  (fields : pydict) :
  (MemTable.get_memory st k = None ->
     MemTable.update_memory e st k fields = (false, st))
  /\ (forall a, MemTable.get_memory st k = Some ([], a) ->
        MemTable.update_memory e st k fields = (false, st))
  /\ (forall st', MemTable.update_memory e st k fields = (true, st') ->
        exists d a d',
          MemTable.get_memory st k = Some (d, a)
          /\ MemTable.get_memory st' k = Some (d', false)
          /\ forall key,
               Dict.has key d'
               = (Dict.has key d || String.eqb key "updated_at")%bool).
Proof.
  split.
  { intros H. unfold MemTable.update_memory. rewrite H. reflexivity. }
  split.
  { intros a H. unfold MemTable.update_memory. rewrite H. reflexivity. }
  intros st' H.
  destruct (table_update_success e st st' k fields H)
    as (d & a & Hg & Hg' & _).
  exists d, a. eexists. split; [exact Hg|]. split; [exact Hg'|].
  intros key. rewrite has_set_any, apply_fields_has. reflexivity.
Qed.


Section Facade.

Variable repr_float : float -> string.
Variable cfg : config.

(** X25. On an id the table does not hold, [get_memory] returns [None],
    and [update_memory] and [delete_memory] return [False]: none raises,
    and the table, the history and the vectors are left as they were. *)
Theorem unknown_id_changes_nothing (e : env) (st : store) (k : string)
  (fields : pydict) :
  MemTable.get_memory st k = None ->
  get_memory cfg e st k = Ok (None, st)
  /\ update_memory repr_float cfg e st k fields = Ok (false, st)
  /\ delete_memory cfg e st k = Ok (false, st).
Proof.
  intros H.
  assert (Hg : get_memory cfg e st k = Ok (None, st)).
  { unfold get_memory. rewrite H. reflexivity. }
  split; [exact Hg|].
  unfold update_memory, delete_memory. rewrite Hg. cbn [bind].
  split; reflexivity.
Qed.

End Facade.

Definition one_note : store :=
  Eval vm_compute in store_of (store_built e0 half).




Lemma unknown_id_changes_nothing_witness :
  get_memory plain e1 one_note "id-9" = Ok (None, one_note)
  /\ update_memory Runtime.repr_float plain e1 one_note "id-9" importance_2
     = Ok (false, one_note)
  /\ delete_memory plain e1 one_note "id-9" = Ok (false, one_note).
Proof.
  apply (unknown_id_changes_nothing Runtime.repr_float plain e1 one_note
           "id-9" importance_2).
  reflexivity.
Defined.

End Tables.

(* ================================================================= *)
(** ** Records stored encrypted ([MemCore.add_memory], [MemCore.get_memory]) *)

Module Encrypted.

Import F64 Memcore Records.

Section Key.

Variable repr_float : float -> string.
Variable f : Fernet.

(** A [MemCore] with a key and no embedding provider. *)
Definition keyed : config := mkConfig (Some f) None.

(** A record with fields of the types the class declares. *)
Definition typed (m : MemoryRecord) (k : string) : Prop :=
  id m = VStr k /\ k <> ""
  /\ (exists c, content m = VStr c)
  /\ (exists l, tags m = VList l)
  /\ (exists d, metadata m = VDict d)
  /\ (exists s, source m = VStr s)
  /\ (exists l, embedding m = VList l)
  /\ truthy (created_at m) = true
  /\ truthy (updated_at m) = true.

(** The record with the entries of its tags and metadata as strings. *)
Definition read_back (m : MemoryRecord) : MemoryRecord :=
  mkRecord (id m) (content m) (stringified repr_float (tags m))
    (stringified repr_float (metadata m)) (importance m) (created_at m)
    (updated_at m) (source m) (embedding m).

Lemma encrypt_fields_fields (key : option Fernet) (m : MemoryRecord) :
  encrypt_fields repr_float key m =
    mkRecord (id m) (_encrypt_data repr_float key (content m))
      (_encrypt_data repr_float key (tags m))
      (_encrypt_data repr_float key (metadata m))
      (importance m) (created_at m) (updated_at m)
      (_encrypt_data repr_float key (source m)) (embedding m).
Proof. destruct m. reflexivity. Qed.

Lemma py_or_list (l : list pyval) : py_or (VList l) (VList []) = VList l.
Proof. destruct l; reflexivity. Qed.

Lemma py_or_dict (d : list (string * pyval)) :
  py_or (VDict d) (VDict []) = VDict d.
Proof. destruct d; reflexivity. Qed.

(** X26. A record added with [encrypted=True] under a key whose [decrypt]
    undoes its [encrypt] is stored with content, tags, source and metadata
    as ciphertext and the flag [encrypted] set, and [get_memory] returns it
    in the clear: the record that was added, the entries of its tags and
    metadata as strings; reading does not change the store. *)
Theorem encrypted_record_reads_back (e e' : env) (st st1 : store)
  (m : MemoryRecord) (k k' : string) :
  (forall s, decrypt f (encrypt f s) = Some s) ->
  typed m k ->
  add_memory repr_float keyed e st m true = Ok (k', st1) ->
  k' = k
  /\ (exists d,
        MemTable.get_memory st1 k = Some (d, false)
        /\ Dict.get "encrypted" d = Some (VBool true)
        /\ Dict.get "content" d
           = Some (encrypt_with repr_float f (content m))
        /\ Dict.get "tags" d = Some (encrypt_with repr_float f (tags m))
        /\ Dict.get "source" d = Some (encrypt_with repr_float f (source m))
        /\ Dict.get "metadata" d
           = Some (encrypt_with repr_float f (metadata m)))
  /\ get_memory keyed e' st1 k = Ok (Some (read_back m), st1).
Proof.
  intros Hf (Hid & Hk & [c Hc] & [l Hl] & [d Hd] & [s Hs] & [emb He]
             & Hcr & Hup) Hadd.
  unfold add_memory in Hadd. cbn [keyed embedding_provider encryption_key
                                  bind] in Hadd.
  destruct (tags_copy (tags m)) as [t0|] eqn:Et; [|discriminate Hadd].
  cbn [bind] in Hadd.
  destruct (MemTable.add_memory st (encrypt_fields repr_float (Some f) m) true)
    as [[k0 sta]|] eqn:Ea; [|discriminate Hadd].
  cbn [bind] in Hadd.
  destruct (MemHistory.add_history e sta
              (encrypt_fields repr_float (Some f) m) "create")
    as [stb|] eqn:Eh; [|discriminate Hadd].
  cbn [bind] in Hadd. injection Hadd as Hk0 Hst. subst k0.
  destruct (Tables.table_add_filed _ _ _ _ _ Ea) as (Hid2 & Hget).
  rewrite encrypt_fields_fields in Hid2. cbn [id] in Hid2.
  assert (Hkk : k' = k) by congruence. subst k'.
  destruct (add_history_keeps_table _ _ _ _ _ Eh) as (Hm1 & Hm2 & _).
  assert (Hget1 : MemTable.get_memory st1 k
                  = Some (Dict.set "encrypted" (VBool true)
                            (to_dict (encrypt_fields repr_float (Some f) m)),
                          false)).
  { assert (Hkeep : memories st1 = memories stb
                    /\ mem_files st1 = mem_files stb).
    { subst st1.
      match goal with
      | |- context [if ?c then _ else _] => destruct c
      end; [|split; reflexivity].
      match goal with
      | |- context [add_vector ?a ?b ?c ?d] =>
          destruct (add_vector_keeps a b c d) as (A & B & _)
      end.
      split; assumption. }
    destruct Hkeep as [K1 K2].
    rewrite <- Hget. unfold MemTable.get_memory.
    rewrite K1, K2, Hm1, Hm2. reflexivity. }
  split; [congruence|].
  rewrite encrypt_fields_fields in Hget1.
  split.
  { eexists. split; [exact Hget1|]. repeat split. }
  unfold get_memory. rewrite Hget1.
  cbn [nonempty Dict.set to_dict negb keyed encryption_key].
  change (truthy (Dict.get_or "encrypted" (VBool false) _)) with true.
  cbn iota. unfold decrypt_fields, item.
  cbn [Dict.get Dict.set String.eqb Ascii.eqb Bool.eqb bind fst snd
       id content tags metadata importance created_at updated_at source
       embedding _encrypt_data _decrypt_data].
  rewrite !(decrypt_with_encrypt_with repr_float f Hf).
  f_equal. f_equal. f_equal.
  unfold from_dict, read_back, MemoryRecord_init, Dict.get_or.
  cbn [Dict.get String.eqb Ascii.eqb Bool.eqb].
  rewrite Hid, Hc, Hl, Hd, Hs, He. cbn [stringified].
  rewrite !py_or_list, !py_or_dict.
  rewrite (py_or_truthy (created_at m) _ Hcr).
  rewrite (py_or_truthy (updated_at m) _ Hup).
  rewrite py_or_truthy; [reflexivity|].
  cbn [truthy]. destruct (String.eqb_spec k ""); [contradiction|reflexivity].
Qed.

End Key.

Definition private_note : MemoryRecord :=
  mkRecord (VStr "id-7") (VStr "the code is 1234")
    (VList [VStr "secret"; VNone]) (VDict [("pinned", VBool true)])
    (VFloat half) (VFloat (of_Z 1000)) (VFloat (of_Z 1000)) (VStr "phone")
    (VList []).

Definition private_store : store :=
  Eval vm_compute in
    store_of (add_memory Runtime.repr_float (keyed marking_key) e0
                empty_store private_note true).

Lemma encrypted_record_reads_back_witness :
  "id-7" = "id-7"
  /\ (exists d,
        MemTable.get_memory private_store "id-7" = Some (d, false)
        /\ Dict.get "encrypted" d = Some (VBool true)
        /\ Dict.get "content" d
           = Some (encrypt_with Runtime.repr_float marking_key
                     (content private_note))
        /\ Dict.get "tags" d
           = Some (encrypt_with Runtime.repr_float marking_key
                     (tags private_note))
        /\ Dict.get "source" d
           = Some (encrypt_with Runtime.repr_float marking_key
                     (source private_note))
        /\ Dict.get "metadata" d
           = Some (encrypt_with Runtime.repr_float marking_key
                     (metadata private_note)))
  /\ get_memory (keyed marking_key) e1 private_store "id-7"
     = Ok (Some (read_back Runtime.repr_float private_note), private_store).
Proof.
  apply (encrypted_record_reads_back Runtime.repr_float marking_key e0 e1
           empty_store private_store private_note "id-7" "id-7").
  - intros s. reflexivity.
  - unfold typed. cbn.
    repeat match goal with
           | |- _ /\ _ => split
           | |- exists _, _ => eexists
           end; try reflexivity; discriminate.
  - vm_compute. reflexivity.
Defined.

End Encrypted.

(* ================================================================= *)
(** ** MemQL: ORDER BY and LIMIT ([MemQLParser._execute_select],
       [MemQLParser._execute_delete]) *)

Module Queries.

Import F64 Memcore.

(** *** The stable sort *)

Section StableSort.

Context {A : Type}.
Variable before : A -> A -> bool.
Variable comparable : A -> Prop.
Hypothesis before_asym : forall x y, before y x = true -> before x y = false.
Hypothesis before_trans :
  forall a b c, comparable b ->
    before a b = false -> before b c = false -> before a c = false.

(** [a] may stand in front of [b]: [b] does not have to come before
    [a]. *)
Definition may_precede (a b : A) : Prop := before b a = false.

Lemma insert_by_strongly (x : A) (l : list A) :
  Forall comparable l ->
  StronglySorted may_precede l ->
  StronglySorted may_precede (insert_by before x l).
Proof.
  induction l as [|y l IH]; intros Hc Hs; cbn [insert_by].
  - repeat constructor.
  - inversion Hc as [|? ? Hy Hc']; subst.
    inversion Hs as [|? ? Hs' Hall]; subst.
    destruct (before y x) eqn:Hyx.
    + constructor; [exact (IH Hc' Hs')|].
      apply (Permutation_Forall (Permutation_sym (insert_by_perm before x l))).
      constructor; [|exact Hall].
      unfold may_precede. apply before_asym, Hyx.
    + constructor; [exact Hs|].
      constructor; [exact Hyx|].
      rewrite Forall_forall in *. intros z Hz. unfold may_precede.
      apply (before_trans z y x Hy); [exact (Hall z Hz) | exact Hyx].
Qed.

Lemma stable_sort_strongly (l : list A) :
  Forall comparable l -> StronglySorted may_precede (stable_sort before l).
Proof.
  induction 1 as [|x l Hx Hl IH]; cbn [stable_sort fold_right].
  - constructor.
  - apply insert_by_strongly; [|exact IH].
    apply (Permutation_Forall (Permutation_sym (stable_sort_perm before l))).
    exact Hl.
Qed.

End StableSort.

Lemma strongly_sorted_map {A B} (f : A -> B) (R : B -> B -> Prop)
  (l : list A) :
  StronglySorted (fun x y => R (f x) (f y)) l -> StronglySorted R (map f l).
Proof.
  induction 1 as [|x l Hs IH Hall]; cbn [map]; constructor.
  - exact IH.
  - apply Forall_map. exact Hall.
Qed.

Lemma strongly_sorted_weaken {A} (R R' : A -> A -> Prop) (P : A -> Prop)
  (l : list A) :
  (forall a b, P a -> P b -> R a b -> R' a b) ->
  Forall P l -> StronglySorted R l -> StronglySorted R' l.
Proof.
  intros Hw Hp Hs. induction Hs as [|x l Hs IH Hall].
  - constructor.
  - inversion Hp as [|? ? Hx Hl]; subst. constructor; [exact (IH Hl)|].
    rewrite Forall_forall in *. intros y Hy.
    apply Hw; [exact Hx | exact (Hl y Hy) | exact (Hall y Hy)].
Qed.

(** *** ORDER BY *)

(** The number a result is ordered by: [x.get(field, 0)]. *)
Definition sort_key (field : string) (r : hit) : float :=
  match as_number (Dict.get_or field (VFloat zero) (snd r)) with
  | Ok x => x
  | Raise _ => zero
  end.

(** A result stands in front of another in the sorted list when the
    other's key is not smaller (not greater under DESC). *)
Definition in_order (field : string) (order_desc : bool) (a b : hit) : Prop :=
  if order_desc
  then ltb (sort_key field a) (sort_key field b) = false
  else ltb (sort_key field b) (sort_key field a) = false.

Lemma keyed_keys (field : string) (results : list hit)
  (keyed : list (float * hit)) :
  mapM (fun r : hit =>
          k <- as_number (Dict.get_or field (VFloat zero) (snd r)) ;;
          Ok (k, r)) results = Ok keyed ->
  Forall (fun kr => fst kr = sort_key field (snd kr)) keyed
  /\ map snd keyed = results.
Proof.
  revert keyed. induction results as [|r results IH]; intros keyed E.
  - injection E as <-. split; [constructor | reflexivity].
  - cbn [mapM] in E. unfold sort_key.
    destruct (as_number (Dict.get_or field (VFloat zero) (snd r)))
      as [k|] eqn:Ek; [|discriminate E].
    cbn [bind] in E.
    destruct (mapM _ results) as [keyed'|]; [|discriminate E].
    cbn [bind] in E. injection E as <-.
    destruct (IH keyed' eq_refl) as [Hk Hm]. split.
    + constructor; [cbn [fst snd]; rewrite Ek; reflexivity | exact Hk].
    + cbn [map snd]. rewrite Hm. reflexivity.
Qed.

(** X27. [ORDER BY importance], [created_at], [updated_at] or
    [similarity_score], on results whose keys are numbers and none a NaN,
    returns the same results reordered so that no result stands in front
    of one with a smaller key (a greater one under DESC); the sort is the
    stable one of [list.sort].  An ORDER BY text that is none of these four
    names (any case), such as a field name followed by a LIMIT clause,
    selects no sort at all. *)
Theorem order_by_sorts_results (field : string) (order_desc : bool)
  (results sorted : list hit) :
  Forall (fun r => is_nan (sort_key field r) = false) results ->
  sort_results field order_desc results = Ok sorted ->
  Permutation sorted results
  /\ StronglySorted (in_order field order_desc) sorted
  /\ order_field "content" = None
  /\ order_field (fst (order_of "SELECT ORDER BY importance LIMIT 5")) = None
  /\ order_field (fst (order_of "SELECT ORDER BY Importance DESC"))
     = Some "importance".
Proof.
  intros Hn E.
  split; [exact (sort_results_perm field order_desc results sorted E)|].
  split; [|repeat split; vm_compute; reflexivity].
  unfold sort_results in E.
  destruct results as [|r1 [|r2 results]].
  - injection E as <-. constructor.
  - injection E as <-. repeat constructor.
  - set (rs := r1 :: r2 :: results) in *.
    destruct (mapM (fun r : hit =>
                      k <- as_number
                             (Dict.get_or field (VFloat zero) (snd r)) ;;
                      Ok (k, r)) rs) as [keyed|] eqn:Ek; [|discriminate E].
    cbn [bind] in E. injection E as <-.
    destruct (keyed_keys field rs keyed Ek) as [Hk Hm].
    assert (Hc : Forall (fun kr : float * hit => is_nan (fst kr) = false)
                   keyed).
    { rewrite <- Hm in Hn. rewrite Forall_map in Hn.
      rewrite Forall_forall in *. intros kr Hin.
      rewrite (Hk kr Hin). exact (Hn kr Hin). }
    apply strongly_sorted_map.
    destruct order_desc.
    + apply (strongly_sorted_weaken
               (may_precede (fun y x : float * hit => ltb (fst x) (fst y)))
               _ (fun kr => fst kr = sort_key field (snd kr))).
      * intros a b Ha Hb H. unfold may_precede in H. unfold in_order.
        rewrite <- Ha, <- Hb. exact H.
      * apply (Permutation_Forall
                 (Permutation_sym (stable_sort_perm _ keyed))), Hk.
      * apply (stable_sort_strongly _
                 (fun kr : float * hit => is_nan (fst kr) = false)).
        -- intros x y. apply ltb_asym.
        -- intros a b c Hb H1 H2.
           exact (nlt_trans (fst c) (fst b) (fst a) Hb H2 H1).
        -- exact Hc.
    + apply (strongly_sorted_weaken
               (may_precede (fun y x : float * hit => ltb (fst y) (fst x)))
               _ (fun kr => fst kr = sort_key field (snd kr))).
      * intros a b Ha Hb H. unfold may_precede in H. unfold in_order.
        rewrite <- Ha, <- Hb. exact H.
      * apply (Permutation_Forall
                 (Permutation_sym (stable_sort_perm _ keyed))), Hk.
      * apply (stable_sort_strongly _
                 (fun kr : float * hit => is_nan (fst kr) = false)).
        -- intros x y. apply ltb_asym.
        -- intros a b c Hb H1 H2.
           exact (nlt_trans (fst a) (fst b) (fst c) Hb H1 H2).
        -- exact Hc.
Qed.

End Queries.

(* ================================================================= *)
(** ** MemQL: LIMIT 0 and DELETE * *)

Module Limits.

Import F64 Memcore.

Section Limit.

Variable py_float : string -> option float.
Variable py_int : string -> option Z.
Variable cfg : config.




End Limit.



(** Three results of a scan, and their order by importance. *)
Definition three_hits : list hit :=
  [(None, [("id", VStr "a"); ("importance", VFloat (dec 9 1))]);
   (None, [("id", VStr "b"); ("importance", VFloat (dec 5 1))]);
   (None, [("id", VStr "c"); ("importance", VFloat (dec 7 1))])].

Definition three_sorted : list hit :=
  Eval vm_compute in
    match sort_results "importance" false three_hits with
    | Ok l => l
    | Raise _ => []
    end.

Lemma order_by_sorts_results_witness :
  Permutation three_sorted three_hits
  /\ StronglySorted (Queries.in_order "importance" false) three_sorted
  /\ order_field "content" = None
  /\ order_field (fst (order_of "SELECT ORDER BY importance LIMIT 5")) = None
  /\ order_field (fst (order_of "SELECT ORDER BY Importance DESC"))
     = Some "importance".
Proof.
  apply (Queries.order_by_sorts_results "importance" false three_hits
           three_sorted).
  - repeat constructor.
  - vm_compute. reflexivity.
Defined.

End Limits.

(* ================================================================= *)
(** ** The vectors kept beside the table ([MemCore.add_memory],
       [MemCore.delete_memory]) *)

Module Sync.

Import F64 Memcore.

Lemma get_none_not_in {V} (k : string) (d : Dict.t V) :
  Dict.get k d = None -> ~ In k (Dict.keys d).
Proof.
  induction d as [|[k' v] d IH]; cbn [Dict.get Dict.keys map fst In].
  - tauto.
  - destruct (String.eqb_spec k' k) as [->|Hne]; [discriminate|].
    intros H [Heq|Hin]; [contradiction | exact (IH H Hin)].
Qed.

Lemma keys_set_distinct {V} (k : string) (v : V) (d : Dict.t V) :
  NoDup (Dict.keys d) -> NoDup (Dict.keys (Dict.set k v d)).
Proof.
  intros Hn. destruct (Dict.get k d) as [v0|] eqn:E.
  - destruct (dict_set_split k v v0 d E) as (l1 & l2 & Hd & ->).
    rewrite Hd in Hn. unfold Dict.keys in *. rewrite map_app in *.
    exact Hn.
  - rewrite (dict_set_fresh k v d E). unfold Dict.keys. rewrite map_app.
    cbn [map fst]. apply NoDup_app.
    + exact Hn.
    + repeat constructor. intros [].
    + intros x Hin [<-|[]]. exact (get_none_not_in k d E Hin).
Qed.

Lemma get_memory_index (cfg : config) (e : env) (st st1 : store)
  (k : string) (found : option MemoryRecord) :
  get_memory cfg e st k = Ok (found, st1) ->
  NoDup (Dict.keys (memories st)) ->
  NoDup (Dict.keys (memories st1)) /\ vectors st1 = vectors st.
Proof.
  unfold get_memory. intros H Hn.
  destruct (MemTable.get_memory st k) as [[d a]|];
    [|injection H as <- <-; auto].
  destruct (negb (nonempty d)); [injection H as <- <-; auto|].
  destruct (encryption_key cfg) as [f|]; [|injection H as <- <-; auto].
  destruct (truthy (Dict.get_or "encrypted" (VBool false) d));
    [|injection H as <- <-; auto].
  destruct (decrypt_fields (Some f) d) as [d'|]; [|discriminate H].
  cbn [bind] in H. injection H as <- <-.
  destruct a; [|auto].
  cbn [memories with_memories vectors]. split; [|reflexivity].
  apply keys_set_distinct, Hn.
Qed.

(** X29. [delete_memory] that returns [True] leaves nothing under the id:
    [MemTable.get_memory] finds no record and the vectors table no row,
    while the vector of every other id stays as it was. *)
Theorem delete_removes_record_and_vector (cfg : config) (e : env)
  (st st' : store) (k : string) :
  NoDup (Dict.keys (memories st)) ->
  NoDup (Dict.keys (vectors st)) ->
  delete_memory cfg e st k = Ok (true, st') ->
  MemTable.get_memory st' k = None
  /\ Dict.get k (vectors st') = None
  /\ (forall j, j <> k -> Dict.get j (vectors st') = Dict.get j (vectors st)).
Proof.
  intros Hm Hv H. unfold delete_memory in H.
  destruct (get_memory cfg e st k) as [[found st1]|] eqn:Eg; [|discriminate H].
  cbn [bind] in H.
  destruct (get_memory_index cfg e st st1 k found Eg Hm) as [Hm1 Hv1].
  destruct found as [memory|]; [|discriminate H].
  unfold MemTable.delete_memory in H.
  destruct (negb (Dict.has k (memories st1))); [discriminate H|].
  cbv beta iota zeta in H.
  match type of H with
  | context [MemHistory.add_history e ?s memory "delete"] =>
      destruct (MemHistory.add_history e s memory "delete") as [st3|] eqn:Eh;
        [|discriminate H];
      destruct (add_history_keeps_table e s st3 memory "delete" Eh)
        as (A & B & C)
  end.
  cbn [bind] in H. injection H as <-.
  cbn [memories mem_files vectors with_memories with_mem_files] in A, B, C.
  unfold delete_vector, MemTable.get_memory.
  cbn [memories mem_files vectors with_vectors].
  rewrite A, C, Hv1.
  split.
  { rewrite (Tables.get_del_same k _ Hm1). reflexivity. }
  split.
  { apply Tables.get_del_same, Hv. }
  intros j Hj. apply Dict.get_del_other. exact Hj.
Qed.

Section Key.

Variable repr_float : float -> string.
Variable f : Fernet.

(** X30. The row [add_memory] writes to the vectors table for a record
    with an embedding holds the record's content and tags as they were
    given: for a record added with [encrypted=True] the table stores
    ciphertext, and the vectors table the plaintext. *)
Theorem vector_row_holds_plaintext (e : env) (st st1 : store)
  (m : MemoryRecord) (k k' : string) (x : pyval) (l : list pyval)
  (encrypted : bool) :
  Encrypted.typed m k ->
  embedding m = VList (x :: l) ->
  Dict.get k (vectors st) = None ->
  add_memory repr_float (Encrypted.keyed f) e st m encrypted = Ok (k', st1) ->
  Dict.get k (vectors st1)
  = Some (embedding m,
          [("content", content m); ("tags", tags m);
           ("importance", importance m)]).
Proof.
  intros (Hid & Hk & [c Hc] & [lt Hl] & [d Hd] & [s Hs] & _ & _ & _)
         He Hfresh Hadd.
  unfold add_memory in Hadd.
  cbn [Encrypted.keyed embedding_provider encryption_key bind] in Hadd.
  assert (Ht : tags_copy (tags m) = Ok (tags m)).
  { rewrite Hl. destruct lt; reflexivity. }
  rewrite Ht in Hadd. cbn [bind] in Hadd.
  set (m2 := if encrypted then encrypt_fields repr_float (Some f) m else m)
    in *.
  assert (H2 : id m2 = id m /\ embedding m2 = embedding m
               /\ importance m2 = importance m).
  { unfold m2. destruct encrypted; [|auto].
    rewrite Encrypted.encrypt_fields_fields. auto. }
  destruct H2 as (Hid2 & He2 & Hi2).
  destruct (MemTable.add_memory st m2 encrypted) as [[k0 sta]|] eqn:Ea;
    [|discriminate Hadd].
  cbn [bind] in Hadd.
  destruct (Tables.table_add_filed _ _ _ _ _ Ea) as (Hk0 & _).
  assert (Hva : vectors sta = vectors st).
  { unfold MemTable.add_memory in Ea.
    destruct (id_key (id m2)); [|discriminate Ea].
    cbn [bind] in Ea. injection Ea as _ <-. reflexivity. }
  destruct (MemHistory.add_history e sta m2 "create") as [stb|] eqn:Eh;
    [|discriminate Hadd].
  cbn [bind] in Hadd.
  destruct (add_history_keeps_table _ _ _ _ _ Eh) as (_ & _ & Hvb).
  rewrite He2, He, Hi2 in Hadd. cbn [truthy] in Hadd.
  injection Hadd as Hk' <-.
  match goal with
  | |- context [add_vector _ ?q _ _] =>
      assert (Hkk : q = k) by congruence; rewrite Hkk
  end.
  unfold add_vector, Dict.has. rewrite Hvb, Hva, Hfresh.
  cbn [vectors with_vectors]. rewrite Dict.get_set_same, He. reflexivity.
Qed.

End Key.

Definition embedded_note : MemoryRecord :=
  mkRecord (VStr "id-8") (VStr "the code is 1234") (VList [VStr "secret"])
    (VDict []) (VFloat half) (VFloat (of_Z 1000)) (VFloat (of_Z 1000))
    (VStr "phone") (VList [VFloat one; VFloat zero]).

Definition embedded_store : store :=
  Eval vm_compute in
    store_of (add_memory Runtime.repr_float
                (Encrypted.keyed Records.marking_key) e0 empty_store
                embedded_note true).

Definition embedded_deleted : store :=
  Eval vm_compute in
    store_of (delete_memory (Encrypted.keyed Records.marking_key) e1
                embedded_store "id-8").

Lemma vector_row_holds_plaintext_witness :
  Dict.get "id-8" (vectors embedded_store)
  = Some (VList [VFloat one; VFloat zero],
          [("content", VStr "the code is 1234");
           ("tags", VList [VStr "secret"]); ("importance", VFloat half)])
  /\ Dict.get "content"
       (Dict.get_or "id-8" [] (memories embedded_store))
     = Some (VStr "#the code is 1234").
Proof.
  split; [|reflexivity].
  apply (vector_row_holds_plaintext Runtime.repr_float Records.marking_key
           e0 empty_store embedded_store embedded_note "id-8" "id-8"
           (VFloat one) [VFloat zero] true).
  - unfold Encrypted.typed. cbn.
    repeat match goal with
           | |- _ /\ _ => split
           | |- exists _, _ => eexists
           end; try reflexivity; discriminate.
  - reflexivity.
  - reflexivity.
  - vm_compute. reflexivity.
Defined.

Lemma delete_removes_record_and_vector_witness :
  MemTable.get_memory embedded_deleted "id-8" = None
  /\ Dict.get "id-8" (vectors embedded_deleted) = None
  /\ (forall j, j <> "id-8" ->
        Dict.get j (vectors embedded_deleted)
        = Dict.get j (vectors embedded_store)).
Proof.
  apply (delete_removes_record_and_vector
           (Encrypted.keyed Records.marking_key) e1 embedded_store
           embedded_deleted "id-8").
  - vm_compute. repeat constructor. intros [].
  - vm_compute. repeat constructor. intros [].
  - vm_compute. reflexivity.
Defined.

End Sync.
